(** * aiolifxc: the LIFX LAN client (src/aiolifxc/aiolifx.py)

    A shallow embedding of the device session ([Light]), the device
    collection ([Lights]) and the discovery protocol
    ([LifxDiscoveryProtocol]), with the properties of the specification
    stated and settled over it. *)

From Stdlib Require Import ZArith String Ascii List Bool Lia QArith.
From stdpp Require Import base option list gmap strings.

Local Open Scope string_scope.
Local Open Scope list_scope.
Local Open Scope Z_scope.

(** ** Python values the module handles

    A [str] is a [string], one character for each code point, so that
    [len] is [String.length] and the slice [value[:n]] is
    [substring 0 n value]; an [int] is a [Z]; a timeout in seconds is a
    rational. *)

(** [bytes] objects. *)
Definition bytes := list Byte.byte.

(** ** Address translation: [_mac_to_ipv6_link_local] *)

Module Ipv6.

(** The characters the translation table maps to [None]:
    [" "], ["."], [":"] and ["-"]. *)
Definition is_delimiter (c : ascii) : bool :=
  (Ascii.eqb c " " || Ascii.eqb c "." || Ascii.eqb c ":" || Ascii.eqb c "-")%bool.

(** [mac.translate(trans)]: every delimiter is deleted. *)
Fixpoint translate (s : string) : string :=
  match s with
  | EmptyString => EmptyString
  | String c r => if is_delimiter c then translate r else String c (translate r)
  end.

(** Value of one hexadecimal digit, either case. *)
Definition hex_digit_value (c : ascii) : option Z :=
  let n := Z.of_N (N_of_ascii c) in
  if (48 <=? n) && (n <=? 57) then Some (n - 48)
  else if (97 <=? n) && (n <=? 102) then Some (n - 87)
  else if (65 <=? n) && (n <=? 70) then Some (n - 55)
  else None.

Fixpoint int16_acc (acc : Z) (s : string) : option Z :=
  match s with
  | EmptyString => Some acc
  | String c r =>
      match hex_digit_value c with
      | Some d => int16_acc (16 * acc + d) r
      | None => None
      end
  end.

(** [int(s, 16)] on a string of hexadecimal digits; [None] is the
    [ValueError] of an empty string or of a character that is no digit.
    (The sign, the [0x] prefix and the underscores that [int] also reads
    do not occur in a hardware address and are not part of this model.) *)
Definition int16 (s : string) : option Z :=
  match s with
  | EmptyString => None
  | _ => int16_acc 0 s
  end.

Definition hex_char (d : Z) : ascii :=
  if d <? 10 then ascii_of_N (Z.to_N (48 + d)) else ascii_of_N (Z.to_N (87 + d)).

Fixpoint hex_of (fuel : nat) (n : Z) (acc : string) : string :=
  match fuel with
  | O => acc
  | S f =>
      let acc' := String (hex_char (n mod 16)) acc in
      if n / 16 =? 0 then acc' else hex_of f (n / 16) acc'
  end.

(** ['{:x}'.format(n)] for [0 <= n]: lower-case digits, no padding. *)
Definition hex (n : Z) : string := hex_of (S (Z.to_nat (Z.log2 n))) n "".

Fixpoint zeros (k : nat) : string :=
  match k with
  | O => ""
  | S k' => String "0" (zeros k')
  end.

(** ['{:0Wx}'.format(n)] for [0 <= n]: zero-padded on the left to at least
    [W] characters. *)
Definition format_x (width : nat) (n : Z) : string :=
  let s := hex n in zeros (width - String.length s) +:+ s.

(** The source line [mac_value >> 32 & 0xffff ^ 0x0200] parses as
    [((mac_value >> 32) & 0xffff) ^ 0x0200]: in Python [>>] binds tighter
    than [&], which binds tighter than [^]. *)
Definition high2_of (mac_value : Z) : Z :=
  Z.lxor (Z.land (Z.shiftr mac_value 32) 0xffff) 0x0200.
Definition high1_of (mac_value : Z) : Z := Z.land (Z.shiftr mac_value 24) 0xff.
Definition low1_of (mac_value : Z) : Z := Z.land (Z.shiftr mac_value 16) 0xff.
Definition low2_of (mac_value : Z) : Z := Z.land mac_value 0xffff.

Definition _mac_to_ipv6_link_local (mac prefix : string) : option string :=
  match int16 (translate mac) with
  | None => None
  | Some mac_value =>
      let high2 := high2_of mac_value in
      let high1 := high1_of mac_value in
      let low1 := low1_of mac_value in
      let low2 := low2_of mac_value in
      Some (prefix +:+ ":" +:+ format_x 4 high2 +:+ ":" +:+ format_x 2 high1 +:+ "ff:fe"
              +:+ format_x 2 low1 +:+ ":" +:+ format_x 4 low2)
  end.

(** The canonical colon-hex form of six octets, as the codec writes a
    hardware address. *)
Definition colon_hex (b0 b1 b2 b3 b4 b5 : Z) : string :=
  format_x 2 b0 +:+ ":" +:+ format_x 2 b1 +:+ ":" +:+ format_x 2 b2 +:+ ":"
    +:+ format_x 2 b3 +:+ ":" +:+ format_x 2 b4 +:+ ":" +:+ format_x 2 b5.

(** Checks over all octets, run once by computation in the proofs. *)
Definition all_octets : list Z := map Z.of_nat (seq 0 256).

(** [format_x 2 b] is two hexadecimal digits, no delimiter, of value [b]. *)
Definition two_digits (b : Z) : bool :=
  match format_x 2 b with
  | String c1 (String c2 EmptyString) =>
      match hex_digit_value c1, hex_digit_value c2 with
      | Some d1, Some d2 =>
          (16 * d1 + d2 =? b) && negb (is_delimiter c1) && negb (is_delimiter c2)
      | _, _ => false
      end
  | _ => false
  end.

(** Four digits are the two digits of the high octet, then those of the
    low one; [0x0200] flips bit 1 of the high octet. *)
Definition four_digits (hi lo : Z) : bool :=
  String.eqb (format_x 4 (hi * 256 + lo)) (format_x 2 hi +:+ format_x 2 lo)
  && (Z.lxor (hi * 256 + lo) 0x0200 =? Z.lxor hi 2 * 256 + lo)
  && (0 <=? Z.lxor hi 2) && (Z.lxor hi 2 <? 256).

End Ipv6.

(** ** Messages and the wire codec *)

(** The message classes of [msgtypes] that this module names. *)
Inductive MsgType :=
  | Acknowledgement
  | GetService
  | StateService
  | GetLabel
  | SetLabel
  | StateLabel
  | GetGroup
  | StateGroup
  | LightState.

#[global] Instance MsgType_eq_dec : EqDecision MsgType.
Proof. solve_decision. Defined.

(** Values of a payload dictionary. *)
Inductive PyVal :=
  | VStr (s : string)
  | VInt (n : Z).

(** A [Message] object as its constructor receives it: the class and the
    keyword arguments. *)
Record Message := {
  msg_type : MsgType;
  target_addr : string;
  source_id : Z;
  seq_num : Z;
  payload : list (string * PyVal);
  ack_requested : bool;
  response_requested : bool
}.

(** The codec lives in [message] and [unpack], outside this module; the
    session needs its contract only.  [unpack_lifx_message] answers [None]
    when it raises on bytes it cannot decode. *)
Class Codec := {
  generate_packed_message : Message -> bytes;
  unpack_lifx_message : bytes -> option Message
}.

Definition BROADCAST_MAC : string := "00:00:00:00:00:00".
Definition UDP_BROADCAST_IP : string := "255.255.255.255".
Definition UDP_BROADCAST_PORT : Z := 56700.
Definition DEFAULT_TIMEOUT : Q := 1 # 2.
Definition DEFAULT_UNREGISTER_TIMEOUT : Q := 1 # 2.
Definition DEFAULT_ATTEMPTS : Z := 3.
Definition DISCOVERY_INTERVAL : Z := 180.
Definition DISCOVERY_STEP : Z := 5.

(** ** The event loop

    What the module asks of [asyncio]: object identities for events, tasks
    and transports, the flag of every [Event], and a record of the calls
    made on tasks and transports. *)

Inductive Exc :=
  | LightOffline
  | RuntimeError
  | AttributeError
  | KeyError
  | AssertionError
  | MalformedMessage
  | OtherException (name : string).

#[global] Instance Exc_eq_dec : EqDecision Exc.
Proof. solve_decision. Defined.

Inductive Family := AF_INET | AF_INET6.

Inductive Callback :=
  | CreateDatagramEndpoint (family : Family) (remote_ip : string) (remote_port : Z)
  | AsyncRegister (mac : string)
  | Discover.

Inductive Level := DEBUG | INFO | ERROR.

(** One call on [logger]; [logger.exception] is an [ERROR] record that
    carries the exception. *)
Record LogRecord := {
  level : Level;
  text : string;
  subject : string;
  exc_info : option Exc
}.

Record Loop := {
  next_id : nat;
  events : gmap nat bool;
  created : list (nat * Callback);
  cancelled : list nat;
  closed : list nat;
  sent : list (nat * bytes * option (string * Z));
  waits : list (nat * Q);
  scheduled : list (Z * Callback);
  logged : list LogRecord
}.

Definition empty_loop : Loop :=
  {| next_id := 0; events := ∅; created := []; cancelled := []; closed := [];
     sent := []; waits := []; scheduled := []; logged := [] |}.

(** [aio.Event()]: a new object, flag clear. *)
Definition new_event (lp : Loop) : nat * Loop :=
  (next_id lp,
   {| next_id := S (next_id lp); events := <[next_id lp := false]> (events lp);
      created := created lp; cancelled := cancelled lp; closed := closed lp;
      sent := sent lp; waits := waits lp; scheduled := scheduled lp;
      logged := logged lp |}).

(** [event.set()]. *)
Definition event_set (e : nat) (lp : Loop) : Loop :=
  {| next_id := next_id lp; events := <[e := true]> (events lp);
     created := created lp; cancelled := cancelled lp; closed := closed lp;
     sent := sent lp; waits := waits lp; scheduled := scheduled lp;
     logged := logged lp |}.

Definition is_set (e : nat) (lp : Loop) : bool :=
  match events lp !! e with
  | Some b => b
  | None => false
  end.

(** [loop.create_task(coro)]: a new task object. *)
Definition create_task (c : Callback) (lp : Loop) : nat * Loop :=
  (next_id lp,
   {| next_id := S (next_id lp); events := events lp;
      created := created lp ++ [(next_id lp, c)]; cancelled := cancelled lp;
      closed := closed lp; sent := sent lp; waits := waits lp;
      scheduled := scheduled lp; logged := logged lp |}).

(** [task.cancel()]. *)
Definition task_cancel (k : nat) (lp : Loop) : Loop :=
  {| next_id := next_id lp; events := events lp; created := created lp;
     cancelled := cancelled lp ++ [k]; closed := closed lp; sent := sent lp;
     waits := waits lp; scheduled := scheduled lp; logged := logged lp |}.

(** [transport.close()]. *)
Definition transport_close (t : nat) (lp : Loop) : Loop :=
  {| next_id := next_id lp; events := events lp; created := created lp;
     cancelled := cancelled lp; closed := closed lp ++ [t]; sent := sent lp;
     waits := waits lp; scheduled := scheduled lp; logged := logged lp |}.

(** [transport.sendto(data)] and [transport.sendto(data, addr)]. *)
Definition sendto (t : nat) (data : bytes) (addr : option (string * Z)) (lp : Loop) : Loop :=
  {| next_id := next_id lp; events := events lp; created := created lp;
     cancelled := cancelled lp; closed := closed lp;
     sent := sent lp ++ [(t, data, addr)];
     waits := waits lp; scheduled := scheduled lp; logged := logged lp |}.

(** [aio.wait_for(event.wait(), timeout_secs)] is entered. *)
Definition wait_for (e : nat) (timeout_secs : Q) (lp : Loop) : Loop :=
  {| next_id := next_id lp; events := events lp; created := created lp;
     cancelled := cancelled lp; closed := closed lp; sent := sent lp;
     waits := waits lp ++ [(e, timeout_secs)];
     scheduled := scheduled lp; logged := logged lp |}.

(** [loop.call_later(delay, callback)]. *)
Definition call_later (delay : Z) (c : Callback) (lp : Loop) : Loop :=
  {| next_id := next_id lp; events := events lp; created := created lp;
     cancelled := cancelled lp; closed := closed lp; sent := sent lp;
     waits := waits lp; scheduled := scheduled lp ++ [(delay, c)];
     logged := logged lp |}.

Definition log (r : LogRecord) (lp : Loop) : Loop :=
  {| next_id := next_id lp; events := events lp; created := created lp;
     cancelled := cancelled lp; closed := closed lp; sent := sent lp;
     waits := waits lp; scheduled := scheduled lp;
     logged := logged lp ++ [r] |}.

(** ** The device session: class [Light] *)

Module Light.

(** An entry of [_message]: the list [[response type, Event, response]]. *)
Record Entry := {
  response_type : MsgType;
  event : option nat;
  response : option Message
}.

(** The attributes of a [Light] that the methods below read or write; the
    other cached attributes (power, colour, firmware, ...) are written by
    their own getters and setters only. *)
Record t := {
  _mac_addr : string;
  _ip_addr : string;
  _port : Z;
  _retry_count : Z;
  _timeout : Q;
  _transport : option nat;
  _task : option nat;
  _seq : Z;
  _message : gmap Z Entry;
  _source_id : Z;
  _label : option string;
  _location : option string;
  _group : option string
}.

Definition set_addr (ip_addr : string) (port : Z) (self : t) : t :=
  {| _mac_addr := _mac_addr self; _ip_addr := ip_addr; _port := port;
     _retry_count := _retry_count self; _timeout := _timeout self;
     _transport := _transport self; _task := _task self; _seq := _seq self;
     _message := _message self; _source_id := _source_id self;
     _label := _label self; _location := _location self; _group := _group self |}.

Definition set_transport (tr : option nat) (self : t) : t :=
  {| _mac_addr := _mac_addr self; _ip_addr := _ip_addr self; _port := _port self;
     _retry_count := _retry_count self; _timeout := _timeout self;
     _transport := tr; _task := _task self; _seq := _seq self;
     _message := _message self; _source_id := _source_id self;
     _label := _label self; _location := _location self; _group := _group self |}.

Definition set_task (k : option nat) (self : t) : t :=
  {| _mac_addr := _mac_addr self; _ip_addr := _ip_addr self; _port := _port self;
     _retry_count := _retry_count self; _timeout := _timeout self;
     _transport := _transport self; _task := k; _seq := _seq self;
     _message := _message self; _source_id := _source_id self;
     _label := _label self; _location := _location self; _group := _group self |}.

Definition set_seq (s : Z) (self : t) : t :=
  {| _mac_addr := _mac_addr self; _ip_addr := _ip_addr self; _port := _port self;
     _retry_count := _retry_count self; _timeout := _timeout self;
     _transport := _transport self; _task := _task self; _seq := s;
     _message := _message self; _source_id := _source_id self;
     _label := _label self; _location := _location self; _group := _group self |}.

Definition set_message (m : gmap Z Entry) (self : t) : t :=
  {| _mac_addr := _mac_addr self; _ip_addr := _ip_addr self; _port := _port self;
     _retry_count := _retry_count self; _timeout := _timeout self;
     _transport := _transport self; _task := _task self; _seq := _seq self;
     _message := m; _source_id := _source_id self;
     _label := _label self; _location := _location self; _group := _group self |}.

Definition set_label_attr (l : option string) (self : t) : t :=
  {| _mac_addr := _mac_addr self; _ip_addr := _ip_addr self; _port := _port self;
     _retry_count := _retry_count self; _timeout := _timeout self;
     _transport := _transport self; _task := _task self; _seq := _seq self;
     _message := _message self; _source_id := _source_id self;
     _label := l; _location := _location self; _group := _group self |}.

(** [str.lower()] on the characters of a hardware address. *)
Definition lower_char (c : ascii) : ascii :=
  let n := N_of_ascii c in
  if ((65 <=? n) && (n <=? 90))%N then ascii_of_N (n + 32) else c.

Fixpoint lower (s : string) : string :=
  match s with
  | EmptyString => EmptyString
  | String c r => String (lower_char c) (lower r)
  end.

(** [__init__]; the random [_source_id] is an argument. *)
Definition __init__ (mac_addr ip_addr : string) (port : Z) (source : Z) : t :=
  {| _mac_addr := lower mac_addr; _ip_addr := ip_addr; _port := port;
     _retry_count := DEFAULT_ATTEMPTS; _timeout := DEFAULT_TIMEOUT;
     _transport := None; _task := None; _seq := 0;
     _message := ∅; _source_id := source;
     _label := None; _location := None; _group := None |}.

(** [__str__]: ["{} ({})".format(self._label, self.mac_addr)]. *)
Definition __str__ (self : t) : string :=
  match _label self with
  | Some l => l
  | None => "None"
  end +:+ " (" +:+ _mac_addr self +:+ ")".

Definition _register (self : t) (lp : Loop) : Loop :=
  snd (create_task (AsyncRegister (_mac_addr self)) lp).

Definition _seq_next (self : t) : t * Z :=
  let s := (_seq self + 1) mod 128 in
  (set_seq s self, s).

Definition connection_made (self : t) (transport : nat) : t :=
  set_transport (Some transport) self.

Definition is_alive (self : t) : bool :=
  match _transport self with
  | None => false
  | Some _ =>
      match _task self with
      | None => false
      | Some _ => true
      end
  end.

Definition cleanup (self : t) (lp : Loop) : t * Loop :=
  let '(self1, lp1) :=
    match _transport self with
    | Some tr => (set_transport None self, transport_close tr lp)
    | None => (self, lp)
    end in
  match _task self1 with
  | Some k => (set_task None self1, task_cancel k lp1)
  | None => (self1, lp1)
  end.

Definition renew (self : t) (lp : Loop) (family : Family) (ip_addr : string) (port : Z)
  : t * Loop :=
  let '(self1, lp1) :=
    if (negb (String.eqb (_ip_addr self) ip_addr) || negb (_port self =? port))%bool
    then let '(s, l) := cleanup self lp in (set_addr ip_addr port s, l)
    else (self, lp) in
  let '(self2, lp2) :=
    match _task self1 with
    | None =>
        let '(k, l) :=
          create_task (CreateDatagramEndpoint family (_ip_addr self1) (_port self1)) lp1 in
        (set_task (Some k) self1, l)
    | Some _ => (self1, lp1)
    end in
  (self2, _register self2 lp2).

Section WithCodec.
Context `{codec : Codec}.

(** [datagram_received]; the third component is the exception that leaves
    the method, if any: the codec's, or the [AttributeError] of calling
    [set] on an entry that has no [Event] yet. *)
Definition datagram_received (self : t) (lp : Loop) (data : bytes) : t * Loop * option Exc :=
  match unpack_lifx_message data with
  | None => (self, lp, Some MalformedMessage)
  | Some resp =>
      match _message self !! seq_num resp with
      | None => (self, lp, None)
      | Some en =>
          if decide (msg_type resp = response_type en) then
            if decide (source_id resp = _source_id self) then
              let en' := {| response_type := response_type en; event := event en;
                            response := Some resp |} in
              let self' := set_message (<[seq_num resp := en']> (_message self)) self in
              match event en with
              | Some myevent => (self', event_set myevent lp, None)
              | None => (self', lp, Some AttributeError)
              end
            else (self, lp, None)
          else (self, lp, None)
      end
  end.

(** *** The request workflow: [_try_sending]

    A coroutine is cut at its one suspension point, the
    [await aio.wait_for(event.wait(), timeout_secs)]: [Frame] holds the
    locals of a suspended call, and each function below runs the code
    between two suspensions. *)

Record Frame := {
  msg : Message;
  expected : MsgType;
  timeout_secs : Q;
  max_attempts : Z;
  attempts : Z;
  waiting_on : nat
}.

Inductive Outcome :=
  | Returned (result : option Message)
  | Raised (e : Exc).

Inductive Status :=
  | Done (o : Outcome)
  | Suspended (f : Frame).

(** After the loop: [result = self._message[msg.seq_num][2]], the [del],
    the [return]. *)
Definition after_loop (self : t) (lp : Loop) (m : Message) : t * Loop * Status :=
  match _message self !! seq_num m with
  | None => (self, lp, Done (Raised KeyError))
  | Some en =>
      (set_message (delete (seq_num m) (_message self)) self, lp,
       Done (Returned (response en)))
  end.

(** From the loop test [while attempts < max_attempts] to the [await]. *)
Definition loop_head (self : t) (lp : Loop) (m : Message) (rt : MsgType)
    (tmo : Q) (maxa att : Z) : t * Loop * Status :=
  if att <? maxa then
    match _message self !! seq_num m with
    | None => (self, lp, Done (Raised RuntimeError))
    | Some en =>
        let '(ev, lp1) := new_event lp in
        let en' := {| response_type := response_type en; event := Some ev;
                      response := response en |} in
        let self1 := set_message (<[seq_num m := en']> (_message self)) self in
        match _transport self1 with
        | None => (self1, lp1, Done (Raised AttributeError))
        | Some tr =>
            let lp2 := sendto tr (generate_packed_message m) None lp1 in
            (self1, wait_for ev tmo lp2,
             Suspended {| msg := m; expected := rt; timeout_secs := tmo;
                          max_attempts := maxa; attempts := att + 1;
                          waiting_on := ev |})
        end
    end
  else after_loop self lp m.

(** [_try_sending] from its entry to the first suspension. *)
Definition _try_sending (self : t) (lp : Loop) (m : Message) (rt : MsgType)
    (tmo : option Q) (maxa : option Z) : t * Loop * Status :=
  match _transport self with
  | None => (self, lp, Done (Raised AssertionError))
  | Some _ =>
      let en := {| response_type := rt; event := None; response := None |} in
      let self1 := set_message (<[seq_num m := en]> (_message self)) self in
      let tmo' := match tmo with Some x => x | None => _timeout self1 end in
      let maxa' := match maxa with Some x => x | None => _retry_count self1 end in
      loop_head self1 lp m rt tmo' maxa' 0
  end.

(** The event was set in time: [break], then the code after the loop. *)
Definition woken (self : t) (lp : Loop) (f : Frame) : t * Loop * Status :=
  after_loop self lp (msg f).

(** [aio.TimeoutError]: the handler, then the next turn of the loop. *)
Definition timed_out (self : t) (lp : Loop) (f : Frame) : t * Loop * Status :=
  if max_attempts f <=? attempts f then
    let lp1 := log {| level := ERROR;
                      text := "Light %s cannot be reached after %s retries";
                      subject := __str__ self; exc_info := None |} lp in
    let self1 :=
      match _message self !! seq_num (msg f) with
      | Some _ => set_message (delete (seq_num (msg f)) (_message self)) self
      | None => self
      end in
    let '(self2, lp2) := cleanup self1 lp1 in
    (self2, lp2, Done (Raised LightOffline))
  else
    loop_head self lp (msg f) (expected f) (timeout_secs f) (max_attempts f) (attempts f).

Definition _req_with_ack (self : t) (lp : Loop) (mt : MsgType)
    (pl : list (string * PyVal)) (tmo : option Q) (maxa : option Z) : t * Loop * Status :=
  let '(self1, s) := _seq_next self in
  let m := {| msg_type := mt; target_addr := _mac_addr self1;
              source_id := _source_id self1; seq_num := s; payload := pl;
              ack_requested := true; response_requested := false |} in
  _try_sending self1 lp m Acknowledgement tmo maxa.

Definition _req_with_resp (self : t) (lp : Loop) (mt rt : MsgType)
    (pl : option (list (string * PyVal))) (tmo : option Q) (maxa : option Z)
  : t * Loop * Status :=
  let pl' := match pl with Some x => x | None => [] end in
  let '(self1, s) := _seq_next self in
  let m := {| msg_type := mt; target_addr := _mac_addr self1;
              source_id := _source_id self1; seq_num := s; payload := pl';
              ack_requested := false; response_requested := true |} in
  _try_sending self1 lp m rt tmo maxa.

(** *** One call against its inbound traffic

    What reaches a suspended call: a datagram handed to
    [datagram_received], or the expiry of its [wait_for] timer. *)
Inductive Inbound :=
  | Datagram (data : bytes)
  | TimerFires.

(** A datagram that sets the event the call waits on resumes the call
    before the next inbound item is handled. *)
Fixpoint drive (self : t) (lp : Loop) (f : Frame) (ins : list Inbound)
  : t * Loop * Status :=
  match ins with
  | [] => (self, lp, Suspended f)
  | Datagram data :: rest =>
      let '(self1, lp1, _) := datagram_received self lp data in
      if is_set (waiting_on f) lp1 then woken self1 lp1 f
      else drive self1 lp1 f rest
  | TimerFires :: rest =>
      match timed_out self lp f with
      | (self1, lp1, Suspended f1) => drive self1 lp1 f1 rest
      | r => r
      end
  end.

Definition run (r : t * Loop * Status) (ins : list Inbound) : t * Loop * Status :=
  match r with
  | (self, lp, Suspended f) => drive self lp f ins
  | _ => r
  end.

(** [set_label], awaited against the inbound traffic [ins]. *)
Definition set_label (self : t) (lp : Loop) (value : string) (ins : list Inbound)
  : t * Loop * Status :=
  let value := if (32 <? String.length value)%nat then substring 0 32 value else value in
  match run (_req_with_ack self lp SetLabel [("label", VStr value)] None None) ins with
  | (self1, lp1, Done (Returned _)) =>
      (set_label_attr (Some value) self1, lp1, Done (Returned None))
  | r => r
  end.

(** *** Several calls on one session

    The calls of one session interleave on one thread; a step is what runs
    between two suspension points.  Call [i] is the [i]-th call started. *)
Record Machine := {
  light : t;
  loop : Loop;
  calls : list Status
}.

Inductive Step :=
  | ReqWithAck (mt : MsgType) (pl : list (string * PyVal))
  | ReqWithResp (mt rt : MsgType) (pl : option (list (string * PyVal)))
  | Receive (data : bytes)
  | TimerExpired (i : nat)
  | Wake (i : nat)
  | Renew (family : Family) (ip_addr : string) (port : Z)
  | ConnectionMade (transport : nat).

Definition started (m : Machine) (r : t * Loop * Status) : Machine :=
  let '(self, lp, st) := r in
  {| light := self; loop := lp; calls := calls m ++ [st] |}.

Definition resumed (m : Machine) (i : nat) (r : t * Loop * Status) : Machine :=
  let '(self, lp, st) := r in
  {| light := self; loop := lp; calls := <[i := st]> (calls m) |}.

Definition step (m : Machine) (s : Step) : Machine :=
  match s with
  | ReqWithAck mt pl => started m (_req_with_ack (light m) (loop m) mt pl None None)
  | ReqWithResp mt rt pl => started m (_req_with_resp (light m) (loop m) mt rt pl None None)
  | Receive data =>
      let '(self, lp, _) := datagram_received (light m) (loop m) data in
      {| light := self; loop := lp; calls := calls m |}
  | TimerExpired i =>
      match calls m !! i with
      | Some (Suspended f) =>
          if is_set (waiting_on f) (loop m) then m
          else resumed m i (timed_out (light m) (loop m) f)
      | _ => m
      end
  | Wake i =>
      match calls m !! i with
      | Some (Suspended f) =>
          if is_set (waiting_on f) (loop m) then resumed m i (woken (light m) (loop m) f)
          else m
      | _ => m
      end
  | Renew family ip_addr port =>
      let '(self, lp) := renew (light m) (loop m) family ip_addr port in
      {| light := self; loop := lp; calls := calls m |}
  | ConnectionMade tr =>
      {| light := connection_made (light m) tr; loop := loop m; calls := calls m |}
  end.

Definition exec (m : Machine) (steps : list Step) : Machine := fold_left step steps m.

(** The sequence numbers held by the calls still in flight. *)
Definition outstanding (m : Machine) : list Z :=
  omap (λ st, match st with
              | Suspended f => Some (seq_num (msg f))
              | Done _ => None
              end) (calls m).

End WithCodec.

End Light.

(** ** The device collection: class [Lights] *)

Module Lights.

Record t := {
  _light_list : list Light.t
}.

Definition get_clone (self : t) (light_list : list Light.t) : t :=
  {| _light_list := light_list |}.

(** [light.group == group]: a [None] attribute equals no string. *)
Definition get_by_group (self : t) (group : string) : t :=
  get_clone self
    (filter (λ light, Light._group light = Some group) (_light_list self)).

Definition get_by_label (self : t) (label : string) : t :=
  get_clone self
    (filter (λ light, Light._group light = Some label) (_light_list self)).

Definition get_by_mac_addr (self : t) (mac_addr : string) : t :=
  get_clone self
    (filter (λ light, Light._mac_addr light = mac_addr) (_light_list self)).

(** The filter-by-label view as the specification words it: the members
    whose cached label equals [label], in their order. *)
Definition filter_by_label_spec (self : t) (label : string) : t :=
  get_clone self
    (filter (λ light, Light._label light = Some label) (_light_list self)).

(** How awaiting a coroutine ends. *)
Inductive Completion :=
  | Finished
  | Failed (e : Exc).

#[global] Instance Completion_eq_dec : EqDecision Completion.
Proof. solve_decision. Defined.

(** The inner [wrapper]: awaits [fun(light)] inside the [try]; the
    exceptions are those of class [Exception], which both handlers cover. *)
Definition wrapper (fun_ : Light.t -> Completion) (light : Light.t)
  : list LogRecord * Completion :=
  match fun_ light with
  | Finished => ([], Finished)
  | Failed LightOffline =>
      ([{| level := INFO; text := "Light is offline %s";
           subject := Light.__str__ light; exc_info := None |}], Finished)
  | Failed e =>
      ([{| level := ERROR;
           text := "An exception was generated in do_for_every_light for %s:";
           subject := Light.__str__ light; exc_info := Some e |}], Finished)
  end.

(** [aio.gather] over the coroutines: done when every coroutine is done; the
    first exception among them, if any, is raised to the caller. *)
Fixpoint gather (rs : list Completion) : Completion :=
  match rs with
  | [] => Finished
  | Finished :: rest => gather rest
  | Failed e :: _ => Failed e
  end.

Record FanOut := {
  invoked : list Light.t;
  records : list LogRecord;
  completion : Completion
}.

Definition do_for_every_light (self : t) (fun_ : Light.t -> Completion) : FanOut :=
  let coroutines := map (λ light, (light, wrapper fun_ light)) (_light_list self) in
  {| invoked := map fst coroutines;
     records := concat (map (λ c, fst (snd c)) coroutines);
     completion := gather (map (λ c, snd (snd c)) coroutines) |}.

End Lights.

(** ** Discovery: class [LifxDiscoveryProtocol] *)

Module LifxDiscoveryProtocol.

Record t := {
  _seen : gmap string Light.t;
  _transport : option nat;
  _source_id : Z;
  _ipv6prefix : option string;
  _discovery_interval : Z;
  _discovery_step : Z;
  _discovery_countdown : Z
}.

Definition __init__ (source : Z) (ipv6prefix : option string)
    (discovery_interval discovery_step : Z) : t :=
  {| _seen := ∅; _transport := None; _source_id := source;
     _ipv6prefix := ipv6prefix; _discovery_interval := discovery_interval;
     _discovery_step := discovery_step; _discovery_countdown := 0 |}.

Definition set_seen (seen : gmap string Light.t) (self : t) : t :=
  {| _seen := seen; _transport := _transport self; _source_id := _source_id self;
     _ipv6prefix := _ipv6prefix self; _discovery_interval := _discovery_interval self;
     _discovery_step := _discovery_step self;
     _discovery_countdown := _discovery_countdown self |}.

Definition set_countdown (c : Z) (self : t) : t :=
  {| _seen := _seen self; _transport := _transport self; _source_id := _source_id self;
     _ipv6prefix := _ipv6prefix self; _discovery_interval := _discovery_interval self;
     _discovery_step := _discovery_step self; _discovery_countdown := c |}.

(** [connection_made]: keeps the transport and asks for a first wake with
    [call_soon]. *)
Definition connection_made (self : t) (lp : Loop) (transport : nat) : t * Loop :=
  ({| _seen := _seen self; _transport := Some transport; _source_id := _source_id self;
      _ipv6prefix := _ipv6prefix self; _discovery_interval := _discovery_interval self;
      _discovery_step := _discovery_step self;
      _discovery_countdown := _discovery_countdown self |},
   call_later 0 Discover lp).

Section WithCodec.
Context `{codec : Codec}.

(** The probe of [_discover]. *)
Definition probe (self : t) : Message :=
  {| msg_type := GetService; target_addr := BROADCAST_MAC;
     source_id := _source_id self; seq_num := 0; payload := [];
     ack_requested := false; response_requested := true |}.

(** One wake.  The sessions found dead are logged in key order. *)
Definition _discover (self : t) (lp : Loop) : t * Loop :=
  match _transport self with
  | None => (self, lp)
  | Some tr =>
      let new_seen := filter (λ kv, Light.is_alive (snd kv) = true) (_seen self) in
      let dropped :=
        filter (λ kv, Light.is_alive (snd kv) = false) (map_to_list (_seen self)) in
      let lp1 :=
        fold_left (λ l kv, log {| level := INFO; text := "Dropping light %s";
                                  subject := Light.__str__ (snd kv);
                                  exc_info := None |} l) dropped lp in
      let self1 := set_seen new_seen self in
      let '(self2, lp2) :=
        if _discovery_countdown self1 <=? 0 then
          let self2 := set_countdown (_discovery_interval self1) self1 in
          let lp2 := log {| level := DEBUG; text := "Sending discovery packet";
                            subject := ""; exc_info := None |} lp1 in
          (self2,
           sendto tr (generate_packed_message (probe self2))
             (Some (UDP_BROADCAST_IP, UDP_BROADCAST_PORT)) lp2)
        else
          (set_countdown (_discovery_countdown self1 - _discovery_step self1) self1, lp1) in
      (self2, call_later (_discovery_step self2) Discover lp2)
  end.

(** The wake loop: [n] wakes in a row, each one the [call_later] of the
    one before; the result lists, wake by wake, how many datagrams the
    wake sent. *)
Fixpoint wakes (n : nat) (self : t) (lp : Loop) : list nat :=
  match n with
  | O => []
  | S n' =>
      let '(self1, lp1) := _discover self lp in
      (length (sent lp1) - length (sent lp))%nat :: wakes n' self1 lp1
  end.

(** The protocol and the loop after [n] wakes. *)
Fixpoint run_wakes (n : nat) (self : t) (lp : Loop) : t * Loop :=
  match n with
  | O => (self, lp)
  | S n' => let '(self1, lp1) := _discover self lp in run_wakes n' self1 lp1
  end.

(** The wakes, counted from 0, that sent a probe. *)
Fixpoint probe_wakes_from (i : nat) (counts : list nat) : list nat :=
  match counts with
  | [] => []
  | c :: rest =>
      if (0 <? c)%nat then i :: probe_wakes_from (S i) rest
      else probe_wakes_from (S i) rest
  end.

Definition probe_wakes (n : nat) (self : t) (lp : Loop) : list nat :=
  probe_wakes_from 0 (wakes n self lp).

End WithCodec.

End LifxDiscoveryProtocol.

(** ** A codec for the worked examples

    Three bytes: a class tag, the sequence number and the source id.  It
    stands in for the real codec where an example needs concrete bytes. *)

Module ExampleCodec.

Definition tag (mt : MsgType) : N :=
  match mt with
  | Acknowledgement => 45
  | GetService => 2
  | StateService => 3
  | GetLabel => 23
  | SetLabel => 24
  | StateLabel => 25
  | GetGroup => 51
  | StateGroup => 53
  | LightState => 107
  end.

Definition untag (n : N) : option MsgType :=
  match n with
  | 45 => Some Acknowledgement
  | 2 => Some GetService
  | 3 => Some StateService
  | 23 => Some GetLabel
  | 24 => Some SetLabel
  | 25 => Some StateLabel
  | 51 => Some GetGroup
  | 53 => Some StateGroup
  | 107 => Some LightState
  | _ => None
  end%N.

Definition byte_of (n : N) : Byte.byte :=
  match Byte.of_N (n mod 256) with
  | Some b => b
  | None => Byte.x00
  end.

Definition pack (m : Message) : bytes :=
  [byte_of (tag (msg_type m)); byte_of (Z.to_N (seq_num m)); byte_of (Z.to_N (source_id m))].

Definition unpack (data : bytes) : option Message :=
  match data with
  | [ty; sq; src] =>
      match untag (Byte.to_N ty) with
      | Some mt =>
          Some {| msg_type := mt; target_addr := "d0:73:d5:00:00:01";
                  source_id := Z.of_N (Byte.to_N src); seq_num := Z.of_N (Byte.to_N sq);
                  payload := []; ack_requested := false; response_requested := false |}
      | None => None
      end
  | _ => None
  end.

Definition codec : Codec :=
  {| generate_packed_message := pack; unpack_lifx_message := unpack |}.

(** A session that discovery has bound: transport 1, endpoint task 0. *)
Definition bound_light : Light.t :=
  Light.connection_made
    (fst (Light.renew (Light.__init__ "D0:73:D5:00:00:01" "192.168.1.20" 56700 7)
            empty_loop AF_INET "192.168.1.20" 56700)) 1.

Definition bound_loop : Loop :=
  snd (Light.renew (Light.__init__ "D0:73:D5:00:00:01" "192.168.1.20" 56700 7)
         empty_loop AF_INET "192.168.1.20" 56700).

End ExampleCodec.

(** ** The vocabulary of the specification *)

Module Spec.

(** "A reply is accepted iff sequence matches AND kind matches AND source
    id matches": the three tests, on the decoded reply. *)
Definition accepts (self : Light.t) (resp : Message) : bool :=
  match Light._message self !! seq_num resp with
  | Some en =>
      bool_decide (msg_type resp = Light.response_type en)
      && bool_decide (source_id resp = Light._source_id self)
  | None => false
  end.

(** A reply that answers the request [m] awaiting a [rt] on [self]. *)
Definition answers (self : Light.t) (m : Message) (rt : MsgType) (resp : Message) : Prop :=
  seq_num resp = seq_num m ∧ msg_type resp = rt ∧ source_id resp = Light._source_id self.

(** "A transport that drops all replies": no datagram of [ins] decodes to
    a reply that answers the request [m]; replies to other outstanding
    requests of the session may be among them. *)
Definition unanswered `{codec : Codec} (self : Light.t) (m : Message) (rt : MsgType)
    (ins : list Light.Inbound) : Prop :=
  Forall (λ i, match i with
               | Light.Datagram data =>
                   ∀ resp, unpack_lifx_message data = Some resp → ¬ answers self m rt resp
               | Light.TimerFires => True
               end) ins.

(** Every [Event] held in the table was made by the loop: its identity
    is below the next one the loop gives out. *)
Definition events_allocated (self : Light.t) (lp : Loop) : Prop :=
  ∀ k en e, Light._message self !! k = Some en → Light.event en = Some e →
            (e < next_id lp)%nat.

(** How many timeouts [ins] holds. *)
Fixpoint timer_count (ins : list Light.Inbound) : nat :=
  match ins with
  | [] => 0
  | Light.TimerFires :: rest => S (timer_count rest)
  | Light.Datagram _ :: rest => timer_count rest
  end.

(** A call suspended in [wait_for] on a bound session: its entry is in the
    table with its own event, not set, and an empty result slot; no other
    entry holds that event. *)
Definition waiting (self : Light.t) (lp : Loop) (f : Light.Frame) (tr : nat) : Prop :=
  Light._transport self = Some tr
  ∧ Light._message self !! seq_num (Light.msg f)
    = Some {| Light.response_type := Light.expected f;
              Light.event := Some (Light.waiting_on f);
              Light.response := None |}
  ∧ is_set (Light.waiting_on f) lp = false
  ∧ Light.attempts f <= Light.max_attempts f
  ∧ events_allocated self lp
  ∧ (∀ k en, k ≠ seq_num (Light.msg f) → Light._message self !! k = Some en →
             Light.event en ≠ Some (Light.waiting_on f)).

(** "No two outstanding requests ever share a sequence number". *)
Definition no_shared_sequence_number (m : Light.Machine) : Prop :=
  NoDup (Light.outstanding m).

(** The steps that start an ack or response request. *)
Definition is_request (s : Light.Step) : bool :=
  match s with
  | Light.ReqWithAck _ _ | Light.ReqWithResp _ _ _ => true
  | _ => false
  end.

(** How many requests [steps] starts. *)
Definition requests (steps : list Light.Step) : nat :=
  length (filter (λ s, is_request s = true) steps).

(** The label a caller's string is cut to: its first 32 characters. *)
Definition first_32 (value : string) : string := substring 0 32 value.

End Spec.

(** ** Worked examples: the sessions and collections they use *)

Module Examples.

Definition kitchen : Light.t :=
  Light.set_label_attr (Some "Kitchen")
    {| Light._mac_addr := "d0:73:d5:00:00:01"; Light._ip_addr := "192.168.1.20";
       Light._port := 56700; Light._retry_count := DEFAULT_ATTEMPTS;
       Light._timeout := DEFAULT_TIMEOUT; Light._transport := Some 1%nat;
       Light._task := Some 0%nat; Light._seq := 0; Light._message := ∅;
       Light._source_id := 7; Light._label := None; Light._location := None;
       Light._group := Some "Downstairs" |}.

Definition porch : Light.t :=
  Light.set_label_attr (Some "Porch")
    {| Light._mac_addr := "d0:73:d5:00:00:02"; Light._ip_addr := "192.168.1.21";
       Light._port := 56700; Light._retry_count := DEFAULT_ATTEMPTS;
       Light._timeout := DEFAULT_TIMEOUT; Light._transport := Some 3%nat;
       Light._task := Some 2%nat; Light._seq := 0; Light._message := ∅;
       Light._source_id := 8; Light._label := None; Light._location := None;
       Light._group := Some "Kitchen" |}.

Definition house : Lights.t := {| Lights._light_list := [kitchen; porch] |}.

(** The bound session of [ExampleCodec], no call started yet. *)
Definition idle : Light.Machine :=
  {| Light.light := ExampleCodec.bound_light; Light.loop := ExampleCodec.bound_loop;
     Light.calls := [] |}.

(** 129 requests started one after the other, none of them completed. *)
Definition crowded : Light.Machine :=
  Light.exec (codec := ExampleCodec.codec) idle
    (repeat (Light.ReqWithResp GetLabel StateLabel None) 129).

(** One request outstanding when discovery reports a new address. *)
Definition moved : Light.Machine :=
  Light.exec (codec := ExampleCodec.codec) idle
    [Light.ReqWithResp GetLabel StateLabel None;
     Light.Renew AF_INET "192.168.1.99" 56700].

(** The [GetLabel] request the example session sends first. *)
Definition get_label_request : Message :=
  {| msg_type := GetLabel; target_addr := "d0:73:d5:00:00:01"; source_id := 7;
     seq_num := 1; payload := []; ack_requested := false; response_requested := true |}.

(** The example session with that request outstanding. *)
Definition asking : Light.Machine :=
  Light.step (codec := ExampleCodec.codec) idle (Light.ReqWithResp GetLabel StateLabel None).

(** A [StateLabel] reply to sequence number 1 from the example session's
    source id 7, as [ExampleCodec] packs it. *)
Definition state_label_reply : bytes := [Byte.x19; Byte.x01; Byte.x07].

(** The same reply addressed to another client, source id 8. *)
Definition foreign_reply : bytes := [Byte.x19; Byte.x01; Byte.x08].

(** An [Acknowledgement] of sequence number 1 for source id 7. *)
Definition ack_reply : bytes := [Byte.x2d; Byte.x01; Byte.x07].

(** A label of 40 characters. *)
Definition long_label : string := "0123456789012345678901234567890123456789".

(** A discovery protocol with the default intervals, just bound. *)
Definition bound_discovery : LifxDiscoveryProtocol.t * Loop :=
  LifxDiscoveryProtocol.connection_made
    (LifxDiscoveryProtocol.__init__ 9 None DISCOVERY_INTERVAL DISCOVERY_STEP)
    empty_loop 5.



End Examples.

(** ** Discovery: inbound datagrams and shutdown

    The rest of [LifxDiscoveryProtocol]: [datagram_received] and
    [_cleanup]. *)

Module Discovery.

(** The attributes of a [StateService] message that discovery reads; they
    are set by the codec. *)
Class ServiceFields := {
  service : Message -> Z;
  port : Message -> Z
}.

Definition set_transport (tr : option nat) (self : LifxDiscoveryProtocol.t)
  : LifxDiscoveryProtocol.t :=
  {| LifxDiscoveryProtocol._seen := LifxDiscoveryProtocol._seen self;
     LifxDiscoveryProtocol._transport := tr;
     LifxDiscoveryProtocol._source_id := LifxDiscoveryProtocol._source_id self;
     LifxDiscoveryProtocol._ipv6prefix := LifxDiscoveryProtocol._ipv6prefix self;
     LifxDiscoveryProtocol._discovery_interval :=
       LifxDiscoveryProtocol._discovery_interval self;
     LifxDiscoveryProtocol._discovery_step := LifxDiscoveryProtocol._discovery_step self;
     LifxDiscoveryProtocol._discovery_countdown :=
       LifxDiscoveryProtocol._discovery_countdown self |}.

(** [if self._ipv6prefix:] holds for a prefix that is neither [None] nor
    the empty string. *)
Definition configured_prefix (self : LifxDiscoveryProtocol.t) : option string :=
  match LifxDiscoveryProtocol._ipv6prefix self with
  | Some EmptyString => None
  | p => p
  end.

Definition debug (message : string) (light : Light.t) (lp : Loop) : Loop :=
  log {| level := DEBUG; text := message; subject := Light.__str__ light;
         exc_info := None |} lp.

Section WithCodec.
Context `{codec : Codec} `{fields : ServiceFields}.

(** The port a discovery event reports, [None] when the packet is no
    discovery event: a [StateService] names its port and counts for the
    UDP service only, a volunteered [LightState] implies the broadcast
    port. *)
Definition remote_port_of (response : Message) : option Z :=
  match msg_type response with
  | StateService => if service response =? 1 then Some (port response) else None
  | LightState => Some UDP_BROADCAST_PORT
  | _ => None
  end.

(** [datagram_received]; [source] is the random source id a new [Light]
    draws.  The [Light] objects live in [_seen]: what [renew] does to one
    is written back under its key.  The third component is the exception
    that leaves the method: the codec's, or the [ValueError] of a hardware
    address that [_mac_to_ipv6_link_local] cannot read. *)
Definition datagram_received (self : LifxDiscoveryProtocol.t) (lp : Loop)
    (data : bytes) (addr : string * Z) (source : Z)
  : LifxDiscoveryProtocol.t * Loop * option Exc :=
  match unpack_lifx_message data with
  | None => (self, lp, Some MalformedMessage)
  | Some response =>
      let ip_addr := fst addr in
      let mac_addr := target_addr response in
      if String.eqb mac_addr BROADCAST_MAC then (self, lp, None)
      else
        match remote_port_of response with
        | None => (self, lp, None)
        | Some remote_port =>
            let target :=
              match configured_prefix self with
              | Some prefix =>
                  match Ipv6._mac_to_ipv6_link_local mac_addr prefix with
                  | Some remote_ip => Some (AF_INET6, remote_ip)
                  | None => None
                  end
              | None => Some (AF_INET, ip_addr)
              end in
            match target with
            | None => (self, lp, Some (OtherException "ValueError"))
            | Some (family, remote_ip) =>
                let '(light, lp1) :=
                  match LifxDiscoveryProtocol._seen self !! mac_addr with
                  | Some light => (light, debug "Rediscovered light %s" light lp)
                  | None =>
                      let light := Light.__init__ mac_addr remote_ip remote_port source in
                      (light, debug "Discovered light %s" light lp)
                  end in
                let '(light', lp2) := Light.renew light lp1 family remote_ip remote_port in
                (LifxDiscoveryProtocol.set_seen
                   (<[mac_addr := light']> (LifxDiscoveryProtocol._seen self)) self,
                 lp2, None)
            end
        end
  end.

End WithCodec.

(** The loop reports the connection of the endpoint of the light stored
    under [mac]: [Light.connection_made] on that object. *)
Definition light_connected (self : LifxDiscoveryProtocol.t) (mac : string) (tr : nat)
  : LifxDiscoveryProtocol.t :=
  LifxDiscoveryProtocol.set_seen
    (alter (λ light, Light.connection_made light tr) mac
       (LifxDiscoveryProtocol._seen self)) self.

(** [light.cleanup()] for every light of the registry, in key order. *)
Definition cleanup_lights (lights : list (string * Light.t)) (lp : Loop) : Loop :=
  fold_left (λ l kv, snd (Light.cleanup (snd kv) l)) lights lp.

Definition _cleanup (self : LifxDiscoveryProtocol.t) (lp : Loop)
  : LifxDiscoveryProtocol.t * Loop :=
  let '(self1, lp1) :=
    match LifxDiscoveryProtocol._transport self with
    | Some tr => (set_transport None self, transport_close tr lp)
    | None => (self, lp)
    end in
  let lp2 := cleanup_lights (map_to_list (LifxDiscoveryProtocol._seen self1)) lp1 in
  (LifxDiscoveryProtocol.set_seen ∅ self1, lp2).

End Discovery.

(** ** Cached attributes: [get_label] and [get_group] *)

Module Attributes.

(** What the getters read from a reply: its [label] attribute, set by the
    codec, and [bytes.decode()], which answers [None] when it raises
    [UnicodeDecodeError]. *)
Class LabelFields := {
  label : Message -> bytes;
  decode : bytes -> option string
}.

(** [s.replace("\x00", "")]. *)
Fixpoint remove_nul (s : string) : string :=
  match s with
  | EmptyString => EmptyString
  | String c r => if Ascii.eqb c Ascii.zero then remove_nul r else String c (remove_nul r)
  end.


(** How an awaited getter stands: it returned a value, it raised, or it is
    still suspended in [_try_sending]. *)
Inductive Answer :=
  | Got (value : string)
  | Failed (e : Exc)
  | Pending (f : Light.Frame).

Section WithCodec.
Context `{codec : Codec} `{fields : LabelFields}.

(** The part the two getters share: the request, awaited against [ins],
    and the attribute read from the reply.  A call that returns no reply
    object fails on the attribute access. *)
Definition fetch (self : Light.t) (lp : Loop) (mt rt : MsgType) (ins : list Light.Inbound)
  : Light.t * Loop * Answer :=
  match Light.run (Light._req_with_resp self lp mt rt None None None) ins with
  | (self1, lp1, Light.Done (Light.Returned (Some resp))) =>
      match decode (label resp) with
      | Some s => (self1, lp1, Got (remove_nul s))
      | None => (self1, lp1, Failed (OtherException "UnicodeDecodeError"))
      end
  | (self1, lp1, Light.Done (Light.Returned None)) => (self1, lp1, Failed AttributeError)
  | (self1, lp1, Light.Done (Light.Raised e)) => (self1, lp1, Failed e)
  | (self1, lp1, Light.Suspended f) => (self1, lp1, Pending f)
  end.

(** [get_label], awaited against the inbound traffic [ins]. *)
Definition get_label (self : Light.t) (lp : Loop) (ins : list Light.Inbound)
  : Light.t * Loop * Answer :=
  match Light._label self with
  | Some l => (self, lp, Got l)
  | None =>
      match fetch self lp GetLabel StateLabel ins with
      | (self1, lp1, Got l) => (Light.set_label_attr (Some l) self1, lp1, Got l)
      | r => r
      end
  end.


End WithCodec.

End Attributes.

(** ** Invariants of the session machine *)

Module Invariants.

(** Every suspended call has made at least one attempt and no more than
    it is allowed. *)
Definition attempts_in_bounds (m : Light.Machine) : Prop :=
  Forall (λ st, match st with
                | Light.Suspended f => 1 <= Light.attempts f <= Light.max_attempts f
                | Light.Done _ => True
                end) (Light.calls m).

(** A new session, as discovery constructs it, before any step. *)
Definition new_machine (mac ip_addr : string) (port source : Z) (lp : Loop) : Light.Machine :=
  {| Light.light := Light.__init__ mac ip_addr port source; Light.loop := lp;
     Light.calls := [] |}.

End Invariants.

(** ** Worked cases for discovery and the cached attributes *)

Module Cases.

(** What a message of [ExampleCodec] carries besides its three octets:
    every [StateService] announces the UDP service on port 56700. *)
Definition service_fields : Discovery.ServiceFields :=
  {| Discovery.service := λ _, 1; Discovery.port := λ _, 56700 |}.

(** "Kitchen", padded with NUL octets as a label is on the wire. *)
Definition kitchen_bytes : bytes :=
  [Byte.x4b; Byte.x69; Byte.x74; Byte.x63; Byte.x68; Byte.x65; Byte.x6e;
   Byte.x00; Byte.x00; Byte.x00].

(** [bytes.decode()] on ASCII octets, which is all the cases use; any
    other octet is taken as undecodable. *)
Definition ascii_decode (bs : bytes) : option string :=
  if forallb (λ b, (Byte.to_N b <? 128)%N) bs then Some (string_of_list_byte bs)
  else None.

(** Every reply of the example device names "Kitchen". *)
Definition label_fields : Attributes.LabelFields :=
  {| Attributes.label := λ _, kitchen_bytes; Attributes.decode := ascii_decode |}.

(** A [StateService], a [LightState] and a [GetLabel] as [ExampleCodec]
    packs them, and the sender of the datagrams. *)
Definition state_service : bytes := [Byte.x03; Byte.x00; Byte.x00].
Definition light_state : bytes := [Byte.x6b; Byte.x00; Byte.x00].
Definition get_label_packet : bytes := [Byte.x17; Byte.x00; Byte.x00].
Definition sender : string * Z := ("192.168.1.20", 56700).


(** The call of [Examples.asking], suspended after its first attempt. *)
Definition asking_frame : Light.Frame :=
  {| Light.msg := Examples.get_label_request; Light.expected := StateLabel;
     Light.timeout_secs := DEFAULT_TIMEOUT; Light.max_attempts := DEFAULT_ATTEMPTS;
     Light.attempts := 1; Light.waiting_on := 2%nat |}.

(** The same call after its last attempt. *)
Definition last_attempt_frame : Light.Frame :=
  {| Light.msg := Examples.get_label_request; Light.expected := StateLabel;
     Light.timeout_secs := DEFAULT_TIMEOUT; Light.max_attempts := DEFAULT_ATTEMPTS;
     Light.attempts := DEFAULT_ATTEMPTS; Light.waiting_on := 2%nat |}.

(** The example session with a [GetLabel] and a [GetGroup] outstanding,
    and the frame of the second call. *)
Definition two_calls : Light.Machine :=
  Light.exec (codec := ExampleCodec.codec) Examples.idle
    [Light.ReqWithResp GetLabel StateLabel None;
     Light.ReqWithResp GetGroup StateGroup None].

Definition group_frame : Light.Frame :=
  {| Light.msg :=
       {| msg_type := GetGroup; target_addr := "d0:73:d5:00:00:01"; source_id := 7;
          seq_num := 2; payload := []; ack_requested := false;
          response_requested := true |};
     Light.expected := StateGroup;
     Light.timeout_secs := DEFAULT_TIMEOUT; Light.max_attempts := DEFAULT_ATTEMPTS;
     Light.attempts := 1; Light.waiting_on := 3%nat |}.

(** The example session after the reply to its first request. *)
Definition answered : Light.Machine :=
  Light.step (codec := ExampleCodec.codec) Examples.asking
    (Light.Receive Examples.state_label_reply).

(** A session that was never bound. *)
Definition unbound_light : Light.t :=
  Light.__init__ "D0:73:D5:00:00:01" "192.168.1.20" 56700 7.

(** The example protocol after the [StateService] of the example device,
    and after the endpoint of that device has connected. *)
Definition discovered : LifxDiscoveryProtocol.t * Loop :=
  fst (Discovery.datagram_received (codec := ExampleCodec.codec)
         (fields := service_fields)
         (fst Examples.bound_discovery) (snd Examples.bound_discovery)
         state_service sender 7).

Definition connected : LifxDiscoveryProtocol.t :=
  Discovery.light_connected (fst discovered) "d0:73:d5:00:00:01" 6.

(** The light the registry of [connected] holds. *)
Definition registered : Light.t :=
  Light.connection_made
    (fst (Light.renew (Light.__init__ "d0:73:d5:00:00:01" "192.168.1.20" 56700 7)
            (Discovery.debug "Discovered light %s"
               (Light.__init__ "d0:73:d5:00:00:01" "192.168.1.20" 56700 7)
               (snd Examples.bound_discovery))
            AF_INET "192.168.1.20" 56700)) 6.

(** The same with the IPv6 prefix [fe80:] configured: the protocol just
    bound, after the [StateService] of the example device, after the
    endpoint of that device has connected, and the light its registry
    then holds, at the address derived from the hardware address. *)
Definition bound_discovery6 : LifxDiscoveryProtocol.t * Loop :=
  LifxDiscoveryProtocol.connection_made
    (LifxDiscoveryProtocol.__init__ 9 (Some "fe80:") DISCOVERY_INTERVAL DISCOVERY_STEP)
    empty_loop 5.

Definition discovered6 : LifxDiscoveryProtocol.t * Loop :=
  fst (Discovery.datagram_received (codec := ExampleCodec.codec)
         (fields := service_fields)
         (fst bound_discovery6) (snd bound_discovery6) state_service sender 7).

Definition connected6 : LifxDiscoveryProtocol.t :=
  Discovery.light_connected (fst discovered6) "d0:73:d5:00:00:01" 6.

Definition registered6 : Light.t :=
  Light.connection_made
    (fst (Light.renew
            (Light.__init__ "d0:73:d5:00:00:01" "fe80::d273:d5ff:fe00:0001" 56700 7)
            (Discovery.debug "Discovered light %s"
               (Light.__init__ "d0:73:d5:00:00:01" "fe80::d273:d5ff:fe00:0001" 56700 7)
               (snd bound_discovery6))
            AF_INET6 "fe80::d273:d5ff:fe00:0001" 56700)) 6.

(** A bound protocol whose step is zero. *)
Definition stepless : LifxDiscoveryProtocol.t * Loop :=
  LifxDiscoveryProtocol.connection_made
    (LifxDiscoveryProtocol.__init__ 9 None DISCOVERY_INTERVAL 0) empty_loop 5.

End Cases.

(** * Properties *)

(** ** Device collection *)

Lemma get_by_label_is_get_by_group (self : Lights.t) (name : string) :
  Lights.get_by_label self name = Lights.get_by_group self name.
Proof. reflexivity. Qed.

(** C9, evaluated on the code: in a collection holding the light labelled
    "Kitchen" (group "Downstairs") and the light labelled "Porch" (group
    "Kitchen"), [get_by_label "Kitchen"] returns the Porch light, the one
    whose group is "Kitchen", while the members whose cached label equals
    "Kitchen" are the Kitchen light alone. *)
Theorem get_by_label_selects_by_group :
  Lights.get_by_label Examples.house "Kitchen"
    = {| Lights._light_list := [Examples.porch] |}
  ∧ Lights.filter_by_label_spec Examples.house "Kitchen"
    = {| Lights._light_list := [Examples.kitchen] |}
  ∧ Lights.get_by_label Examples.house "Kitchen"
    ≠ Lights.filter_by_label_spec Examples.house "Kitchen".
Proof.
  assert (Hcode : Lights.get_by_label Examples.house "Kitchen"
                  = {| Lights._light_list := [Examples.porch] |}) by reflexivity.
  assert (Hspec : Lights.filter_by_label_spec Examples.house "Kitchen"
                  = {| Lights._light_list := [Examples.kitchen] |}) by reflexivity.
  split; [exact Hcode | split; [exact Hspec |]].
  rewrite Hcode, Hspec. intros Heq.
  assert (Hmac : Light._mac_addr Examples.porch = Light._mac_addr Examples.kitchen)
    by congruence.
  vm_compute in Hmac. discriminate Hmac.
Qed.

Lemma wrapper_finishes (fun_ : Light.t → Lights.Completion) (light : Light.t) :
  snd (Lights.wrapper fun_ light) = Lights.Finished.
Proof.
  unfold Lights.wrapper. destruct (fun_ light) as [|e]; [reflexivity|].
  destruct e; reflexivity.
Qed.

Lemma gather_all_finished (rs : list Lights.Completion) :
  Forall (λ r, r = Lights.Finished) rs → Lights.gather rs = Lights.Finished.
Proof.
  induction 1 as [|r rs Hr _ IH]; simpl; [reflexivity|].
  rewrite Hr. exact IH.
Qed.

Lemma wrapper_record (fun_ : Light.t → Lights.Completion) (light : Light.t) (e : Exc) :
  fun_ light = Lights.Failed e →
  ∃ r, fst (Lights.wrapper fun_ light) = [r]
       ∧ subject r = Light.__str__ light
       ∧ (e = LightOffline → level r = INFO ∧ exc_info r = None)
       ∧ (e ≠ LightOffline → level r = ERROR ∧ exc_info r = Some e).
Proof.
  intros He. unfold Lights.wrapper. rewrite He.
  destruct e; eexists; (split; [reflexivity|]); simpl;
    (split; [reflexivity|]); split; intros; try congruence; auto.
Qed.

(** C8: the fan-out calls the operation on every member, in order; the
    aggregate call finishes without an exception whatever the members do;
    a member that completes leaves no log record, a member failing with
    [LightOffline] leaves one [INFO] record, and a member failing with
    any other exception leaves one [ERROR] record carrying it. *)
Theorem do_for_every_light_isolates_failures :
  ∀ (self : Lights.t) (fun_ : Light.t → Lights.Completion),
    Lights.completion (Lights.do_for_every_light self fun_) = Lights.Finished
    ∧ Lights.invoked (Lights.do_for_every_light self fun_) = Lights._light_list self
    ∧ (∀ light e, light ∈ Lights._light_list self → fun_ light = Lights.Failed e →
         ∃ r, r ∈ Lights.records (Lights.do_for_every_light self fun_)
              ∧ subject r = Light.__str__ light
              ∧ (e = LightOffline → level r = INFO ∧ exc_info r = None)
              ∧ (e ≠ LightOffline → level r = ERROR ∧ exc_info r = Some e))
    ∧ length (Lights.records (Lights.do_for_every_light self fun_))
      = length (filter (λ light, fun_ light ≠ Lights.Finished) (Lights._light_list self)).
Proof.
  intros [lights] fun_. unfold Lights.do_for_every_light. simpl.
  split; [|split; [|split]].
  - apply gather_all_finished. induction lights as [|l ls IH]; simpl.
    + constructor.
    + constructor; [apply wrapper_finishes | exact IH].
  - rewrite map_map. simpl. apply map_id.
  - intros light e Hin He.
    destruct (wrapper_record fun_ light e He) as (r & Hw & Hrest).
    exists r. split; [|exact Hrest].
    rewrite map_map. simpl. apply list_elem_of_In, in_concat.
    exists [r]. split; [|now left].
    apply in_map_iff. exists light. split; [exact Hw|]. now apply list_elem_of_In.
  - rewrite map_map. simpl. induction lights as [|l ls IH]; [reflexivity|].
    simpl. rewrite length_app, IH. rewrite filter_cons.
    unfold Lights.wrapper at 1.
    destruct (fun_ l) as [|e] eqn:Hl.
    + destruct (decide _) as [Hd|Hd]; [now destruct Hd|]. reflexivity.
    + destruct (decide _) as [Hd|Hd]; [|now destruct Hd]. destruct e; reflexivity.
Qed.

(** Three devices, the second one offline: the aggregate call returns and
    the offline member has its [INFO] record. *)
Lemma do_for_every_light_isolates_failures_witness :
  Examples.porch ∈ [Examples.kitchen; Examples.porch; Examples.kitchen]
  ∧ Lights.completion
      (Lights.do_for_every_light
         {| Lights._light_list := [Examples.kitchen; Examples.porch; Examples.kitchen] |}
         (λ light, if String.eqb (Light._mac_addr light) "d0:73:d5:00:00:02"
                   then Lights.Failed LightOffline else Lights.Finished))
    = Lights.Finished
  ∧ ∃ r, r ∈ Lights.records
               (Lights.do_for_every_light
                  {| Lights._light_list :=
                       [Examples.kitchen; Examples.porch; Examples.kitchen] |}
                  (λ light, if String.eqb (Light._mac_addr light) "d0:73:d5:00:00:02"
                            then Lights.Failed LightOffline else Lights.Finished))
         ∧ subject r = Light.__str__ Examples.porch
         ∧ level r = INFO ∧ exc_info r = None.
Proof.
  assert (Hin : Examples.porch ∈ [Examples.kitchen; Examples.porch; Examples.kitchen])
    by (apply list_elem_of_In; simpl; auto).
  split; [exact Hin|].
  destruct (do_for_every_light_isolates_failures
              {| Lights._light_list := [Examples.kitchen; Examples.porch; Examples.kitchen] |}
              (λ light, if String.eqb (Light._mac_addr light) "d0:73:d5:00:00:02"
                        then Lights.Failed LightOffline else Lights.Finished))
    as (Hdone & _ & Hrecords & _).
  split; [exact Hdone|].
  destruct (Hrecords Examples.porch LightOffline Hin eq_refl)
    as (r & Hr & Hsubject & Hoffline & _).
  exists r. destruct (Hoffline eq_refl) as [Hlevel Hexc]. auto.
Defined.

(** Three devices, the second one offline: all three receive the call and
    the aggregate call returns. *)
Example fan_out_three_devices :
  let fun_ := λ light,
    if String.eqb (Light._mac_addr light) "d0:73:d5:00:00:02"
    then Lights.Failed LightOffline else Lights.Finished in
  let r := Lights.do_for_every_light
             {| Lights._light_list := [Examples.kitchen; Examples.porch; Examples.kitchen] |}
             fun_ in
  Lights.invoked r = [Examples.kitchen; Examples.porch; Examples.kitchen]
  ∧ Lights.completion r = Lights.Finished
  ∧ map level (Lights.records r) = [INFO].
Proof. repeat split. Qed.


(** ** Address translation *)

Section Ipv6Facts.
Import Ipv6.

Lemma in_all_octets (b : Z) : 0 <= b < 256 → In b all_octets.
Proof.
  intros Hb. unfold all_octets. apply in_map_iff. exists (Z.to_nat b).
  split; [lia|]. apply in_seq. lia.
Qed.

Lemma two_digits_all (b : Z) : 0 <= b < 256 → two_digits b = true.
Proof.
  intros Hb.
  assert (Hall : forallb two_digits all_octets = true) by (vm_compute; reflexivity).
  rewrite forallb_forall in Hall. apply Hall, in_all_octets, Hb.
Qed.

Lemma four_digits_all (hi lo : Z) :
  0 <= hi < 256 → 0 <= lo < 256 → four_digits hi lo = true.
Proof.
  intros Hhi Hlo.
  assert (Hall : forallb (λ h, forallb (four_digits h) all_octets) all_octets = true)
    by (vm_compute; reflexivity).
  rewrite forallb_forall in Hall. specialize (Hall hi (in_all_octets hi Hhi)).
  rewrite forallb_forall in Hall. apply Hall, in_all_octets, Hlo.
Qed.

Lemma append_assoc (s1 s2 s3 : string) :
  (s1 +:+ s2) +:+ s3 = s1 +:+ (s2 +:+ s3).
Proof.
  induction s1 as [|c s1 IH]; [reflexivity|].
  change (String c ((s1 +:+ s2) +:+ s3) = String c (s1 +:+ (s2 +:+ s3))).
  now rewrite IH.
Qed.

Lemma translate_app (s1 s2 : string) :
  translate (s1 +:+ s2) = translate s1 +:+ translate s2.
Proof.
  induction s1 as [|c s1 IH]; simpl; [reflexivity|].
  destruct (is_delimiter c); simpl; now rewrite IH.
Qed.

Lemma int16_acc_app (s1 s2 : string) :
  ∀ acc, int16_acc acc (s1 +:+ s2)
         = match int16_acc acc s1 with
           | Some a => int16_acc a s2
           | None => None
           end.
Proof.
  induction s1 as [|c s1 IH]; intros acc; simpl; [reflexivity|].
  destruct (hex_digit_value c); [apply IH | reflexivity].
Qed.

Lemma octet_digits (b : Z) :
  0 <= b < 256 →
  translate (format_x 2 b) = format_x 2 b
  ∧ (∀ acc, int16_acc acc (format_x 2 b) = Some (256 * acc + b))
  ∧ format_x 2 b ≠ "".
Proof.
  intros Hb. pose proof (two_digits_all b Hb) as H. unfold two_digits in H.
  destruct (format_x 2 b) as [|c1 [|c2 [|c3 s]]]; try discriminate.
  destruct (hex_digit_value c1) as [d1|] eqn:H1; [|discriminate].
  destruct (hex_digit_value c2) as [d2|] eqn:H2; [|discriminate].
  apply andb_true_iff in H as [H Hc2]. apply andb_true_iff in H as [Hval Hc1].
  apply negb_true_iff in Hc1, Hc2. apply Z.eqb_eq in Hval.
  split; [|split].
  - simpl. now rewrite Hc1, Hc2.
  - intros acc. simpl. rewrite H1, H2. f_equal. lia.
  - discriminate.
Qed.

Lemma int16_acc_octet (b : Z) (s : string) (acc : Z) :
  0 <= b < 256 →
  int16_acc acc (format_x 2 b +:+ s) = int16_acc (256 * acc + b) s.
Proof.
  intros Hb. rewrite int16_acc_app.
  now rewrite (proj1 (proj2 (octet_digits b Hb))).
Qed.

Lemma translate_colon_hex (b0 b1 b2 b3 b4 b5 : Z) :
  0 <= b0 < 256 → 0 <= b1 < 256 → 0 <= b2 < 256 →
  0 <= b3 < 256 → 0 <= b4 < 256 → 0 <= b5 < 256 →
  translate (colon_hex b0 b1 b2 b3 b4 b5)
  = format_x 2 b0 +:+ format_x 2 b1 +:+ format_x 2 b2
      +:+ format_x 2 b3 +:+ format_x 2 b4 +:+ format_x 2 b5.
Proof.
  intros H0 H1 H2 H3 H4 H5. unfold colon_hex.
  rewrite !translate_app.
  rewrite (proj1 (octet_digits b0 H0)), (proj1 (octet_digits b1 H1)),
    (proj1 (octet_digits b2 H2)), (proj1 (octet_digits b3 H3)),
    (proj1 (octet_digits b4 H4)), (proj1 (octet_digits b5 H5)).
  reflexivity.
Qed.

Lemma int16_colon_hex (b0 b1 b2 b3 b4 b5 : Z) :
  0 <= b0 < 256 → 0 <= b1 < 256 → 0 <= b2 < 256 →
  0 <= b3 < 256 → 0 <= b4 < 256 → 0 <= b5 < 256 →
  int16 (translate (colon_hex b0 b1 b2 b3 b4 b5))
  = Some ((b0 * 256 + b1) * 2 ^ 32 + (b2 * 2 ^ 24 + b3 * 2 ^ 16 + (b4 * 256 + b5))).
Proof.
  intros H0 H1 H2 H3 H4 H5. rewrite translate_colon_hex by assumption.
  destruct (octet_digits b0 H0) as (_ & Hd0 & Hne).
  unfold int16.
  destruct (format_x 2 b0 +:+ _) as [|c s] eqn:Hs.
  { destruct (format_x 2 b0); [congruence | discriminate Hs]. }
  rewrite <- Hs. rewrite !int16_acc_octet by assumption.
  rewrite (proj1 (proj2 (octet_digits b5 H5))).
  f_equal. lia.
Qed.

Lemma fields_of_octets (b0 b1 b2 b3 b4 b5 : Z) :
  0 <= b0 < 256 → 0 <= b1 < 256 → 0 <= b2 < 256 →
  0 <= b3 < 256 → 0 <= b4 < 256 → 0 <= b5 < 256 →
  let v := (b0 * 256 + b1) * 2 ^ 32 + (b2 * 2 ^ 24 + b3 * 2 ^ 16 + (b4 * 256 + b5)) in
  high2_of v = Z.lxor (b0 * 256 + b1) 0x0200
  ∧ high1_of v = b2 ∧ low1_of v = b3 ∧ low2_of v = b4 * 256 + b5.
Proof.
  intros H0 H1 H2 H3 H4 H5 v. unfold high2_of, high1_of, low1_of, low2_of.
  change 0xffff with (Z.ones 16). change 0xff with (Z.ones 8).
  rewrite !Z.land_ones, !Z.shiftr_div_pow2 by lia.
  assert (E32 : v / 2 ^ 32 = b0 * 256 + b1).
  { symmetry. apply (Z.div_unique v (2 ^ 32) _ (b2 * 2 ^ 24 + b3 * 2 ^ 16 + (b4 * 256 + b5)));
      [left|]; subst v; lia. }
  assert (E24 : v / 2 ^ 24 = (b0 * 256 + b1) * 256 + b2).
  { symmetry. apply (Z.div_unique v (2 ^ 24) _ (b3 * 2 ^ 16 + (b4 * 256 + b5)));
      [left|]; subst v; lia. }
  assert (E16 : v / 2 ^ 16 = ((b0 * 256 + b1) * 256 + b2) * 256 + b3).
  { symmetry. apply (Z.div_unique v (2 ^ 16) _ (b4 * 256 + b5));
      [left|]; subst v; lia. }
  rewrite E32, E24, E16. repeat split.
  - f_equal. apply Z.mod_small. lia.
  - symmetry. apply (Z.mod_unique _ (2 ^ 8) (b0 * 256 + b1) b2); [left|]; lia.
  - symmetry. apply (Z.mod_unique _ (2 ^ 8) ((b0 * 256 + b1) * 256 + b2) b3); [left|]; lia.
  - symmetry.
    apply (Z.mod_unique v (2 ^ 16) (((b0 * 256 + b1) * 256 + b2) * 256 + b3) (b4 * 256 + b5));
      [left|]; subst v; lia.
Qed.

Lemma high2_bits (v i : Z) :
  0 <= i < 16 →
  Z.testbit (high2_of v) i = xorb (Z.testbit v (i + 32)) (i =? 9).
Proof.
  intros Hi. unfold high2_of. change 0xffff with (Z.ones 16).
  rewrite Z.lxor_spec, Z.land_spec, Z.shiftr_spec, Z.ones_spec_low by lia.
  rewrite andb_true_r. f_equal.
  assert (Hcases : i = 0 ∨ i = 1 ∨ i = 2 ∨ i = 3 ∨ i = 4 ∨ i = 5 ∨ i = 6 ∨ i = 7
                   ∨ i = 8 ∨ i = 9 ∨ i = 10 ∨ i = 11 ∨ i = 12 ∨ i = 13 ∨ i = 14
                   ∨ i = 15) by lia.
  repeat (destruct Hcases as [->|Hcases]; [reflexivity|]). subst i. reflexivity.
Qed.

(** C4, as the code has it: for the hardware address of octets
    [b0 .. b5] in colon-hex form the result is
    [prefix:HHHH:HHff:feHH:HHHH] whose groups are the upper 16 bits with
    the universal/local bit flipped (octet [b0] XOR [0x02], then [b1]),
    [b2], [b3], and the lowest 16 bits ([b4], [b5]); bit [i] of the first
    group is bit [i + 32] of the address, inverted for [i = 9] (bit 41).
    For [01:23:45:67:89:ab] with prefix [fd00:1234] the result is
    [fd00:1234:0323:45ff:fe67:89ab]: the first group is [0x0323], the first
    octet [0x01] XOR [0x02] being [0x03]. *)
Theorem mac_to_ipv6_link_local_flips_universal_local_bit :
  ∀ (prefix : string) (b0 b1 b2 b3 b4 b5 : Z),
    0 <= b0 < 256 → 0 <= b1 < 256 → 0 <= b2 < 256 →
    0 <= b3 < 256 → 0 <= b4 < 256 → 0 <= b5 < 256 →
    _mac_to_ipv6_link_local (colon_hex b0 b1 b2 b3 b4 b5) prefix
    = Some (prefix +:+ ":" +:+ format_x 2 (Z.lxor b0 2) +:+ format_x 2 b1
              +:+ ":" +:+ format_x 2 b2 +:+ "ff:fe" +:+ format_x 2 b3
              +:+ ":" +:+ format_x 2 b4 +:+ format_x 2 b5)
    ∧ (∀ v i, 0 <= i < 16 →
         Z.testbit (high2_of v) i = xorb (Z.testbit v (i + 32)) (i =? 9))
    ∧ _mac_to_ipv6_link_local "01:23:45:67:89:ab" "fd00:1234"
      = Some "fd00:1234:0323:45ff:fe67:89ab".
Proof.
  intros prefix b0 b1 b2 b3 b4 b5 H0 H1 H2 H3 H4 H5.
  split; [|split; [exact high2_bits | reflexivity]].
  unfold _mac_to_ipv6_link_local.
  rewrite int16_colon_hex by assumption.
  destruct (fields_of_octets b0 b1 b2 b3 b4 b5 H0 H1 H2 H3 H4 H5) as (E2 & E1 & F1 & F2).
  cbv zeta in E2, E1, F1, F2 |- *. rewrite E2, E1, F1, F2.
  pose proof (four_digits_all b0 b1 H0 H1) as Hhi.
  pose proof (four_digits_all b4 b5 H4 H5) as Hlo.
  unfold four_digits in Hhi, Hlo.
  apply andb_true_iff in Hhi as [Hhi Hr2]. apply andb_true_iff in Hhi as [Hhi Hr1].
  apply andb_true_iff in Hhi as [_ Hxor]. apply Z.eqb_eq in Hxor.
  apply Z.leb_le in Hr1. apply Z.ltb_lt in Hr2.
  pose proof (four_digits_all (Z.lxor b0 2) b1 (conj Hr1 Hr2) H1) as Hhi'.
  unfold four_digits in Hhi'.
  apply andb_true_iff in Hhi' as [Hhi' _]. apply andb_true_iff in Hhi' as [Hhi' _].
  apply andb_true_iff in Hhi' as [Hfmt _]. apply String.eqb_eq in Hfmt.
  apply andb_true_iff in Hlo as [Hlo _]. apply andb_true_iff in Hlo as [Hlo _].
  apply andb_true_iff in Hlo as [Hfmt' _]. apply String.eqb_eq in Hfmt'.
  rewrite Hxor, Hfmt, Hfmt'. f_equal.
  rewrite !append_assoc. reflexivity.
Qed.

End Ipv6Facts.

Lemma mac_to_ipv6_link_local_flips_universal_local_bit_witness :
  Ipv6._mac_to_ipv6_link_local (Ipv6.colon_hex 0xd0 0x73 0xd5 0x00 0x12 0x34) "fe80:"
  = Some "fe80::d273:d5ff:fe00:1234".
Proof.
  apply (mac_to_ipv6_link_local_flips_universal_local_bit
           "fe80:" 0xd0 0x73 0xd5 0x00 0x12 0x34); lia.
Defined.


(** ** Discovery *)

Section Discovery.
Context `{codec : Codec}.

Lemma sent_fold_log {A} (f : A → LogRecord) (xs : list A) :
  ∀ lp, sent (fold_left (λ l x, log (f x) l) xs lp) = sent lp.
Proof.
  induction xs as [|x xs IH]; intros lp; simpl; [reflexivity|].
  now rewrite IH.
Qed.

Lemma discover_quiet (j : nat) :
  ∀ self lp tr,
    LifxDiscoveryProtocol._transport self = Some tr →
    0 < LifxDiscoveryProtocol._discovery_step self →
    LifxDiscoveryProtocol._discovery_countdown self
      = Z.of_nat j * LifxDiscoveryProtocol._discovery_step self →
    LifxDiscoveryProtocol.wakes j self lp = repeat 0%nat j
    ∧ LifxDiscoveryProtocol._discovery_countdown
        (fst (LifxDiscoveryProtocol.run_wakes j self lp)) = 0
    ∧ LifxDiscoveryProtocol._transport
        (fst (LifxDiscoveryProtocol.run_wakes j self lp)) = Some tr
    ∧ LifxDiscoveryProtocol._discovery_step
        (fst (LifxDiscoveryProtocol.run_wakes j self lp))
      = LifxDiscoveryProtocol._discovery_step self
    ∧ LifxDiscoveryProtocol._discovery_interval
        (fst (LifxDiscoveryProtocol.run_wakes j self lp))
      = LifxDiscoveryProtocol._discovery_interval self.
Proof.
  induction j as [|j IH]; intros self lp tr Htr Hstep Hcd.
  - simpl in *. repeat split; auto.
  - cbn [LifxDiscoveryProtocol.wakes LifxDiscoveryProtocol.run_wakes].
    unfold LifxDiscoveryProtocol._discover. rewrite Htr.
    cbn [LifxDiscoveryProtocol.set_seen LifxDiscoveryProtocol._discovery_countdown
         LifxDiscoveryProtocol._discovery_step LifxDiscoveryProtocol._discovery_interval].
    destruct (Z.leb_spec (LifxDiscoveryProtocol._discovery_countdown self) 0) as [Hle|Hgt];
      [nia|].
    match goal with
    | |- context [LifxDiscoveryProtocol.wakes j ?s ?l] =>
        destruct (IH s l tr) as (Hw & Hc & Ht & Hs & Hi)
    end; [exact Htr | exact Hstep | simpl; lia |].
    rewrite Hw, Hc, Ht, Hs, Hi. simpl.
    repeat split; auto. f_equal.
    rewrite (sent_fold_log (λ kv, {| level := INFO; text := "Dropping light %s";
                                     subject := Light.__str__ (snd kv);
                                     exc_info := None |})).
    lia.
Qed.

(** The wake period in general: when the interval is [k] steps, a wake
    that probes is followed by [k] wakes that send nothing, and the next
    probe comes [k + 1] wakes, that is interval + step seconds, after it. *)
Lemma discover_period (k : nat) :
  ∀ self lp tr,
    LifxDiscoveryProtocol._transport self = Some tr →
    0 < LifxDiscoveryProtocol._discovery_step self →
    LifxDiscoveryProtocol._discovery_interval self
      = Z.of_nat k * LifxDiscoveryProtocol._discovery_step self →
    LifxDiscoveryProtocol._discovery_countdown self <= 0 →
    LifxDiscoveryProtocol.wakes (S k) self lp = 1%nat :: repeat 0%nat k
    ∧ LifxDiscoveryProtocol._discovery_countdown
        (fst (LifxDiscoveryProtocol.run_wakes (S k) self lp)) = 0.
Proof.
  intros self lp tr Htr Hstep Hint Hcd.
  cbn [LifxDiscoveryProtocol.wakes LifxDiscoveryProtocol.run_wakes].
  unfold LifxDiscoveryProtocol._discover. rewrite Htr.
  cbn [LifxDiscoveryProtocol.set_seen LifxDiscoveryProtocol._discovery_countdown
       LifxDiscoveryProtocol._discovery_step LifxDiscoveryProtocol._discovery_interval].
  destruct (Z.leb_spec (LifxDiscoveryProtocol._discovery_countdown self) 0) as [Hle|Hgt];
    [|lia].
  match goal with
  | |- context [LifxDiscoveryProtocol.wakes k ?s ?l] =>
      destruct (discover_quiet k s l tr) as (Hw & Hc & _)
  end; [exact Htr | exact Hstep | exact Hint |].
  rewrite Hw, Hc. split; [|reflexivity]. f_equal.
  simpl. rewrite length_app. simpl.
  rewrite (sent_fold_log (λ kv, {| level := INFO; text := "Dropping light %s";
                                   subject := Light.__str__ (snd kv);
                                   exc_info := None |})).
  lia.
Qed.

(** C7, evaluated on the code: with the default interval of 180 s and step
    of 5 s, the wakes of the first 75 that broadcast a probe are wakes 0,
    37 and 74: one probe every 37 wakes, 185 s apart, not every
    180 / 5 = 36 wakes. *)
Theorem discover_default_probes_every_37_wakes :
  LifxDiscoveryProtocol.probe_wakes 75
    (fst Examples.bound_discovery) (snd Examples.bound_discovery)
  = [0; 37; 74]%nat.
Proof. vm_compute. reflexivity. Qed.

End Discovery.


(** ** Device session: rebinding *)

Lemma cleanup_spec (self : Light.t) (lp : Loop) :
  Light.cleanup self lp
  = (Light.set_task None (Light.set_transport None self),
     {| next_id := next_id lp; events := events lp; created := created lp;
        cancelled := cancelled lp ++ option_list (Light._task self);
        closed := closed lp ++ option_list (Light._transport self);
        sent := sent lp; waits := waits lp; scheduled := scheduled lp;
        logged := logged lp |}).
Proof.
  unfold Light.cleanup. destruct self as [mac ip port rc tmo tr tk sq tbl src lb lc gr].
  destruct lp as [nid evs cr ca cl se wa sc lg].
  destruct tr as [tr|], tk as [tk|]; cbn; rewrite ?app_nil_r; reflexivity.
Qed.

(** C6: on a live session (transport and endpoint task present), [renew]
    with the address the session already has returns the session as it
    was; in the loop it adds the metadata-refresh task and nothing else:
    no transport closed, no task cancelled, no event touched, nothing
    sent. *)
Theorem renew_same_address_keeps_session :
  ∀ (self : Light.t) (lp : Loop) (family : Family),
    Light.is_alive self = true →
    Light.renew self lp family (Light._ip_addr self) (Light._port self)
      = (self, Light._register self lp)
    ∧ closed (Light._register self lp) = closed lp
    ∧ cancelled (Light._register self lp) = cancelled lp
    ∧ events (Light._register self lp) = events lp
    ∧ sent (Light._register self lp) = sent lp
    ∧ created (Light._register self lp)
      = created lp ++ [(next_id lp, AsyncRegister (Light._mac_addr self))].
Proof.
  intros self lp family Halive. unfold Light.renew.
  rewrite String.eqb_refl, Z.eqb_refl. simpl.
  unfold Light.is_alive in Halive.
  destruct (Light._transport self); [|discriminate].
  destruct (Light._task self); [|discriminate].
  repeat split.
Qed.

Lemma renew_same_address_keeps_session_witness :
  Light.is_alive ExampleCodec.bound_light = true
  ∧ Light.renew ExampleCodec.bound_light ExampleCodec.bound_loop AF_INET
      "192.168.1.20" 56700
    = (ExampleCodec.bound_light,
       Light._register ExampleCodec.bound_light ExampleCodec.bound_loop).
Proof.
  split; [reflexivity|].
  apply (renew_same_address_keeps_session ExampleCodec.bound_light
           ExampleCodec.bound_loop AF_INET).
  reflexivity.
Defined.

Section Session.
Context `{codec : Codec}.

Lemma timed_out_progress (self : Light.t) (lp : Loop) (f : Light.Frame) :
  ∀ self' lp' st, Light.timed_out self lp f = (self', lp', st) →
    match st with
    | Light.Done _ => True
    | Light.Suspended f' =>
        Light.attempts f' = Light.attempts f + 1
        ∧ Light.max_attempts f' = Light.max_attempts f
        ∧ Light.attempts f' <= Light.max_attempts f'
        ∧ Light.msg f' = Light.msg f
    end.
Proof.
  intros self' lp' st. unfold Light.timed_out.
  destruct (Z.leb_spec (Light.max_attempts f) (Light.attempts f)) as [Hle|Hlt].
  - destruct (Light.cleanup _ _). intros [= <- <- <-]. exact I.
  - unfold Light.loop_head.
    destruct (Z.ltb_spec (Light.attempts f) (Light.max_attempts f)) as [Hlt'|Hge]; [|lia].
    destruct (Light._message self !! seq_num (Light.msg f)); [|intros [= <- <- <-]; exact I].
    cbn. destruct (Light._transport self); intros [= <- <- <-]; [|exact I].
    cbn. repeat split; lia.
Qed.

Lemma timed_out_without_transport (self : Light.t) (lp : Loop) (f : Light.Frame) :
  Light._transport self = None →
  ∃ e, snd (Light.timed_out self lp f) = Light.Done (Light.Raised e).
Proof.
  intros Htr. unfold Light.timed_out.
  destruct (Light.max_attempts f <=? Light.attempts f) eqn:Hcmp.
  - destruct (Light.cleanup _ _). now exists LightOffline.
  - unfold Light.loop_head.
    destruct (Z.ltb_spec (Light.attempts f) (Light.max_attempts f)) as [Hlt'|Hge];
      [|apply Z.leb_gt in Hcmp; lia].
    destruct (Light._message self !! seq_num (Light.msg f)); [|now exists RuntimeError].
    cbn. rewrite Htr. now exists AttributeError.
Qed.

(** C5, as the code has it: [renew] with another address closes the
    transport and cancels the endpoint task the session had, stores the
    new address, and creates a new endpoint task for it and the
    metadata-refresh task; the new transport is not there yet.  The table
    of outstanding requests, the sequence counter and the events are as
    before: no caller is woken and no entry is removed.  A waiting call
    ends by itself: a timeout that finds no transport ends it with an
    exception, and every timeout either ends the call or uses one of its
    [max_attempts] attempts. *)
Theorem renew_new_address_rebinds_keeps_requests :
  ∀ (self : Light.t) (lp : Loop) (family : Family) (ip_addr : string) (port : Z)
    (self' : Light.t) (lp' : Loop),
    ip_addr ≠ Light._ip_addr self ∨ port ≠ Light._port self →
    Light.renew self lp family ip_addr port = (self', lp') →
    (closed lp' = closed lp ++ option_list (Light._transport self)
     ∧ cancelled lp' = cancelled lp ++ option_list (Light._task self))
    ∧ (Light._ip_addr self' = ip_addr ∧ Light._port self' = port
       ∧ Light._transport self' = None
       ∧ Light._task self' = Some (next_id lp)
       ∧ created lp' = created lp
           ++ [(next_id lp, CreateDatagramEndpoint family ip_addr port);
               (S (next_id lp), AsyncRegister (Light._mac_addr self))])
    ∧ (Light._message self' = Light._message self
       ∧ Light._seq self' = Light._seq self
       ∧ events lp' = events lp)
    ∧ (∀ f, ∃ e, snd (Light.timed_out self' lp' f) = Light.Done (Light.Raised e))
    ∧ (∀ s l f s1 l1 f1,
         Light.timed_out s l f = (s1, l1, Light.Suspended f1) →
         Light.attempts f1 = Light.attempts f + 1
         ∧ Light.attempts f1 <= Light.max_attempts f
         ∧ Light.max_attempts f1 = Light.max_attempts f).
Proof.
  intros self lp family ip_addr port self' lp' Hnew. unfold Light.renew.
  assert (Hcond : (negb (String.eqb (Light._ip_addr self) ip_addr)
                   || negb (Light._port self =? port))%bool = true).
  { destruct Hnew as [Hip|Hport].
    - destruct (String.eqb_spec (Light._ip_addr self) ip_addr) as [Heq|Hne];
        [congruence | reflexivity].
    - destruct (Z.eqb_spec (Light._port self) port) as [Heq|Hne];
        [congruence | apply orb_true_r]. }
  rewrite Hcond, cleanup_spec. cbn. intros [= <- <-]. cbn.
  assert (Htr : Light._transport
                  (Light.set_task (Some (next_id lp))
                     (Light.set_addr ip_addr port
                        (Light.set_task None (Light.set_transport None self)))) = None)
    by reflexivity.
  split; [|split; [|split; [|split]]].
  - split; reflexivity.
  - repeat split. now rewrite <- app_assoc.
  - repeat split.
  - intros f. now apply timed_out_without_transport.
  - intros s l f s1 l1 f1 Hto.
    pose proof (timed_out_progress s l f _ _ _ Hto) as Hp. cbn in Hp.
    destruct Hp as (Ha & Hm & Hle & _). repeat split; lia.
Qed.

End Session.

Lemma renew_new_address_rebinds_keeps_requests_witness :
  ("192.168.1.99" ≠ Light._ip_addr ExampleCodec.bound_light
   ∨ 56700 ≠ Light._port ExampleCodec.bound_light)
  ∧ Light._transport
      (fst (Light.renew ExampleCodec.bound_light ExampleCodec.bound_loop AF_INET
              "192.168.1.99" 56700)) = None.
Proof.
  split; [left; discriminate|].
  destruct (Light.renew ExampleCodec.bound_light ExampleCodec.bound_loop AF_INET
              "192.168.1.99" 56700) as [self' lp'] eqn:Hrenew.
  apply (renew_new_address_rebinds_keeps_requests (codec := ExampleCodec.codec)
           ExampleCodec.bound_light ExampleCodec.bound_loop AF_INET
           "192.168.1.99" 56700 self' lp');
    [left; discriminate | exact Hrenew].
Defined.


(** ** Device session: reply correlation *)

Section Correlation.
Context `{codec : Codec}.

Lemma accepts_iff (self : Light.t) (resp : Message) :
  Spec.accepts self resp = true ↔
  ∃ en, Light._message self !! seq_num resp = Some en
        ∧ msg_type resp = Light.response_type en
        ∧ source_id resp = Light._source_id self.
Proof.
  unfold Spec.accepts. split.
  - destruct (Light._message self !! seq_num resp) as [en|]; [|discriminate].
    intros H. apply andb_true_iff in H as [Ht Hs].
    apply bool_decide_eq_true in Ht, Hs. now exists en.
  - intros (en & -> & Ht & Hs).
    apply andb_true_iff. split; now apply bool_decide_eq_true.
Qed.

Lemma datagram_received_accepted (self : Light.t) (lp : Loop) (data : bytes)
    (resp : Message) (en : Light.Entry) :
  unpack_lifx_message data = Some resp →
  Light._message self !! seq_num resp = Some en →
  msg_type resp = Light.response_type en →
  source_id resp = Light._source_id self →
  Light.datagram_received self lp data
  = (Light.set_message
       (<[seq_num resp := {| Light.response_type := Light.response_type en;
                             Light.event := Light.event en;
                             Light.response := Some resp |}]> (Light._message self)) self,
     match Light.event en with Some e => event_set e lp | None => lp end,
     match Light.event en with Some _ => None | None => Some AttributeError end).
Proof.
  intros Hu Hen Ht Hs. unfold Light.datagram_received. rewrite Hu, Hen.
  destruct (decide _) as [_|Hn]; [|contradiction].
  destruct (decide _) as [_|Hn]; [|contradiction].
  destruct (Light.event en); reflexivity.
Qed.

Lemma datagram_received_discarded (self : Light.t) (lp : Loop) (data : bytes)
    (resp : Message) :
  unpack_lifx_message data = Some resp →
  Spec.accepts self resp = false →
  Light.datagram_received self lp data = (self, lp, None).
Proof.
  intros Hu Hacc. unfold Light.datagram_received. rewrite Hu.
  unfold Spec.accepts in Hacc.
  destruct (Light._message self !! seq_num resp) as [en|]; [|reflexivity].
  destruct (decide _) as [Ht|Hnt]; [|reflexivity].
  destruct (decide _) as [Hs|Hns]; [|reflexivity].
  rewrite !bool_decide_eq_true_2 in Hacc by assumption. discriminate.
Qed.

Lemma is_set_event_set (e e' : nat) (lp : Loop) :
  is_set e (event_set e' lp) = if decide (e' = e) then true else is_set e lp.
Proof.
  unfold is_set, event_set. cbn. rewrite lookup_insert.
  destruct (decide (e' = e)); reflexivity.
Qed.

(** C1: a decoded reply is accepted exactly when its sequence number is
    the key of an entry of the table, its class is the response type of
    that entry and its source id is the session's.  An accepted reply is
    stored in the result slot of the entry and sets the entry's event,
    which releases the caller waiting on it.  A reply that fails any of
    the three tests changes neither the session nor the loop: every slot
    and every event is as before.  So a caller that was pending is
    released by a datagram only if the reply passed the three tests, and
    is released whenever the reply passes them for its own entry. *)
Theorem datagram_received_releases_iff_all_three_match :
  ∀ (self : Light.t) (lp : Loop) (data : bytes) (resp : Message)
    (self' : Light.t) (lp' : Loop) (exc : option Exc),
    unpack_lifx_message data = Some resp →
    Light.datagram_received self lp data = (self', lp', exc) →
    (Spec.accepts self resp = true ↔
       ∃ en, Light._message self !! seq_num resp = Some en
             ∧ msg_type resp = Light.response_type en
             ∧ source_id resp = Light._source_id self)
    ∧ (Spec.accepts self resp = false → self' = self ∧ lp' = lp ∧ exc = None)
    ∧ (∀ k en e,
         Light._message self !! k = Some en → Light.event en = Some e →
         is_set e lp = false →
         (is_set e lp' = true → Spec.accepts self resp = true)
         ∧ (seq_num resp = k ∧ msg_type resp = Light.response_type en
            ∧ source_id resp = Light._source_id self →
            is_set e lp' = true
            ∧ Light._message self' !! k
              = Some {| Light.response_type := Light.response_type en;
                        Light.event := Some e;
                        Light.response := Some resp |})).
Proof.
  intros self lp data resp self' lp' exc Hu Hrecv.
  split; [apply accepts_iff|]. split.
  - intros Hacc. rewrite (datagram_received_discarded _ _ _ _ Hu Hacc) in Hrecv.
    now injection Hrecv as <- <- <-.
  - intros k en e Hen He Hpending. split.
    + intros Hset. destruct (Spec.accepts self resp) eqn:Hacc; [reflexivity|].
      rewrite (datagram_received_discarded _ _ _ _ Hu Hacc) in Hrecv.
      injection Hrecv as <- <- <-. congruence.
    + intros (Hk & Ht & Hs). subst k.
      rewrite (datagram_received_accepted _ _ _ _ en Hu Hen Ht Hs) in Hrecv.
      rewrite He in Hrecv. injection Hrecv as <- <- <-. split.
      * rewrite is_set_event_set. now rewrite decide_True.
      * cbn. rewrite lookup_insert_eq. reflexivity.
Qed.

End Correlation.


(** ** Device session: the retry workflow *)

Section Retry.
Context `{codec : Codec}.

Lemma set_message_same (self : Light.t) :
  Light.set_message (Light._message self) self = self.
Proof. now destruct self. Qed.

Lemma loop_head_attempt (self : Light.t) (lp : Loop) (m : Message) (rt : MsgType)
    (tmo : Q) (maxa att : Z) (tr : nat) (en : Light.Entry) :
  Light._transport self = Some tr →
  Light._message self !! seq_num m = Some en →
  att < maxa →
  Light.loop_head self lp m rt tmo maxa att
  = (Light.set_message
       (<[seq_num m := {| Light.response_type := Light.response_type en;
                          Light.event := Some (next_id lp);
                          Light.response := Light.response en |}]> (Light._message self))
       self,
     wait_for (next_id lp) tmo
       (sendto tr (generate_packed_message m) None (snd (new_event lp))),
     Light.Suspended {| Light.msg := m; Light.expected := rt; Light.timeout_secs := tmo;
                        Light.max_attempts := maxa; Light.attempts := att + 1;
                        Light.waiting_on := next_id lp |}).
Proof.
  intros Htr Hen Hlt. unfold Light.loop_head.
  destruct (Z.ltb_spec att maxa) as [_|Hge]; [|lia].
  rewrite Hen. cbn. rewrite Htr. reflexivity.
Qed.

(** After an attempt the call waits on a new event, which no other entry
    can hold. *)
Lemma waiting_after_attempt (self : Light.t) (lp : Loop) (m : Message) (rt : MsgType)
    (tmo : Q) (maxa att : Z) (tr : nat) (sl : option nat) :
  Light._transport self = Some tr →
  Light._message self !! seq_num m
    = Some {| Light.response_type := rt; Light.event := sl; Light.response := None |} →
  att < maxa →
  (∀ k en e, k ≠ seq_num m → Light._message self !! k = Some en →
             Light.event en = Some e → (e < next_id lp)%nat) →
  Spec.waiting
    (Light.set_message
       (<[seq_num m := {| Light.response_type := rt;
                          Light.event := Some (next_id lp);
                          Light.response := None |}]> (Light._message self)) self)
    (wait_for (next_id lp) tmo
       (sendto tr (generate_packed_message m) None (snd (new_event lp))))
    {| Light.msg := m; Light.expected := rt; Light.timeout_secs := tmo;
       Light.max_attempts := maxa; Light.attempts := att + 1;
       Light.waiting_on := next_id lp |} tr.
Proof.
  intros Htr Hen Hlt Hothers. unfold Spec.waiting. cbn.
  split; [exact Htr|]. split; [apply lookup_insert_eq|].
  split; [unfold is_set; cbn; now rewrite lookup_insert_eq|].
  split; [lia|]. split.
  - intros k en e Hk He. cbn in Hk. rewrite lookup_insert in Hk.
    destruct (decide (seq_num m = k)) as [<-|Hne].
    + injection Hk as <-. cbn in He. injection He as <-. cbn. lia.
    + specialize (Hothers k en e (not_eq_sym Hne) Hk He). cbn. lia.
  - intros k en Hne Hk He. rewrite lookup_insert_ne in Hk by congruence.
    specialize (Hothers k en (next_id lp) Hne Hk He). lia.
Qed.

Lemma waiting_others_allocated (self : Light.t) (lp : Loop) (f : Light.Frame) (tr : nat) :
  Spec.waiting self lp f tr →
  ∀ k en e, k ≠ seq_num (Light.msg f) → Light._message self !! k = Some en →
            Light.event en = Some e → (e < next_id lp)%nat.
Proof. intros (_ & _ & _ & _ & Halloc & _) k en e _. apply Halloc. Qed.

(** A datagram that does not answer the waiting call leaves it waiting:
    it is dropped, or it is the reply to another entry of the table. *)
Lemma datagram_received_unanswered (self : Light.t) (lp : Loop) (f : Light.Frame)
    (tr : nat) (data : bytes) :
  Spec.waiting self lp f tr →
  (∀ resp, unpack_lifx_message data = Some resp →
           ¬ Spec.answers self (Light.msg f) (Light.expected f) resp) →
  ∃ tbl lp' exc,
    Light.datagram_received self lp data = (Light.set_message tbl self, lp', exc)
    ∧ Spec.waiting (Light.set_message tbl self) lp' f tr
    ∧ sent lp' = sent lp ∧ waits lp' = waits lp
    ∧ closed lp' = closed lp ∧ cancelled lp' = cancelled lp.
Proof.
  intros Hw Hno.
  assert (Hsame : ∀ exc : option Exc, ∃ tbl lp' exc',
            (self, lp, exc) = (Light.set_message tbl self, lp', exc')
            ∧ Spec.waiting (Light.set_message tbl self) lp' f tr
            ∧ sent lp' = sent lp ∧ waits lp' = waits lp
            ∧ closed lp' = closed lp ∧ cancelled lp' = cancelled lp).
  { intros exc. exists (Light._message self), lp, exc.
    rewrite set_message_same. auto 10. }
  unfold Light.datagram_received.
  destruct (unpack_lifx_message data) as [resp|] eqn:Hu; [|apply Hsame].
  specialize (Hno resp eq_refl).
  destruct (Light._message self !! seq_num resp) as [en|] eqn:Hen; [|apply Hsame].
  destruct (decide (msg_type resp = Light.response_type en)) as [Hty|_]; [|apply Hsame].
  destruct (decide (source_id resp = Light._source_id self)) as [Hsrc|_]; [|apply Hsame].
  clear Hsame.
  destruct Hw as (Htr & Hmine & Hunset & Hle & Halloc & Hdistinct).
  assert (Hother : seq_num resp ≠ seq_num (Light.msg f)).
  { intros Heq. apply Hno. rewrite Heq in Hen. rewrite Hmine in Hen.
    injection Hen as <-. repeat split; assumption. }
  assert (Hkeep : ∀ lp',
            is_set (Light.waiting_on f) lp' = false →
            next_id lp' = next_id lp →
            Spec.waiting
              (Light.set_message
                 (<[seq_num resp := {| Light.response_type := Light.response_type en;
                                       Light.event := Light.event en;
                                       Light.response := Some resp |}]>
                    (Light._message self)) self) lp' f tr).
  { intros lp' Hunset' Hnext. unfold Spec.waiting. cbn.
    split; [exact Htr|].
    split; [rewrite lookup_insert_ne by exact Hother; exact Hmine|].
    split; [exact Hunset'|]. split; [exact Hle|]. split.
    - intros k en' e Hk He. cbn in Hk. rewrite Hnext. rewrite lookup_insert in Hk.
      destruct (decide (seq_num resp = k)) as [<-|Hne].
      + injection Hk as <-. cbn in He. exact (Halloc _ _ _ Hen He).
      + exact (Halloc _ _ _ Hk He).
    - intros k en' Hne Hk. rewrite lookup_insert in Hk.
      destruct (decide (seq_num resp = k)) as [<-|Hne'].
      + injection Hk as <-. cbn. exact (Hdistinct _ _ Hother Hen).
      + exact (Hdistinct _ _ Hne Hk). }
  destruct (Light.event en) as [e|] eqn:He.
  - do 3 eexists. split; [reflexivity|]. split; [|repeat split].
    apply Hkeep; [|reflexivity].
    rewrite is_set_event_set. destruct (decide (e = Light.waiting_on f)) as [->|_];
      [|exact Hunset].
    exfalso. apply (Hdistinct _ _ Hother Hen). now rewrite He.
  - do 3 eexists. split; [reflexivity|]. split; [|repeat split].
    apply Hkeep; [exact Hunset | reflexivity].
Qed.

Lemma drive_unanswered_offline (ins : list Light.Inbound) :
  ∀ (self : Light.t) (lp : Loop) (f : Light.Frame) (tr : nat),
    Spec.waiting self lp f tr →
    Spec.unanswered self (Light.msg f) (Light.expected f) ins →
    (Z.to_nat (Light.max_attempts f - Light.attempts f) < Spec.timer_count ins)%nat →
    ∃ tbl lp',
      Light.drive self lp f ins
      = (Light.set_task None (Light.set_transport None (Light.set_message tbl self)),
         lp', Light.Done (Light.Raised LightOffline))
      ∧ tbl !! seq_num (Light.msg f) = None
      ∧ sent lp'
        = sent lp ++ repeat (tr, generate_packed_message (Light.msg f), None)
                       (Z.to_nat (Light.max_attempts f - Light.attempts f))
      ∧ map snd (waits lp')
        = map snd (waits lp)
            ++ repeat (Light.timeout_secs f)
                 (Z.to_nat (Light.max_attempts f - Light.attempts f))
      ∧ closed lp' = closed lp ++ [tr]
      ∧ cancelled lp' = cancelled lp ++ option_list (Light._task self).
Proof.
  induction ins as [|i rest IH]; intros self lp f tr Hw Hquiet Hcount.
  - simpl in Hcount. lia.
  - apply Forall_cons in Hquiet as [Hi Hquiet].
    destruct i as [data|].
    + destruct (datagram_received_unanswered self lp f tr data Hw Hi)
        as (tbl1 & lp1 & exc & Hrecv & Hw1 & Hs1 & Hwt1 & Hcl1 & Hca1).
      cbn [Light.drive]. rewrite Hrecv.
      destruct Hw1 as (Htr1 & Hmine1 & Hunset1 & Hrest1). rewrite Hunset1.
      destruct (IH (Light.set_message tbl1 self) lp1 f tr)
        as (tbl & lp' & Hdrive & Hgone & Hsent & Hwaits & Hclosed & Hcanc).
      { repeat split; assumption || apply Hrest1. }
      { exact Hquiet. }
      { exact Hcount. }
      exists tbl, lp'. rewrite Hdrive, Hsent, Hwaits, Hclosed, Hcanc, Hs1, Hwt1, Hcl1, Hca1.
      repeat split; assumption.
    + pose proof (waiting_others_allocated self lp f tr Hw) as Hothers.
      destruct Hw as (Htr & Hen & Hunset & Hle & Halloc & Hdistinct).
      cbn [Light.drive]. unfold Light.timed_out.
      destruct (Z.leb_spec (Light.max_attempts f) (Light.attempts f)) as [Hout|Hmore].
      * rewrite Hen, cleanup_spec. cbn.
        replace (Light.max_attempts f - Light.attempts f) with 0 by lia.
        do 2 eexists. split; [reflexivity|]. cbn.
        rewrite !app_nil_r, Htr. split; [apply lookup_delete_eq|]. repeat split.
      * rewrite (loop_head_attempt self lp _ _ _ _ _ tr _ Htr Hen Hmore). cbn.
        match goal with
        | |- context [Light.drive ?s1 ?l1 ?f1 rest] =>
            destruct (IH s1 l1 f1 tr)
              as (tbl & lp' & Hdrive & Hgone & Hsent & Hwaits & Hclosed & Hcanc)
        end.
        { apply waiting_after_attempt with (sl := Some (Light.waiting_on f));
            assumption. }
        { exact Hquiet. }
        { cbn in Hcount |- *. lia. }
        exists tbl, lp'. cbn in Hdrive, Hgone, Hsent, Hwaits, Hclosed, Hcanc |- *.
        rewrite Hdrive, Hsent, Hwaits, Hclosed, Hcanc.
        replace (Z.to_nat (Light.max_attempts f - Light.attempts f))
          with (S (Z.to_nat (Light.max_attempts f - (Light.attempts f + 1)))) by lia.
        cbn. rewrite map_app, <- !app_assoc. repeat split. exact Hgone.
Qed.

Lemma drive_reply (pre : list Light.Inbound) :
  ∀ (self : Light.t) (lp : Loop) (f : Light.Frame) (tr : nat)
    (data : bytes) (resp : Message) (post : list Light.Inbound),
    Spec.waiting self lp f tr →
    Spec.unanswered self (Light.msg f) (Light.expected f) pre →
    (Spec.timer_count pre <= Z.to_nat (Light.max_attempts f - Light.attempts f))%nat →
    unpack_lifx_message data = Some resp →
    Spec.answers self (Light.msg f) (Light.expected f) resp →
    ∃ tbl lp',
      Light.drive self lp f (pre ++ Light.Datagram data :: post)
      = (Light.set_message tbl self, lp', Light.Done (Light.Returned (Some resp)))
      ∧ tbl !! seq_num (Light.msg f) = None
      ∧ sent lp'
        = sent lp ++ repeat (tr, generate_packed_message (Light.msg f), None)
                       (Spec.timer_count pre)
      ∧ map snd (waits lp')
        = map snd (waits lp) ++ repeat (Light.timeout_secs f) (Spec.timer_count pre)
      ∧ closed lp' = closed lp
      ∧ cancelled lp' = cancelled lp.
Proof.
  induction pre as [|i rest IH];
    intros self lp f tr data resp post Hw Hquiet Hcount Hu Hans.
  - destruct Hw as (Htr & Hen & Hunset & Hle & _).
    destruct Hans as (Hseq & Hty & Hsrc). cbn [app Light.drive].
    rewrite <- Hseq in Hen.
    rewrite (datagram_received_accepted self lp data resp _ Hu Hen Hty Hsrc). cbn.
    rewrite is_set_event_set, decide_True by reflexivity.
    unfold Light.woken, Light.after_loop. cbn.
    rewrite <- Hseq, lookup_insert_eq. cbn.
    do 2 eexists. split; [reflexivity|]. cbn. rewrite !app_nil_r.
    split; [apply lookup_delete_eq|]. repeat split.
  - apply Forall_cons in Hquiet as [Hi Hquiet].
    destruct i as [d|]; cbn [app].
    + destruct (datagram_received_unanswered self lp f tr d Hw Hi)
        as (tbl1 & lp1 & exc & Hrecv & Hw1 & Hs1 & Hwt1 & Hcl1 & Hca1).
      cbn [Light.drive]. rewrite Hrecv.
      pose proof Hw1 as (_ & _ & Hunset1 & _). rewrite Hunset1.
      destruct (IH (Light.set_message tbl1 self) lp1 f tr data resp post Hw1 Hquiet
                  Hcount Hu Hans)
        as (tbl & lp' & Hdrive & Hgone & Hsent & Hwaits & Hclosed & Hcanc).
      exists tbl, lp'. rewrite Hdrive, Hsent, Hwaits, Hclosed, Hcanc, Hs1, Hwt1, Hcl1, Hca1.
      repeat split; assumption.
    + pose proof (waiting_others_allocated self lp f tr Hw) as Hothers.
      destruct Hw as (Htr & Hen & Hunset & Hle & Halloc & Hdistinct).
      cbn [Light.drive]. unfold Light.timed_out.
      cbn in Hcount.
      destruct (Z.leb_spec (Light.max_attempts f) (Light.attempts f)) as [Hout|Hmore];
        [lia|].
      rewrite (loop_head_attempt self lp _ _ _ _ _ tr _ Htr Hen Hmore). cbn.
      match goal with
      | |- context [Light.drive ?s1 ?l1 ?f1 _] =>
          destruct (IH s1 l1 f1 tr data resp post)
            as (tbl & lp' & Hdrive & Hgone & Hsent & Hwaits & Hclosed & Hcanc)
      end; try assumption.
      { apply waiting_after_attempt with (sl := Some (Light.waiting_on f));
          assumption. }
      { cbn. lia. }
      exists tbl, lp'. cbn in Hdrive, Hgone, Hsent, Hwaits, Hclosed, Hcanc |- *.
      rewrite Hdrive, Hsent, Hwaits, Hclosed, Hcanc.
      cbn. rewrite map_app, <- !app_assoc. repeat split. exact Hgone.
Qed.

(** The first turn of [_try_sending] on a bound session with at least one
    attempt allowed: the request is entered, sent once and awaited. *)
Lemma try_sending_first_attempt (self : Light.t) (lp : Loop) (m : Message)
    (rt : MsgType) (tmo : option Q) (maxa : option Z) (tr : nat) :
  Light._transport self = Some tr →
  0 < default (Light._retry_count self) maxa →
  Spec.events_allocated self lp →
  ∃ tbl1 lp1 f1,
    Light._try_sending self lp m rt tmo maxa
    = (Light.set_message tbl1 self, lp1, Light.Suspended f1)
    ∧ Spec.waiting (Light.set_message tbl1 self) lp1 f1 tr
    ∧ Light.msg f1 = m ∧ Light.expected f1 = rt
    ∧ Light.timeout_secs f1 = default (Light._timeout self) tmo
    ∧ Light.max_attempts f1 = default (Light._retry_count self) maxa
    ∧ Light.attempts f1 = 1
    ∧ sent lp1 = sent lp ++ [(tr, generate_packed_message m, None)]
    ∧ map snd (waits lp1) = map snd (waits lp) ++ [default (Light._timeout self) tmo]
    ∧ closed lp1 = closed lp ∧ cancelled lp1 = cancelled lp.
Proof.
  intros Htr Hmax Halloc. unfold Light._try_sending. rewrite Htr.
  set (self0 := Light.set_message _ self).
  assert (Hen0 : Light._message self0 !! seq_num m
                 = Some {| Light.response_type := rt; Light.event := None;
                           Light.response := None |})
    by (unfold self0; cbn; apply lookup_insert_eq).
  assert (Hmax' : 0 < match maxa with Some x => x | None => Light._retry_count self0 end)
    by (destruct maxa; exact Hmax).
  rewrite (loop_head_attempt self0 lp m rt _ _ 0 tr _ Htr Hen0 Hmax').
  do 3 eexists. split; [unfold self0; reflexivity|].
  split.
  { apply (waiting_after_attempt self0 lp m rt _ _ 0 tr None Htr Hen0 Hmax').
    intros k en e Hne Hk. unfold self0 in Hk. cbn in Hk.
    rewrite lookup_insert_ne in Hk by congruence. exact (Halloc k en e Hk). }
  cbn. repeat match goal with |- _ ∧ _ => split end;
    try reflexivity;
    try (destruct tmo; reflexivity);
    try (destruct maxa; reflexivity);
    try (rewrite map_app; destruct tmo; reflexivity).
Qed.


End Retry.

(** ** Device session: the label setter *)

Lemma length_substring_0 (n : nat) :
  ∀ s : string, (n <= String.length s)%nat → String.length (substring 0 n s) = n.
Proof.
  induction n as [|n IH]; intros s Hlen.
  - now destruct s.
  - destruct s as [|c s]; simpl in *; [lia|]. f_equal. apply IH. lia.
Qed.

Section Label.
Context `{codec : Codec}.

(** C10: [set_label] sends the caller's string unchanged when it has at
    most 32 characters, and its first 32 characters when it is longer; once
    the acknowledgement has arrived the cached label is the string that was
    sent, not the caller's original.  Stated for a bound session whose
    acknowledgement arrives after fewer timeouts than the retry count. *)
Theorem set_label_truncates_to_32_characters :
  ∀ (self : Light.t) (lp : Loop) (value : string) (tr : nat)
    (pre : list Light.Inbound) (data : bytes) (ack : Message)
    (post : list Light.Inbound),
    let label := if (32 <? String.length value)%nat then Spec.first_32 value else value in
    let request :=
      {| msg_type := SetLabel; target_addr := Light._mac_addr self;
         source_id := Light._source_id self; seq_num := (Light._seq self + 1) mod 128;
         payload := [("label", VStr label)];
         ack_requested := true; response_requested := false |} in
    Light._transport self = Some tr →
    0 < Light._retry_count self →
    Spec.events_allocated self lp →
    Spec.unanswered self request Acknowledgement pre →
    (Spec.timer_count pre < Z.to_nat (Light._retry_count self))%nat →
    unpack_lifx_message data = Some ack →
    Spec.answers self request Acknowledgement ack →
    (∃ self' lp',
       Light.set_label self lp value (pre ++ Light.Datagram data :: post)
       = (self', lp', Light.Done (Light.Returned None))
       ∧ Light._label self' = Some label
       ∧ sent lp'
         = sent lp ++ repeat (tr, generate_packed_message request, None)
                        (S (Spec.timer_count pre)))
    ∧ ((String.length value <= 32)%nat → label = value)
    ∧ ((32 < String.length value)%nat →
       String.length label = 32%nat
       ∧ ∀ i, (i < 32)%nat → String.get i label = String.get i value).
Proof.
  intros self lp value tr pre data ack post label request
    Htr Hretry Halloc Hquiet Hcount Hu Hans.
  set (self1 := Light.set_seq ((Light._seq self + 1) mod 128) self).
  split; [|split].
  - unfold Light.set_label, Light._req_with_ack. cbn [Light._seq_next].
    fold (Spec.first_32 value). fold label.
    fold self1.
    change {| msg_type := SetLabel; target_addr := Light._mac_addr self1;
              source_id := Light._source_id self1;
              seq_num := (Light._seq self + 1) mod 128;
              payload := [("label", VStr label)];
              ack_requested := true; response_requested := false |} with request.
    destruct (try_sending_first_attempt self1 lp request Acknowledgement None None tr
                Htr Hretry Halloc)
      as (tbl1 & lp1 & f1 & Hstart & Hw & Hm & Hrt & Htmo & Hmaxa & Hatt & Hsent & _).
    rewrite Hstart. cbn [Light.run].
    assert (Hleft : (Spec.timer_count pre
                     <= Z.to_nat (Light.max_attempts f1 - Light.attempts f1))%nat)
      by (rewrite Hmaxa, Hatt; cbn; lia).
    assert (Hquiet1 : Spec.unanswered (Light.set_message tbl1 self1) (Light.msg f1)
                        (Light.expected f1) pre)
      by (rewrite Hm, Hrt; exact Hquiet).
    assert (Hans1 : Spec.answers (Light.set_message tbl1 self1) (Light.msg f1)
                      (Light.expected f1) ack)
      by (rewrite Hm, Hrt; exact Hans).
    destruct (drive_reply pre (Light.set_message tbl1 self1) lp1 f1 tr data ack post
                Hw Hquiet1 Hleft Hu Hans1)
      as (tbl & lp' & Hdrive & _ & Hsent' & _).
    rewrite Hdrive. do 2 eexists. split; [reflexivity|]. split; [reflexivity|].
    rewrite Hsent', Hsent, Hm. cbn [repeat]. now rewrite <- app_assoc.
  - intros Hshort. subst label.
    destruct (Nat.ltb_spec 32 (String.length value)); [lia | reflexivity].
  - intros Hlong. subst label.
    destruct (Nat.ltb_spec 32 (String.length value)) as [_|Hle]; [|lia].
    unfold Spec.first_32. split.
    + apply length_substring_0. lia.
    + intros i Hi. rewrite (substring_correct1 value 0 32 i Hi).
      now rewrite Nat.add_0_r.
Qed.

End Label.


(** ** Device session: sequence numbers *)

Section Sequence.
Context `{codec : Codec}.

Lemma after_loop_seq (self : Light.t) (lp : Loop) (m : Message) :
  Light._seq (fst (fst (Light.after_loop self lp m))) = Light._seq self.
Proof. unfold Light.after_loop. now destruct (Light._message self !! seq_num m). Qed.

Lemma loop_head_seq (self : Light.t) (lp : Loop) (m : Message) (rt : MsgType)
    (tmo : Q) (maxa att : Z) :
  Light._seq (fst (fst (Light.loop_head self lp m rt tmo maxa att))) = Light._seq self.
Proof.
  unfold Light.loop_head. destruct (att <? maxa); [|apply after_loop_seq].
  destruct (Light._message self !! seq_num m); [|reflexivity].
  cbn. now destruct (Light._transport self).
Qed.

Lemma loop_head_frame (self : Light.t) (lp : Loop) (m : Message) (rt : MsgType)
    (tmo : Q) (maxa att : Z) (f : Light.Frame) :
  snd (Light.loop_head self lp m rt tmo maxa att) = Light.Suspended f → Light.msg f = m.
Proof.
  unfold Light.loop_head. destruct (att <? maxa).
  - destruct (Light._message self !! seq_num m); [|discriminate].
    cbn. destruct (Light._transport self); [|discriminate].
    cbn. now intros [= <-].
  - unfold Light.after_loop. now destruct (Light._message self !! seq_num m).
Qed.

Lemma try_sending_seq (self : Light.t) (lp : Loop) (m : Message) (rt : MsgType)
    (tmo : option Q) (maxa : option Z) :
  Light._seq (fst (fst (Light._try_sending self lp m rt tmo maxa))) = Light._seq self.
Proof.
  unfold Light._try_sending. destruct (Light._transport self); [|reflexivity].
  now rewrite loop_head_seq.
Qed.

Lemma try_sending_frame (self : Light.t) (lp : Loop) (m : Message) (rt : MsgType)
    (tmo : option Q) (maxa : option Z) (f : Light.Frame) :
  snd (Light._try_sending self lp m rt tmo maxa) = Light.Suspended f → Light.msg f = m.
Proof.
  unfold Light._try_sending. destruct (Light._transport self); [|discriminate].
  apply loop_head_frame.
Qed.

Lemma timed_out_seq (self : Light.t) (lp : Loop) (f : Light.Frame) :
  Light._seq (fst (fst (Light.timed_out self lp f))) = Light._seq self.
Proof.
  unfold Light.timed_out. destruct (_ <=? _); [|apply loop_head_seq].
  rewrite cleanup_spec. cbn.
  now destruct (Light._message self !! seq_num (Light.msg f)).
Qed.

Lemma datagram_received_seq (self : Light.t) (lp : Loop) (data : bytes) :
  Light._seq (fst (fst (Light.datagram_received self lp data))) = Light._seq self.
Proof.
  unfold Light.datagram_received.
  destruct (unpack_lifx_message data) as [resp|]; [|reflexivity].
  destruct (Light._message self !! seq_num resp) as [en|]; [|reflexivity].
  repeat (destruct (decide _); [|reflexivity]).
  now destruct (Light.event en).
Qed.

Lemma renew_seq (self : Light.t) (lp : Loop) (family : Family) (ip : string) (port : Z) :
  Light._seq (fst (Light.renew self lp family ip port)) = Light._seq self.
Proof.
  unfold Light.renew. rewrite cleanup_spec.
  destruct (_ || _)%bool; cbn; now destruct (Light._task self).
Qed.

(** What one step does to the sequence counter and to the list of calls. *)
Lemma step_seq (m : Light.Machine) (s : Light.Step) :
  Light._seq (Light.light (Light.step m s))
  = if Spec.is_request s then (Light._seq (Light.light m) + 1) mod 128
    else Light._seq (Light.light m).
Proof.
  destruct s as [mt pl|mt rt pl|data|i|i|family ip port|tr]; cbn.
  - unfold Light._req_with_ack. cbn.
    pose proof (try_sending_seq
      (Light.set_seq ((Light._seq (Light.light m) + 1) mod 128) (Light.light m))
      (Light.loop m)
      {| msg_type := mt; target_addr := Light._mac_addr (Light.light m);
         source_id := Light._source_id (Light.light m);
         seq_num := (Light._seq (Light.light m) + 1) mod 128; payload := pl;
         ack_requested := true; response_requested := false |}
      Acknowledgement None None) as H.
    destruct (Light._try_sending _ _ _ _ _ _) as [[s1 l1] st]. exact H.
  - unfold Light._req_with_resp. cbn.
    pose proof (try_sending_seq
      (Light.set_seq ((Light._seq (Light.light m) + 1) mod 128) (Light.light m))
      (Light.loop m)
      {| msg_type := mt; target_addr := Light._mac_addr (Light.light m);
         source_id := Light._source_id (Light.light m);
         seq_num := (Light._seq (Light.light m) + 1) mod 128;
         payload := match pl with Some x => x | None => [] end;
         ack_requested := false; response_requested := true |}
      rt None None) as H.
    destruct (Light._try_sending _ _ _ _ _ _) as [[s1 l1] st]. exact H.
  - pose proof (datagram_received_seq (Light.light m) (Light.loop m) data) as H.
    destruct (Light.datagram_received _ _ _) as [[s1 l1] e]. exact H.
  - destruct (Light.calls m !! i) as [[o|f]|]; try reflexivity.
    destruct (is_set _ _); [reflexivity|].
    pose proof (timed_out_seq (Light.light m) (Light.loop m) f) as H.
    destruct (Light.timed_out _ _ _) as [[s1 l1] st]. exact H.
  - destruct (Light.calls m !! i) as [[o|f]|]; try reflexivity.
    destruct (is_set _ _); [|reflexivity].
    pose proof (after_loop_seq (Light.light m) (Light.loop m) (Light.msg f)) as H.
    unfold Light.woken. destruct (Light.after_loop _ _ _) as [[s1 l1] st]. exact H.
  - pose proof (renew_seq (Light.light m) (Light.loop m) family ip port) as H.
    destruct (Light.renew _ _ _ _ _) as [s1 l1]. exact H.
  - reflexivity.
Qed.

Lemma exec_seq (steps : list Light.Step) :
  ∀ m, Light._seq (Light.light (Light.exec m steps)) mod 128
       = (Light._seq (Light.light m) + Z.of_nat (Spec.requests steps)) mod 128.
Proof.
  unfold Light.exec, Spec.requests.
  induction steps as [|s steps IH]; intros m; cbn [fold_left].
  - cbn. f_equal. lia.
  - rewrite IH, step_seq, filter_cons.
    destruct (Spec.is_request s); cbn [decide].
    + destruct (decide (true = true)) as [_|Hn]; [|congruence].
      cbn [length]. rewrite Zplus_mod_idemp_l. f_equal. lia.
    + destruct (decide (false = true)) as [Hn|_]; [congruence|]. reflexivity.
Qed.

(** The call a request step starts holds the sequence number the step
    allocated. *)
Lemma step_request_frame (m : Light.Machine) (s : Light.Step) (f : Light.Frame) :
  Spec.is_request s = true →
  Light.calls (Light.step m s) !! length (Light.calls m) = Some (Light.Suspended f) →
  seq_num (Light.msg f) = Light._seq (Light.light (Light.step m s)).
Proof.
  intros Hreq. rewrite step_seq, Hreq.
  destruct s as [mt pl|mt rt pl|data|i|i|family ip port|tr]; try discriminate; cbn.
  - unfold Light._req_with_ack. cbn.
    match goal with
    | |- context [Light._try_sending ?s ?l ?msg ?rt ?a ?b] =>
        pose proof (try_sending_frame s l msg rt a b f) as H;
        destruct (Light._try_sending s l msg rt a b) as [[s1 l1] st]
    end.
    cbn. rewrite lookup_app_r, Nat.sub_diag by lia. cbn.
    intros [= ->]. now rewrite (H eq_refl).
  - unfold Light._req_with_resp. cbn.
    match goal with
    | |- context [Light._try_sending ?s ?l ?msg ?rt ?a ?b] =>
        pose proof (try_sending_frame s l msg rt a b f) as H;
        destruct (Light._try_sending s l msg rt a b) as [[s1 l1] st]
    end.
    cbn. rewrite lookup_app_r, Nat.sub_diag by lia. cbn.
    intros [= ->]. now rewrite (H eq_refl).
Qed.

(** C3, as the code has it: a request is given the next sequence number,
    [(_seq + 1) mod 128], which lies in [0, 127], and the call holds it;
    two requests with fewer than 127 others started between them hold
    different numbers; the table, being keyed by sequence number, has one
    entry for a number, and the entry is gone once the call has been woken
    and when it fails after its last attempt. *)
Theorem sequence_numbers_distinct_within_a_cycle :
  ∀ (m : Light.Machine) (first : Light.Step) (steps : list Light.Step)
    (second : Light.Step),
    Spec.is_request first = true →
    Spec.is_request second = true →
    (Spec.requests steps < 127)%nat →
    let m1 := Light.step m first in
    let m2 := Light.exec m1 steps in
    let m3 := Light.step m2 second in
    (Light._seq (Light.light m1) = (Light._seq (Light.light m) + 1) mod 128
     ∧ 0 <= Light._seq (Light.light m1) < 128)
    ∧ (∀ f1 f2,
         Light.calls m1 !! length (Light.calls m) = Some (Light.Suspended f1) →
         Light.calls m3 !! length (Light.calls m2) = Some (Light.Suspended f2) →
         seq_num (Light.msg f1) = Light._seq (Light.light m1)
         ∧ seq_num (Light.msg f2) = Light._seq (Light.light m3)
         ∧ seq_num (Light.msg f1) ≠ seq_num (Light.msg f2))
    ∧ (∀ self lp f,
         Light._message (fst (fst (Light.woken self lp f))) !! seq_num (Light.msg f) = None)
    ∧ (∀ self lp f,
         Light.max_attempts f <= Light.attempts f →
         Light._message (fst (fst (Light.timed_out self lp f))) !! seq_num (Light.msg f)
         = None).
Proof.
  intros m first steps second Hfirst Hsecond Hfew m1 m2 m3.
  assert (H1 : Light._seq (Light.light m1) = (Light._seq (Light.light m) + 1) mod 128)
    by (subst m1; now rewrite step_seq, Hfirst).
  assert (Hrange : 0 <= Light._seq (Light.light m1) < 128)
    by (rewrite H1; apply Z.mod_pos_bound; lia).
  assert (H3 : Light._seq (Light.light m3) ≠ Light._seq (Light.light m1)).
  { subst m3. rewrite step_seq, Hsecond.
    pose proof (exec_seq steps m1) as H2. fold m2 in H2.
    rewrite <- Zplus_mod_idemp_l, H2, Zplus_mod_idemp_l.
    intros Heq.
    pose proof (Z.div_mod (Light._seq (Light.light m1) + Z.of_nat (Spec.requests steps) + 1)
                  128 ltac:(lia)) as Hdm.
    pose proof (Z.mod_pos_bound
                  (Light._seq (Light.light m1) + Z.of_nat (Spec.requests steps) + 1)
                  128 ltac:(lia)) as Hb.
    lia. }
  split; [split; assumption|]. split; [|split].
  - intros f1 f2 Hf1 Hf2.
    pose proof (step_request_frame m first f1 Hfirst Hf1) as E1.
    pose proof (step_request_frame m2 second f2 Hsecond Hf2) as E2.
    fold m1 in E1. fold m3 in E2. repeat split; congruence.
  - intros self lp f. unfold Light.woken, Light.after_loop.
    destruct (Light._message self !! seq_num (Light.msg f)) eqn:Hen;
      cbn; [apply lookup_delete_eq | exact Hen].
  - intros self lp f Hout. unfold Light.timed_out.
    destruct (Z.leb_spec (Light.max_attempts f) (Light.attempts f)); [|lia].
    rewrite cleanup_spec. cbn.
    destruct (Light._message self !! seq_num (Light.msg f)) eqn:Hen;
      cbn; [apply lookup_delete_eq | exact Hen].
Qed.

End Sequence.


(** ** Worked runs on the example session *)

(** The example session, one request outstanding: the matching
    [StateLabel] reply sets the event the caller waits on. *)
Lemma datagram_received_releases_iff_all_three_match_witness :
  unpack_lifx_message (Codec := ExampleCodec.codec) Examples.state_label_reply
    = ExampleCodec.unpack Examples.state_label_reply
  ∧ is_set 2 (Light.loop Examples.asking) = false
  ∧ is_set 2
      (snd (fst (Light.datagram_received (codec := ExampleCodec.codec)
                   (Light.light Examples.asking) (Light.loop Examples.asking)
                   Examples.state_label_reply))) = true.
Proof.
  split; [reflexivity|]. split; [reflexivity|].
  pose proof (datagram_received_releases_iff_all_three_match
                (codec := ExampleCodec.codec)
                (Light.light Examples.asking) (Light.loop Examples.asking)
                Examples.state_label_reply
                {| msg_type := StateLabel; target_addr := "d0:73:d5:00:00:01";
                   source_id := 7; seq_num := 1; payload := [];
                   ack_requested := false; response_requested := false |}
                (fst (fst (Light.datagram_received (codec := ExampleCodec.codec)
                             (Light.light Examples.asking) (Light.loop Examples.asking)
                             Examples.state_label_reply)))
                (snd (fst (Light.datagram_received (codec := ExampleCodec.codec)
                             (Light.light Examples.asking) (Light.loop Examples.asking)
                             Examples.state_label_reply)))
                (snd (Light.datagram_received (codec := ExampleCodec.codec)
                        (Light.light Examples.asking) (Light.loop Examples.asking)
                        Examples.state_label_reply))
                eq_refl eq_refl) as (_ & _ & Hcaller).
  apply (Hcaller 1 {| Light.response_type := StateLabel; Light.event := Some 2%nat;
                      Light.response := None |} 2%nat eq_refl eq_refl eq_refl).
  repeat split.
Defined.

Lemma events_allocated_bound :
  Spec.events_allocated ExampleCodec.bound_light ExampleCodec.bound_loop.
Proof. intros k en e Hk. vm_compute in Hk. discriminate Hk. Qed.

Lemma unanswered_example :
  Spec.unanswered (codec := ExampleCodec.codec) ExampleCodec.bound_light
    Examples.get_label_request StateLabel
    [Light.TimerFires; Light.Datagram Examples.foreign_reply; Light.TimerFires;
     Light.TimerFires].
Proof.
  constructor; [exact I|].
  constructor; [intros resp Hu; injection Hu as <-; intros (_ & _ & Hsrc);
                discriminate Hsrc|].
  repeat (constructor; [exact I|]). constructor.
Qed.


(** The example session is asked to set a label of 40 characters; the
    acknowledgement arrives after one timeout.  The cached label is the
    first 32 characters. *)
Lemma set_label_truncates_to_32_characters_witness :
  (∃ self' lp',
     Light.set_label (codec := ExampleCodec.codec)
       ExampleCodec.bound_light ExampleCodec.bound_loop Examples.long_label
       ([Light.TimerFires] ++ Light.Datagram Examples.ack_reply :: [])
     = (self', lp', Light.Done (Light.Returned None))
     ∧ Light._label self' = Some "01234567890123456789012345678901"
     ∧ sent lp'
       = repeat (1%nat, [Byte.x18; Byte.x01; Byte.x07], None) 2)
  ∧ String.length Examples.long_label = 40%nat.
Proof.
  split; [|reflexivity].
  apply (set_label_truncates_to_32_characters (codec := ExampleCodec.codec)
           ExampleCodec.bound_light ExampleCodec.bound_loop Examples.long_label 1%nat
           [Light.TimerFires] Examples.ack_reply
           {| msg_type := Acknowledgement; target_addr := "d0:73:d5:00:00:01";
              source_id := 7; seq_num := 1; payload := [];
              ack_requested := false; response_requested := false |} []).
  - reflexivity.
  - reflexivity.
  - exact events_allocated_bound.
  - repeat constructor.
  - vm_compute. lia.
  - reflexivity.
  - repeat split.
Defined.

(** Two requests on the example session with 126 others between them. *)
Lemma sequence_numbers_distinct_within_a_cycle_witness :
  ∃ f1 f2,
    Light.calls Examples.asking !! 0%nat = Some (Light.Suspended f1)
    ∧ Light.calls
        (Light.step (codec := ExampleCodec.codec)
           (Light.exec (codec := ExampleCodec.codec) Examples.asking
              (repeat (Light.ReqWithResp GetLabel StateLabel None) 126))
           (Light.ReqWithAck SetLabel [])) !! 127%nat = Some (Light.Suspended f2)
    ∧ seq_num (Light.msg f1) ≠ seq_num (Light.msg f2).
Proof.
  assert (Hfew : (Spec.requests (repeat (Light.ReqWithResp GetLabel StateLabel None) 126)
                  < 127)%nat) by (vm_compute; lia).
  pose proof (sequence_numbers_distinct_within_a_cycle (codec := ExampleCodec.codec)
                Examples.idle (Light.ReqWithResp GetLabel StateLabel None)
                (repeat (Light.ReqWithResp GetLabel StateLabel None) 126)
                (Light.ReqWithAck SetLabel [])
                eq_refl eq_refl Hfew) as (_ & Hcalls & _).
  do 2 eexists.
  split; [vm_compute; reflexivity|]. split; [vm_compute; reflexivity|].
  eapply Hcalls; vm_compute; reflexivity.
Defined.

(** ** Where the code departs from the specification *)


(** C3 as stated fails: on the example session 129 requests are started
    and none has completed; all 129 are outstanding, and the first and the
    last both hold sequence number 1. *)
Lemma sequence_number_shared_after_a_full_cycle :
  length (Light.outstanding Examples.crowded) = 129%nat
  ∧ Light.outstanding Examples.crowded !! 0%nat = Some 1
  ∧ Light.outstanding Examples.crowded !! 128%nat = Some 1
  ∧ ¬ Spec.no_shared_sequence_number Examples.crowded.
Proof.
  split; [vm_compute; reflexivity|]. split; [vm_compute; reflexivity|].
  split; [vm_compute; reflexivity|].
  unfold Spec.no_shared_sequence_number.
  apply (bool_decide_eq_false_1 _). vm_compute. reflexivity.
Qed.

(** C4 as stated fails: for [01:23:45:67:89:ab] and prefix [fd00:1234] the
    group after the prefix is [0323], not [2145]. *)
Lemma mac_to_ipv6_first_group_is_0323 :
  match Ipv6._mac_to_ipv6_link_local "01:23:45:67:89:ab" "fd00:1234" with
  | Some s =>
      substring 10 4 s = "0323" ∧ String.prefix "fd00:1234:2145" s = false
  | None => False
  end.
Proof. vm_compute. split; reflexivity. Qed.

(** C5 as stated fails: the example session has one request outstanding
    when [renew] is given another address.  Afterwards the entry of the
    request is still in the table, and once the new transport is connected
    the call retransmits on it at its next timeout and returns the reply:
    the outstanding state was not torn down and the request did not fail. *)
Lemma renew_leaves_outstanding_request_in_place :
  Light._ip_addr (Light.light Examples.asking) ≠ "192.168.1.99"
  ∧ Light._message (Light.light Examples.moved)
    = Light._message (Light.light Examples.asking)
  ∧ Light._message (Light.light Examples.moved) !! 1
    = Some {| Light.response_type := StateLabel; Light.event := Some 2%nat;
              Light.response := None |}
  ∧ Light.calls
      (Light.exec (codec := ExampleCodec.codec) Examples.moved
         [Light.ConnectionMade 2; Light.TimerExpired 0; Light.Receive Examples.state_label_reply;
          Light.Wake 0])
    = [Light.Done (Light.Returned (ExampleCodec.unpack Examples.state_label_reply))]
  ∧ ExampleCodec.unpack Examples.state_label_reply ≠ None.
Proof.
  split; [vm_compute; discriminate|].
  split; [vm_compute; reflexivity|].
  split; [vm_compute; reflexivity|].
  split; [vm_compute; reflexivity|].
  vm_compute. discriminate.
Qed.

(** * Further properties of the code *)

(** ** Device session: lifecycle *)

(** X1: [cleanup] closes the transport and cancels the endpoint task the
    session has, each once, and leaves it not alive with table, counter and
    address as they were; a second [cleanup] does nothing at all. *)
Theorem cleanup_tears_down_once :
  ∀ (self : Light.t) (lp : Loop),
    Light.is_alive (fst (Light.cleanup self lp)) = false
    ∧ closed (snd (Light.cleanup self lp)) = closed lp ++ option_list (Light._transport self)
    ∧ cancelled (snd (Light.cleanup self lp))
      = cancelled lp ++ option_list (Light._task self)
    ∧ Light._message (fst (Light.cleanup self lp)) = Light._message self
    ∧ Light._seq (fst (Light.cleanup self lp)) = Light._seq self
    ∧ Light._ip_addr (fst (Light.cleanup self lp)) = Light._ip_addr self
    ∧ Light.cleanup (fst (Light.cleanup self lp)) (snd (Light.cleanup self lp))
      = Light.cleanup self lp.
Proof.
  intros self lp. rewrite cleanup_spec. cbn [fst snd].
  repeat match goal with |- _ ∧ _ => split end; try reflexivity;
    rewrite cleanup_spec; cbn; now rewrite !app_nil_r.
Qed.

Lemma renew_spec :
  ∀ (self : Light.t) (lp : Loop) (family : Family) (ip_addr : string) (port : Z),
    Light._ip_addr (fst (Light.renew self lp family ip_addr port)) = ip_addr
    ∧ Light._port (fst (Light.renew self lp family ip_addr port)) = port
    ∧ is_Some (Light._task (fst (Light.renew self lp family ip_addr port)))
    ∧ last (created (snd (Light.renew self lp family ip_addr port)))
      = Some (Nat.pred (next_id (snd (Light.renew self lp family ip_addr port))),
              AsyncRegister (Light._mac_addr self))
    ∧ Light._message (fst (Light.renew self lp family ip_addr port)) = Light._message self
    ∧ Light._seq (fst (Light.renew self lp family ip_addr port)) = Light._seq self
    ∧ Light._source_id (fst (Light.renew self lp family ip_addr port))
      = Light._source_id self
    ∧ events (snd (Light.renew self lp family ip_addr port)) = events lp
    ∧ sent (snd (Light.renew self lp family ip_addr port)) = sent lp.
Proof.
  intros self lp family ip_addr port. unfold Light.renew.
  destruct (String.eqb_spec (Light._ip_addr self) ip_addr) as [Hip|Hip];
    destruct (Z.eqb_spec (Light._port self) port) as [Hport|Hport];
    cbn [negb orb]; rewrite ?cleanup_spec; cbn;
    try (destruct (Light._task self) as [k|] eqn:Hk; cbn);
    repeat match goal with |- _ ∧ _ => split end;
    first [ reflexivity | assumption | eexists; reflexivity
          | rewrite Hk; eexists; reflexivity
          | rewrite last_snoc; reflexivity
          | rewrite app_assoc, last_snoc; reflexivity ].
Qed.

(** X2: whatever the session was, after [renew] it holds the requested
    address and an endpoint task, the last task created is the metadata
    refresh, and the table of outstanding requests, the sequence counter,
    the source id, the events and the datagrams sent are untouched. *)
Theorem renew_leaves_session_bound_to_request :
  ∀ (self : Light.t) (lp : Loop) (family : Family) (ip_addr : string) (port : Z),
    Light._ip_addr (fst (Light.renew self lp family ip_addr port)) = ip_addr
    ∧ Light._port (fst (Light.renew self lp family ip_addr port)) = port
    ∧ is_Some (Light._task (fst (Light.renew self lp family ip_addr port)))
    ∧ last (created (snd (Light.renew self lp family ip_addr port)))
      = Some (Nat.pred (next_id (snd (Light.renew self lp family ip_addr port))),
              AsyncRegister (Light._mac_addr self))
    ∧ Light._message (fst (Light.renew self lp family ip_addr port)) = Light._message self
    ∧ Light._seq (fst (Light.renew self lp family ip_addr port)) = Light._seq self
    ∧ Light._source_id (fst (Light.renew self lp family ip_addr port))
      = Light._source_id self
    ∧ events (snd (Light.renew self lp family ip_addr port)) = events lp
    ∧ sent (snd (Light.renew self lp family ip_addr port)) = sent lp.
Proof. exact renew_spec. Qed.

Lemma first_renew_spec :
  ∀ (mac ip_addr : string) (port source : Z) (lp : Loop) (family : Family) (tr : nat),
    let bound := Light.renew (Light.__init__ mac ip_addr port source) lp family ip_addr port in
    closed (snd bound) = closed lp
    ∧ cancelled (snd bound) = cancelled lp
    ∧ created (snd bound)
      = created lp ++ [(next_id lp, CreateDatagramEndpoint family ip_addr port);
                       (S (next_id lp), AsyncRegister (Light.lower mac))]
    ∧ Light.is_alive (fst bound) = false
    ∧ Light.is_alive (Light.connection_made (fst bound) tr) = true.
Proof.
  intros mac ip_addr port source lp family tr bound. subst bound.
  unfold Light.renew. cbn [Light.__init__ Light._ip_addr Light._port Light._task].
  rewrite String.eqb_refl, Z.eqb_refl. cbn. rewrite <- app_assoc.
  repeat split.
Qed.

(** X3: a light just constructed is bound by its first [renew] to the
    address it was constructed with: nothing is closed or cancelled, one
    endpoint task and the metadata refresh are created, and the light is
    alive only once [connection_made] has delivered the transport. *)
Theorem new_light_is_alive_after_connection :
  ∀ (mac ip_addr : string) (port source : Z) (lp : Loop) (family : Family) (tr : nat),
    let bound := Light.renew (Light.__init__ mac ip_addr port source) lp family ip_addr port in
    closed (snd bound) = closed lp
    ∧ cancelled (snd bound) = cancelled lp
    ∧ created (snd bound)
      = created lp ++ [(next_id lp, CreateDatagramEndpoint family ip_addr port);
                       (S (next_id lp), AsyncRegister (Light.lower mac))]
    ∧ Light.is_alive (fst bound) = false
    ∧ Light.is_alive (Light.connection_made (fst bound) tr) = true.
Proof. exact first_renew_spec. Qed.

Lemma renew_live_same_address (self : Light.t) (lp : Loop) (family : Family) :
  Light.is_alive self = true →
  Light.renew self lp family (Light._ip_addr self) (Light._port self)
    = (self, Light._register self lp)
  ∧ closed (Light._register self lp) = closed lp
  ∧ cancelled (Light._register self lp) = cancelled lp
  ∧ created (Light._register self lp)
    = created lp ++ [(next_id lp, AsyncRegister (Light._mac_addr self))].
Proof.
  intros Halive. unfold Light.renew, Light.is_alive in *.
  rewrite String.eqb_refl, Z.eqb_refl. cbn.
  destruct (Light._transport self); [|discriminate].
  destruct (Light._task self); [|discriminate].
  repeat split.
Qed.

(** ** Device session: inbound datagrams *)

Section Inbound.
Context `{codec : Codec}.

Lemma datagram_received_frame :
  ∀ (self : Light.t) (lp : Loop) (data : bytes),
    let self' := fst (fst (Light.datagram_received self lp data)) in
    let lp' := snd (fst (Light.datagram_received self lp data)) in
    dom (Light._message self') = dom (Light._message self)
    ∧ (∀ k, Light.response_type <$> Light._message self' !! k
            = Light.response_type <$> Light._message self !! k)
    ∧ (∀ k, Light.event <$> Light._message self' !! k
            = Light.event <$> Light._message self !! k)
    ∧ self' = Light.set_message (Light._message self') self
    ∧ sent lp' = sent lp ∧ closed lp' = closed lp ∧ cancelled lp' = cancelled lp
    ∧ created lp' = created lp ∧ next_id lp' = next_id lp.
Proof.
  intros self lp data.
  assert (Hsame : Light.set_message (Light._message self) self = self)
    by now destruct self.
  unfold Light.datagram_received.
  destruct (unpack_lifx_message data) as [resp|]; [|cbn; now rewrite Hsame].
  destruct (Light._message self !! seq_num resp) as [en|] eqn:Hen;
    [|cbn; now rewrite Hsame].
  destruct (decide _) as [Hty|Hty]; [|cbn; now rewrite Hsame].
  destruct (decide _) as [Hsrc|Hsrc]; [|cbn; now rewrite Hsame].
  assert (Hshape : ∀ (A : Type) (g : Light.Entry → A) k,
            g {| Light.response_type := Light.response_type en;
                 Light.event := Light.event en; Light.response := Some resp |} = g en →
            g <$> <[seq_num resp :=
                      {| Light.response_type := Light.response_type en;
                         Light.event := Light.event en;
                         Light.response := Some resp |}]> (Light._message self) !! k
            = g <$> Light._message self !! k).
  { intros A g k Hg. rewrite lookup_insert.
    destruct (decide (seq_num resp = k)) as [<-|]; [|reflexivity].
    rewrite Hen. cbn. now rewrite Hg. }
  assert (Hdom : dom (<[seq_num resp :=
                         {| Light.response_type := Light.response_type en;
                            Light.event := Light.event en;
                            Light.response := Some resp |}]> (Light._message self))
                 = dom (Light._message self)).
  { rewrite dom_insert_L. apply subseteq_union_1_L, singleton_subseteq_l.
    now apply elem_of_dom_2 in Hen. }
  destruct (Light.event en) as [e|] eqn:He; cbn;
    (split; [exact Hdom|]);
    (split; [intros k; apply (Hshape _ Light.response_type); reflexivity|]);
    (split; [intros k; apply (Hshape _ Light.event); cbn; now rewrite He|]);
    repeat split.
Qed.

(** X4: a datagram never adds or removes an outstanding request and never
    changes what an entry expects or waits on: after [datagram_received]
    the table has the same keys, each entry its response type and event,
    and the session differs in the table only; the loop has sent, closed,
    cancelled and created nothing. *)
Theorem datagram_received_keeps_outstanding_requests :
  ∀ (self : Light.t) (lp : Loop) (data : bytes),
    let self' := fst (fst (Light.datagram_received self lp data)) in
    let lp' := snd (fst (Light.datagram_received self lp data)) in
    dom (Light._message self') = dom (Light._message self)
    ∧ (∀ k, Light.response_type <$> Light._message self' !! k
            = Light.response_type <$> Light._message self !! k)
    ∧ (∀ k, Light.event <$> Light._message self' !! k
            = Light.event <$> Light._message self !! k)
    ∧ self' = Light.set_message (Light._message self') self
    ∧ sent lp' = sent lp ∧ closed lp' = closed lp ∧ cancelled lp' = cancelled lp
    ∧ created lp' = created lp ∧ next_id lp' = next_id lp.
Proof. exact datagram_received_frame. Qed.

(** X5: [datagram_received] is idempotent: a datagram delivered twice in
    a row leaves the session and the loop as its first delivery left
    them, and ends the same way. *)
Theorem datagram_received_twice_is_once :
  ∀ (self : Light.t) (lp : Loop) (data : bytes)
    (self' : Light.t) (lp' : Loop) (exc : option Exc),
    Light.datagram_received self lp data = (self', lp', exc) →
    Light.datagram_received self' lp' data = (self', lp', exc).
Proof.
  intros self lp data self' lp' exc. unfold Light.datagram_received.
  destruct (unpack_lifx_message data) as [resp|]; [|intros [= <- <- <-]; reflexivity].
  destruct (Light._message self !! seq_num resp) as [en|] eqn:Hen.
  2:{ intros [= <- <- <-]. now rewrite Hen. }
  destruct (decide (msg_type resp = Light.response_type en)) as [Hty|Hty].
  2:{ intros [= <- <- <-]. rewrite Hen. now rewrite decide_False. }
  destruct (decide (source_id resp = Light._source_id self)) as [Hsrc|Hsrc].
  2:{ intros [= <- <- <-]. rewrite Hen.
      rewrite decide_True by assumption. now rewrite decide_False. }
  destruct (Light.event en) as [e|] eqn:He; intros [= <- <- <-]; cbn;
    rewrite lookup_insert_eq; cbn;
    rewrite decide_True by assumption; rewrite decide_True by assumption;
    rewrite insert_insert_eq; [|reflexivity].
  unfold event_set. cbn. now rewrite insert_insert_eq.
Qed.

(** X6: a reply that comes after its call has ended is dropped.  Once the
    call has been woken, or has failed after its last attempt, a datagram
    with the call's sequence number changes neither session nor loop. *)
Theorem late_reply_is_dropped :
  ∀ (self : Light.t) (lp : Loop) (f : Light.Frame) (data : bytes) (resp : Message),
    unpack_lifx_message data = Some resp →
    seq_num resp = seq_num (Light.msg f) →
    (∀ self' lp' st,
       Light.woken self lp f = (self', lp', st) →
       Light.datagram_received self' lp' data = (self', lp', None))
    ∧ (∀ self' lp' st,
         Light.max_attempts f <= Light.attempts f →
         Light.timed_out self lp f = (self', lp', st) →
         Light.datagram_received self' lp' data = (self', lp', None)).
Proof.
  intros self lp f data resp Hu Hseq.
  assert (Hdrop : ∀ s l, Light._message s !! seq_num (Light.msg f) = None →
                         Light.datagram_received s l data = (s, l, None)).
  { intros s l Hnone. unfold Light.datagram_received. now rewrite Hu, Hseq, Hnone. }
  split.
  - intros self' lp' st. unfold Light.woken, Light.after_loop.
    destruct (Light._message self !! seq_num (Light.msg f)) eqn:Hen;
      intros [= <- <- <-]; apply Hdrop; cbn; [apply lookup_delete_eq | exact Hen].
  - intros self' lp' st Hout. unfold Light.timed_out.
    destruct (Z.leb_spec (Light.max_attempts f) (Light.attempts f)); [|lia].
    rewrite cleanup_spec.
    destruct (Light._message self !! seq_num (Light.msg f)) eqn:Hen;
      intros [= <- <- <-]; apply Hdrop; cbn; [apply lookup_delete_eq | exact Hen].
Qed.

(** ** Device session: the edges of the request workflow *)

(** X7: a request on a session that has no transport raises
    [AssertionError] before anything is entered or sent, but the sequence
    number it was given is used up: the session differs in [_seq] only and
    the loop not at all. *)
Theorem request_without_transport_uses_up_a_sequence_number :
  ∀ (self : Light.t) (lp : Loop) (mt rt : MsgType) (pl : list (string * PyVal))
    (tmo : option Q) (maxa : option Z),
    Light._transport self = None →
    Light._req_with_ack self lp mt pl tmo maxa
      = (Light.set_seq ((Light._seq self + 1) mod 128) self, lp,
         Light.Done (Light.Raised AssertionError))
    ∧ Light._req_with_resp self lp mt rt (Some pl) tmo maxa
      = (Light.set_seq ((Light._seq self + 1) mod 128) self, lp,
         Light.Done (Light.Raised AssertionError)).
Proof.
  intros self lp mt rt pl tmo maxa Htr.
  unfold Light._req_with_ack, Light._req_with_resp, Light._try_sending.
  cbn. rewrite Htr. split; reflexivity.
Qed.

(** X8: with [max_attempts] zero or negative the loop of [_try_sending]
    never runs: on a bound session the call returns [None] at once, sends
    and awaits nothing, and leaves no entry under its sequence number, an
    entry another call had there included. *)
Theorem try_sending_without_attempts_returns_nothing :
  ∀ (self : Light.t) (lp : Loop) (m : Message) (rt : MsgType) (tmo : option Q)
    (maxa : Z) (tr : nat),
    Light._transport self = Some tr →
    maxa <= 0 →
    Light._try_sending self lp m rt tmo (Some maxa)
    = (Light.set_message (delete (seq_num m) (Light._message self)) self, lp,
       Light.Done (Light.Returned None)).
Proof.
  intros self lp m rt tmo maxa tr Htr Hmax.
  unfold Light._try_sending, Light.loop_head, Light.after_loop. rewrite Htr.
  destruct (Z.ltb_spec 0 maxa); [lia|].
  cbn. rewrite lookup_insert_eq. cbn. now rewrite delete_insert_eq.
Qed.

(** X9: a call whose entry is no longer in the table ends without touching
    session or loop: with [RuntimeError] at a timeout that has attempts
    left, with [KeyError] when it is woken. *)
Theorem call_without_entry_fails :
  ∀ (self : Light.t) (lp : Loop) (f : Light.Frame),
    Light._message self !! seq_num (Light.msg f) = None →
    Light.woken self lp f = (self, lp, Light.Done (Light.Raised KeyError))
    ∧ (Light.attempts f < Light.max_attempts f →
       Light.timed_out self lp f = (self, lp, Light.Done (Light.Raised RuntimeError))).
Proof.
  intros self lp f Hnone. split.
  - unfold Light.woken, Light.after_loop. now rewrite Hnone.
  - intros Hleft. unfold Light.timed_out, Light.loop_head.
    destruct (Z.leb_spec (Light.max_attempts f) (Light.attempts f)); [lia|].
    destruct (Z.ltb_spec (Light.attempts f) (Light.max_attempts f)); [|lia].
    now rewrite Hnone.
Qed.

(** X10: the failure of one call takes the others with it.  When a call
    fails after its last attempt the session is torn down; any other call
    of the session that still has attempts left then ends with
    [AttributeError] at its next timeout, having sent nothing, and its
    entry stays in the table. *)
Theorem failed_call_ends_the_other_calls :
  ∀ (self : Light.t) (lp : Loop) (f g : Light.Frame) (en : Light.Entry)
    (self1 : Light.t) (lp1 : Loop) (st : Light.Status),
    Light.max_attempts f <= Light.attempts f →
    Light.timed_out self lp f = (self1, lp1, st) →
    seq_num (Light.msg g) ≠ seq_num (Light.msg f) →
    Light._message self !! seq_num (Light.msg g) = Some en →
    Light.attempts g < Light.max_attempts g →
    st = Light.Done (Light.Raised LightOffline)
    ∧ Light.is_alive self1 = false
    ∧ snd (Light.timed_out self1 lp1 g) = Light.Done (Light.Raised AttributeError)
    ∧ sent (snd (fst (Light.timed_out self1 lp1 g))) = sent lp
    ∧ is_Some (Light._message (fst (fst (Light.timed_out self1 lp1 g)))
                 !! seq_num (Light.msg g)).
Proof.
  intros self lp f g en self1 lp1 st Hout Hto Hne Hen Hleft.
  unfold Light.timed_out in Hto.
  destruct (Z.leb_spec (Light.max_attempts f) (Light.attempts f)); [|lia].
  rewrite cleanup_spec in Hto.
  assert (Hen1 : Light._message self1 !! seq_num (Light.msg g) = Some en).
  { destruct (Light._message self !! seq_num (Light.msg f));
      injection Hto as <- <- <-; cbn; [|exact Hen].
    now rewrite lookup_delete_ne by congruence. }
  assert (Htr1 : Light._transport self1 = None)
    by (destruct (Light._message self !! seq_num (Light.msg f));
        injection Hto as <- <- <-; reflexivity).
  assert (Hsent1 : sent lp1 = sent lp)
    by (destruct (Light._message self !! seq_num (Light.msg f));
        injection Hto as <- <- <-; reflexivity).
  assert (Hst : st = Light.Done (Light.Raised LightOffline))
    by (destruct (Light._message self !! seq_num (Light.msg f));
        injection Hto as <- <- <-; reflexivity).
  split; [exact Hst|]. split; [unfold Light.is_alive; now rewrite Htr1|].
  unfold Light.timed_out, Light.loop_head.
  destruct (Z.leb_spec (Light.max_attempts g) (Light.attempts g)); [lia|].
  destruct (Z.ltb_spec (Light.attempts g) (Light.max_attempts g)); [|lia].
  rewrite Hen1. cbn. rewrite Htr1. cbn.
  split; [reflexivity|]. split; [exact Hsent1|].
  rewrite lookup_insert_eq. eexists. reflexivity.
Qed.

End Inbound.

(** ** Device session: invariants of the interleaved calls *)

Section MachineInvariants.
Context `{codec : Codec}.

Lemma allocated_after_loop (self : Light.t) (lp : Loop) (m : Message) :
  Spec.events_allocated self lp →
  Spec.events_allocated (fst (fst (Light.after_loop self lp m)))
    (snd (fst (Light.after_loop self lp m))).
Proof.
  intros Ha. unfold Light.after_loop.
  destruct (Light._message self !! seq_num m) as [en0|]; [|exact Ha].
  intros k en e Hk. cbn in Hk. apply lookup_delete_Some in Hk as [_ Hk].
  exact (Ha k en e Hk).
Qed.

Lemma allocated_loop_head (self : Light.t) (lp : Loop) (m : Message) (rt : MsgType)
    (tmo : Q) (maxa att : Z) :
  Spec.events_allocated self lp →
  Spec.events_allocated (fst (fst (Light.loop_head self lp m rt tmo maxa att)))
    (snd (fst (Light.loop_head self lp m rt tmo maxa att))).
Proof.
  intros Ha. unfold Light.loop_head.
  destruct (att <? maxa); [|now apply allocated_after_loop].
  destruct (Light._message self !! seq_num m) as [en0|]; [|exact Ha].
  assert (Hnew : ∀ k en e,
            <[seq_num m := {| Light.response_type := Light.response_type en0;
                              Light.event := Some (next_id lp);
                              Light.response := Light.response en0 |}]>
              (Light._message self) !! k = Some en →
            Light.event en = Some e → (e < S (next_id lp))%nat).
  { intros k en e Hk He. rewrite lookup_insert in Hk.
    destruct (decide (seq_num m = k)) as [_|_].
    - injection Hk as <-. cbn in He. injection He as <-. lia.
    - specialize (Ha k en e Hk He). lia. }
  cbn. destruct (Light._transport self); exact Hnew.
Qed.

Lemma allocated_try_sending (self : Light.t) (lp : Loop) (m : Message) (rt : MsgType)
    (tmo : option Q) (maxa : option Z) :
  Spec.events_allocated self lp →
  Spec.events_allocated (fst (fst (Light._try_sending self lp m rt tmo maxa)))
    (snd (fst (Light._try_sending self lp m rt tmo maxa))).
Proof.
  intros Ha. unfold Light._try_sending.
  destruct (Light._transport self); [|exact Ha].
  apply allocated_loop_head. intros k en e Hk He. cbn in Hk.
  rewrite lookup_insert in Hk. destruct (decide (seq_num m = k)) as [_|_].
  - injection Hk as <-. discriminate He.
  - exact (Ha k en e Hk He).
Qed.

Lemma allocated_timed_out (self : Light.t) (lp : Loop) (f : Light.Frame) :
  Spec.events_allocated self lp →
  Spec.events_allocated (fst (fst (Light.timed_out self lp f)))
    (snd (fst (Light.timed_out self lp f))).
Proof.
  intros Ha. unfold Light.timed_out.
  destruct (_ <=? _); [|now apply allocated_loop_head].
  rewrite cleanup_spec. cbn.
  destruct (Light._message self !! seq_num (Light.msg f)) as [en0|]; cbn; [|exact Ha].
  intros k en e Hk. cbn in Hk.
  apply lookup_delete_Some in Hk as [_ Hk]. exact (Ha k en e Hk).
Qed.

Lemma allocated_datagram_received (self : Light.t) (lp : Loop) (data : bytes) :
  Spec.events_allocated self lp →
  Spec.events_allocated (fst (fst (Light.datagram_received self lp data)))
    (snd (fst (Light.datagram_received self lp data))).
Proof.
  intros Ha k en e Hk He.
  destruct (datagram_received_frame self lp data)
    as (_ & _ & Hev & _ & _ & _ & _ & _ & Hnext).
  cbv zeta in Hev, Hnext. rewrite Hnext. specialize (Hev k). rewrite Hk in Hev.
  destruct (Light._message self !! k) as [en0|] eqn:Hk0; [|discriminate Hev].
  cbn in Hev. injection Hev as Hev. apply (Ha k en0 e Hk0). congruence.
Qed.

Lemma allocated_renew (self : Light.t) (lp : Loop) (family : Family) (ip : string)
    (port : Z) :
  Spec.events_allocated self lp →
  Spec.events_allocated (fst (Light.renew self lp family ip port))
    (snd (Light.renew self lp family ip port)).
Proof.
  intros Ha k en e Hk He.
  destruct (renew_spec self lp family ip port)
    as (_ & _ & _ & _ & Htbl & _).
  rewrite Htbl in Hk. specialize (Ha k en e Hk He).
  unfold Light.renew. rewrite cleanup_spec.
  destruct (_ || _)%bool; cbn; destruct (Light._task self); cbn; lia.
Qed.

Lemma allocated_step (m : Light.Machine) (s : Light.Step) :
  Spec.events_allocated (Light.light m) (Light.loop m) →
  Spec.events_allocated (Light.light (Light.step m s)) (Light.loop (Light.step m s)).
Proof.
  intros Ha.
  destruct s as [mt pl|mt rt pl|data|i|i|family ip port|tr]; cbn.
  - unfold Light._req_with_ack. cbn.
    match goal with
    | |- context [Light._try_sending ?s ?l ?msg ?r ?a ?b] =>
        pose proof (allocated_try_sending s l msg r a b Ha) as H;
        destruct (Light._try_sending s l msg r a b) as [[s1 l1] st]
    end. exact H.
  - unfold Light._req_with_resp. cbn.
    match goal with
    | |- context [Light._try_sending ?s ?l ?msg ?r ?a ?b] =>
        pose proof (allocated_try_sending s l msg r a b Ha) as H;
        destruct (Light._try_sending s l msg r a b) as [[s1 l1] st]
    end. exact H.
  - pose proof (allocated_datagram_received (Light.light m) (Light.loop m) data Ha) as H.
    destruct (Light.datagram_received _ _ _) as [[s1 l1] e]. exact H.
  - destruct (Light.calls m !! i) as [[o|f]|]; try exact Ha.
    destruct (is_set _ _); [exact Ha|].
    pose proof (allocated_timed_out (Light.light m) (Light.loop m) f Ha) as H.
    destruct (Light.timed_out _ _ _) as [[s1 l1] st]. exact H.
  - destruct (Light.calls m !! i) as [[o|f]|]; try exact Ha.
    destruct (is_set _ _); [|exact Ha].
    pose proof (allocated_after_loop (Light.light m) (Light.loop m) (Light.msg f) Ha) as H.
    unfold Light.woken. destruct (Light.after_loop _ _ _) as [[s1 l1] st]. exact H.
  - pose proof (allocated_renew (Light.light m) (Light.loop m) family ip port Ha) as H.
    destruct (Light.renew _ _ _ _ _) as [s1 l1]. exact H.
  - exact Ha.
Qed.

(** X11: the events of the table are the loop's own.  From a new session,
    whatever requests, datagrams, timeouts, wake-ups, rebindings and
    connections follow, every event held by an entry of the table has an
    identity the loop has given out. *)
Theorem events_in_table_are_allocated :
  ∀ (mac ip_addr : string) (port source : Z) (lp : Loop) (steps : list Light.Step),
    Spec.events_allocated
      (Light.light (Light.exec (Invariants.new_machine mac ip_addr port source lp) steps))
      (Light.loop (Light.exec (Invariants.new_machine mac ip_addr port source lp) steps)).
Proof.
  intros mac ip_addr port source lp steps.
  assert (Hinit : Spec.events_allocated
                    (Light.light (Invariants.new_machine mac ip_addr port source lp))
                    (Light.loop (Invariants.new_machine mac ip_addr port source lp)))
    by (intros k en e Hk; cbn in Hk; now rewrite lookup_empty in Hk).
  revert Hinit. generalize (Invariants.new_machine mac ip_addr port source lp).
  unfold Light.exec. induction steps as [|s steps IH]; intros m Hm; cbn; [exact Hm|].
  apply IH. now apply allocated_step.
Qed.

Lemma loop_head_suspended (self : Light.t) (lp : Loop) (m : Message) (rt : MsgType)
    (tmo : Q) (maxa att : Z) (f : Light.Frame) :
  snd (Light.loop_head self lp m rt tmo maxa att) = Light.Suspended f →
  Light.attempts f = att + 1 ∧ Light.max_attempts f = maxa ∧ att < maxa.
Proof.
  unfold Light.loop_head. destruct (Z.ltb_spec att maxa) as [Hlt|Hge].
  - destruct (Light._message self !! seq_num m); [|discriminate].
    cbn. destruct (Light._transport self); [|discriminate].
    cbn. intros [= <-]. cbn. auto.
  - unfold Light.after_loop. now destruct (Light._message self !! seq_num m).
Qed.

Lemma bounds_started (m : Light.Machine) (r : Light.t * Loop * Light.Status) :
  Invariants.attempts_in_bounds m →
  (∀ f, snd r = Light.Suspended f → 1 <= Light.attempts f <= Light.max_attempts f) →
  Invariants.attempts_in_bounds (Light.started m r).
Proof.
  intros Hm Hr. destruct r as [[s l] st]. unfold Invariants.attempts_in_bounds. cbn.
  apply Forall_app. split; [exact Hm|]. constructor; [|constructor].
  destruct st as [o|f]; [exact I|]. now apply Hr.
Qed.

Lemma bounds_try_sending (self : Light.t) (lp : Loop) (m : Message) (rt : MsgType)
    (tmo : option Q) (maxa : option Z) (f : Light.Frame) :
  snd (Light._try_sending self lp m rt tmo maxa) = Light.Suspended f →
  1 <= Light.attempts f <= Light.max_attempts f.
Proof.
  unfold Light._try_sending. destruct (Light._transport self); [|discriminate].
  intros H. apply loop_head_suspended in H. lia.
Qed.

Lemma bounds_step (m : Light.Machine) (s : Light.Step) :
  Invariants.attempts_in_bounds m → Invariants.attempts_in_bounds (Light.step m s).
Proof.
  intros Hm.
  destruct s as [mt pl|mt rt pl|data|i|i|family ip port|tr]; cbn.
  - apply bounds_started; [exact Hm|]. unfold Light._req_with_ack. cbn.
    apply bounds_try_sending.
  - apply bounds_started; [exact Hm|]. unfold Light._req_with_resp. cbn.
    apply bounds_try_sending.
  - destruct (Light.datagram_received _ _ _) as [[s1 l1] e]. exact Hm.
  - destruct (Light.calls m !! i) as [[o|f]|] eqn:Hi; try exact Hm.
    destruct (is_set _ _); [exact Hm|].
    pose proof (timed_out_progress (Light.light m) (Light.loop m) f) as Hp.
    destruct (Light.timed_out _ _ _) as [[s1 l1] st].
    specialize (Hp s1 l1 st eq_refl). unfold Invariants.attempts_in_bounds. cbn.
    apply Forall_insert; [exact Hm|].
    destruct st as [o|f']; [exact I|].
    unfold Invariants.attempts_in_bounds in Hm.
    rewrite Forall_lookup in Hm. specialize (Hm i _ Hi). cbn in Hm. lia.
  - destruct (Light.calls m !! i) as [[o|f]|] eqn:Hi; try exact Hm.
    destruct (is_set _ _); [|exact Hm].
    unfold Light.woken, Light.after_loop.
    destruct (Light._message (Light.light m) !! seq_num (Light.msg f));
      unfold Invariants.attempts_in_bounds; cbn;
      (apply Forall_insert; [exact Hm | exact I]).
  - destruct (Light.renew _ _ _ _ _) as [s1 l1]. exact Hm.
  - exact Hm.
Qed.

(** X12: no call ever goes beyond its attempts.  From a new session,
    whatever steps follow, every call that is suspended has made at least
    one attempt and at most [max_attempts] of them. *)
Theorem suspended_calls_stay_within_their_attempts :
  ∀ (mac ip_addr : string) (port source : Z) (lp : Loop) (steps : list Light.Step),
    Invariants.attempts_in_bounds
      (Light.exec (Invariants.new_machine mac ip_addr port source lp) steps).
Proof.
  intros mac ip_addr port source lp steps.
  assert (Hinit : Invariants.attempts_in_bounds
                    (Invariants.new_machine mac ip_addr port source lp))
    by constructor.
  revert Hinit. generalize (Invariants.new_machine mac ip_addr port source lp).
  unfold Light.exec. induction steps as [|s steps IH]; intros m Hm; cbn; [exact Hm|].
  apply IH. now apply bounds_step.
Qed.

End MachineInvariants.

(** ** Discovery: the wake loop *)

Section WakeLoop.
Context `{codec : Codec}.

Lemma fold_log_frame {A} (f : A → LogRecord) (xs : list A) :
  ∀ lp, scheduled (fold_left (λ l x, log (f x) l) xs lp) = scheduled lp
        ∧ sent (fold_left (λ l x, log (f x) l) xs lp) = sent lp.
Proof.
  induction xs as [|x xs IH]; intros lp; cbn; [split; reflexivity|].
  destruct (IH (log (f x) lp)) as [-> ->]. split; reflexivity.
Qed.

Lemma discover_sweep :
  ∀ (self : LifxDiscoveryProtocol.t) (lp : Loop) (tr : nat) (mac : string)
    (light : Light.t),
    LifxDiscoveryProtocol._transport self = Some tr →
    (LifxDiscoveryProtocol._seen (fst (LifxDiscoveryProtocol._discover self lp)) !! mac
       = Some light
     ↔ LifxDiscoveryProtocol._seen self !! mac = Some light
       ∧ Light.is_alive light = true).
Proof.
  intros self lp tr mac light Htr. unfold LifxDiscoveryProtocol._discover. rewrite Htr.
  cbn [LifxDiscoveryProtocol.set_seen LifxDiscoveryProtocol._discovery_countdown
       LifxDiscoveryProtocol._discovery_step LifxDiscoveryProtocol._discovery_interval].
  destruct (_ <=? _); cbn; apply map_lookup_filter_Some.
Qed.

(** X13: the liveness sweep.  After a wake the registry holds exactly the
    lights it held before that are alive, under the same keys: a light
    whose transport or endpoint task is missing is dropped, a live one is
    kept as it is. *)
Theorem discover_keeps_exactly_the_live_lights :
  ∀ (self : LifxDiscoveryProtocol.t) (lp : Loop) (tr : nat) (mac : string)
    (light : Light.t),
    LifxDiscoveryProtocol._transport self = Some tr →
    (LifxDiscoveryProtocol._seen (fst (LifxDiscoveryProtocol._discover self lp)) !! mac
       = Some light
     ↔ LifxDiscoveryProtocol._seen self !! mac = Some light
       ∧ Light.is_alive light = true).
Proof. exact discover_sweep. Qed.

(** X14: the wake loop keeps itself going only while the protocol has a
    transport.  A wake with a transport asks for exactly one further wake,
    [discovery_step] seconds later, and changes neither the transport nor
    the two intervals; a wake without a transport does nothing at all, so
    no further wake comes. *)
Theorem discover_reschedules_while_bound :
  ∀ (self : LifxDiscoveryProtocol.t) (lp : Loop),
    (LifxDiscoveryProtocol._transport self = None →
     LifxDiscoveryProtocol._discover self lp = (self, lp))
    ∧ (∀ tr,
         LifxDiscoveryProtocol._transport self = Some tr →
         scheduled (snd (LifxDiscoveryProtocol._discover self lp))
           = scheduled lp ++ [(LifxDiscoveryProtocol._discovery_step self, Discover)]
         ∧ LifxDiscoveryProtocol._transport (fst (LifxDiscoveryProtocol._discover self lp))
           = Some tr
         ∧ LifxDiscoveryProtocol._discovery_step
             (fst (LifxDiscoveryProtocol._discover self lp))
           = LifxDiscoveryProtocol._discovery_step self
         ∧ LifxDiscoveryProtocol._discovery_interval
             (fst (LifxDiscoveryProtocol._discover self lp))
           = LifxDiscoveryProtocol._discovery_interval self).
Proof.
  intros self lp. unfold LifxDiscoveryProtocol._discover. split.
  - intros Htr. now rewrite Htr.
  - intros tr Htr. rewrite Htr.
    cbn [LifxDiscoveryProtocol.set_seen LifxDiscoveryProtocol._discovery_countdown
         LifxDiscoveryProtocol._discovery_step LifxDiscoveryProtocol._discovery_interval].
    destruct (_ <=? _); cbn;
      rewrite (proj1 (fold_log_frame
                        (λ kv : string * Light.t,
                           {| level := INFO; text := "Dropping light %s";
                              subject := Light.__str__ (snd kv); exc_info := None |})
                        _ lp));
      repeat split; exact Htr.
Qed.

(** One wake, by the sign of the countdown. *)
Lemma discover_one_wake (self : LifxDiscoveryProtocol.t) (lp : Loop) (tr : nat) :
  LifxDiscoveryProtocol._transport self = Some tr →
  LifxDiscoveryProtocol._transport (fst (LifxDiscoveryProtocol._discover self lp)) = Some tr
  ∧ LifxDiscoveryProtocol._discovery_step (fst (LifxDiscoveryProtocol._discover self lp))
    = LifxDiscoveryProtocol._discovery_step self
  ∧ LifxDiscoveryProtocol._discovery_interval
      (fst (LifxDiscoveryProtocol._discover self lp))
    = LifxDiscoveryProtocol._discovery_interval self
  ∧ (LifxDiscoveryProtocol._discovery_countdown self <= 0 →
     LifxDiscoveryProtocol._discovery_countdown
       (fst (LifxDiscoveryProtocol._discover self lp))
     = LifxDiscoveryProtocol._discovery_interval self
     ∧ length (sent (snd (LifxDiscoveryProtocol._discover self lp)))
       = S (length (sent lp)))
  ∧ (0 < LifxDiscoveryProtocol._discovery_countdown self →
     LifxDiscoveryProtocol._discovery_countdown
       (fst (LifxDiscoveryProtocol._discover self lp))
     = LifxDiscoveryProtocol._discovery_countdown self
       - LifxDiscoveryProtocol._discovery_step self
     ∧ sent (snd (LifxDiscoveryProtocol._discover self lp)) = sent lp).
Proof.
  intros Htr. unfold LifxDiscoveryProtocol._discover. rewrite Htr.
  cbn [LifxDiscoveryProtocol.set_seen LifxDiscoveryProtocol._discovery_countdown
       LifxDiscoveryProtocol._discovery_step LifxDiscoveryProtocol._discovery_interval].
  destruct (Z.leb_spec (LifxDiscoveryProtocol._discovery_countdown self) 0) as [Hle|Hgt];
    cbn;
    rewrite ?length_app;
    rewrite ?(proj2 (fold_log_frame
                       (λ kv : string * Light.t,
                          {| level := INFO; text := "Dropping light %s";
                             subject := Light.__str__ (snd kv); exc_info := None |})
                       _ lp));
    (split; [exact Htr|]); (split; [reflexivity|]); (split; [reflexivity|]);
    split; intros Hsign; try lia; split; try reflexivity.
  cbn. lia.
Qed.

Lemma wakes_unfold (n : nat) (self : LifxDiscoveryProtocol.t) (lp : Loop) :
  LifxDiscoveryProtocol.wakes (S n) self lp
  = (length (sent (snd (LifxDiscoveryProtocol._discover self lp))) - length (sent lp))%nat
      :: LifxDiscoveryProtocol.wakes n (fst (LifxDiscoveryProtocol._discover self lp))
           (snd (LifxDiscoveryProtocol._discover self lp))
  ∧ LifxDiscoveryProtocol.run_wakes (S n) self lp
    = LifxDiscoveryProtocol.run_wakes n (fst (LifxDiscoveryProtocol._discover self lp))
        (snd (LifxDiscoveryProtocol._discover self lp)).
Proof.
  cbn [LifxDiscoveryProtocol.wakes LifxDiscoveryProtocol.run_wakes].
  now destruct (LifxDiscoveryProtocol._discover self lp).
Qed.

Lemma wakes_app (n k : nat) :
  ∀ self lp,
    LifxDiscoveryProtocol.wakes (n + k) self lp
    = LifxDiscoveryProtocol.wakes n self lp
        ++ LifxDiscoveryProtocol.wakes k
             (fst (LifxDiscoveryProtocol.run_wakes n self lp))
             (snd (LifxDiscoveryProtocol.run_wakes n self lp))
    ∧ LifxDiscoveryProtocol.run_wakes (n + k) self lp
      = LifxDiscoveryProtocol.run_wakes k
          (fst (LifxDiscoveryProtocol.run_wakes n self lp))
          (snd (LifxDiscoveryProtocol.run_wakes n self lp)).
Proof.
  induction n as [|n IH]; intros self lp; [split; reflexivity|].
  cbn [Nat.add]. destruct (wakes_unfold (n + k) self lp) as [-> ->].
  destruct (wakes_unfold n self lp) as [-> ->].
  destruct (IH (fst (LifxDiscoveryProtocol._discover self lp))
               (snd (LifxDiscoveryProtocol._discover self lp))) as [-> ->].
  split; reflexivity.
Qed.

Lemma discover_quiet_wakes (q : nat) :
  ∀ self lp tr,
    LifxDiscoveryProtocol._transport self = Some tr →
    0 < LifxDiscoveryProtocol._discovery_step self →
    (Z.of_nat q - 1) * LifxDiscoveryProtocol._discovery_step self
      < LifxDiscoveryProtocol._discovery_countdown self
      <= Z.of_nat q * LifxDiscoveryProtocol._discovery_step self →
    LifxDiscoveryProtocol.wakes q self lp = repeat 0%nat q
    ∧ LifxDiscoveryProtocol._discovery_countdown
        (fst (LifxDiscoveryProtocol.run_wakes q self lp)) <= 0
    ∧ LifxDiscoveryProtocol._transport
        (fst (LifxDiscoveryProtocol.run_wakes q self lp)) = Some tr
    ∧ LifxDiscoveryProtocol._discovery_step
        (fst (LifxDiscoveryProtocol.run_wakes q self lp))
      = LifxDiscoveryProtocol._discovery_step self
    ∧ LifxDiscoveryProtocol._discovery_interval
        (fst (LifxDiscoveryProtocol.run_wakes q self lp))
      = LifxDiscoveryProtocol._discovery_interval self.
Proof.
  induction q as [|q IH]; intros self lp tr Htr Hstep Hcd.
  - cbn in *. repeat split; auto; lia.
  - destruct (wakes_unfold q self lp) as [-> ->].
    destruct (discover_one_wake self lp tr Htr) as (Ht & Hs & Hi & _ & Hquiet).
    destruct Hquiet as [Hc Hsent]; [nia|].
    destruct (IH (fst (LifxDiscoveryProtocol._discover self lp))
                 (snd (LifxDiscoveryProtocol._discover self lp)) tr Ht)
      as (Hw & Hc' & Ht' & Hs' & Hi'); [lia | rewrite Hc, Hs; lia |].
    rewrite Hw, Hsent, Hs', Hi', Hs, Hi. cbn [repeat].
    repeat split; try assumption. f_equal. lia.
Qed.

Lemma discover_one_period (q : nat) :
  ∀ self lp tr,
    LifxDiscoveryProtocol._transport self = Some tr →
    0 < LifxDiscoveryProtocol._discovery_step self →
    (Z.of_nat q - 1) * LifxDiscoveryProtocol._discovery_step self
      < LifxDiscoveryProtocol._discovery_interval self
      <= Z.of_nat q * LifxDiscoveryProtocol._discovery_step self →
    LifxDiscoveryProtocol._discovery_countdown self <= 0 →
    LifxDiscoveryProtocol.wakes (S q) self lp = 1%nat :: repeat 0%nat q
    ∧ LifxDiscoveryProtocol._discovery_countdown
        (fst (LifxDiscoveryProtocol.run_wakes (S q) self lp)) <= 0
    ∧ LifxDiscoveryProtocol._transport
        (fst (LifxDiscoveryProtocol.run_wakes (S q) self lp)) = Some tr
    ∧ LifxDiscoveryProtocol._discovery_step
        (fst (LifxDiscoveryProtocol.run_wakes (S q) self lp))
      = LifxDiscoveryProtocol._discovery_step self
    ∧ LifxDiscoveryProtocol._discovery_interval
        (fst (LifxDiscoveryProtocol.run_wakes (S q) self lp))
      = LifxDiscoveryProtocol._discovery_interval self.
Proof.
  intros self lp tr Htr Hstep Hint Hcd.
  destruct (wakes_unfold q self lp) as [-> ->].
  destruct (discover_one_wake self lp tr Htr) as (Ht & Hs & Hi & Hprobe & _).
  destruct (Hprobe Hcd) as [Hc Hsent].
  destruct (discover_quiet_wakes q (fst (LifxDiscoveryProtocol._discover self lp))
              (snd (LifxDiscoveryProtocol._discover self lp)) tr Ht)
    as (Hw & Hc' & Ht' & Hs' & Hi'); [lia | rewrite Hc, Hs; lia |].
  rewrite Hw, Hsent, Hs', Hi', Hs, Hi.
  repeat split; try assumption. f_equal. lia.
Qed.

(** X15: the probe period for any interval and any positive step.  When
    [q] is the interval divided by the step, rounded up, a protocol whose
    countdown has run out probes on the first wake of every [q + 1]: for
    every [n], its next [n * (q + 1)] wakes are [n] times one probing wake
    followed by [q] wakes that send nothing. *)
Theorem discover_probes_every_q_plus_one_wakes :
  ∀ (q n : nat) (self : LifxDiscoveryProtocol.t) (lp : Loop) (tr : nat),
    LifxDiscoveryProtocol._transport self = Some tr →
    0 < LifxDiscoveryProtocol._discovery_step self →
    (Z.of_nat q - 1) * LifxDiscoveryProtocol._discovery_step self
      < LifxDiscoveryProtocol._discovery_interval self
      <= Z.of_nat q * LifxDiscoveryProtocol._discovery_step self →
    LifxDiscoveryProtocol._discovery_countdown self <= 0 →
    LifxDiscoveryProtocol.wakes (n * S q) self lp
    = concat (repeat (1%nat :: repeat 0%nat q) n).
Proof.
  intros q n. induction n as [|n IH]; intros self lp tr Htr Hstep Hint Hcd;
    [reflexivity|].
  cbn [Nat.mul]. destruct (wakes_app (S q) (n * S q) self lp) as [-> _].
  destruct (discover_one_period q self lp tr Htr Hstep Hint Hcd)
    as (Hw & Hc & Ht & Hs & Hi).
  rewrite Hw. cbn [repeat concat]. f_equal.
  apply (IH _ _ tr Ht); [rewrite Hs | rewrite Hs, Hi | exact Hc]; assumption.
Qed.

Lemma discover_never_again (n : nat) :
  ∀ self lp tr,
    LifxDiscoveryProtocol._transport self = Some tr →
    LifxDiscoveryProtocol._discovery_step self <= 0 →
    0 < LifxDiscoveryProtocol._discovery_countdown self →
    LifxDiscoveryProtocol.wakes n self lp = repeat 0%nat n.
Proof.
  induction n as [|n IH]; intros self lp tr Htr Hstep Hcd; [reflexivity|].
  destruct (wakes_unfold n self lp) as [-> _].
  destruct (discover_one_wake self lp tr Htr) as (Ht & Hs & _ & _ & Hquiet).
  destruct (Hquiet Hcd) as [Hc Hsent].
  rewrite Hsent, (IH _ _ tr Ht); [|rewrite Hs; exact Hstep | rewrite Hc; lia].
  cbn [repeat]. f_equal. lia.
Qed.

(** X16: a step that is zero or negative stops the probing.  With a
    positive interval and such a step the protocol probes on its first
    wake and on no wake after it, however many follow. *)
Theorem discover_with_nonpositive_step_probes_once :
  ∀ (n : nat) (self : LifxDiscoveryProtocol.t) (lp : Loop) (tr : nat),
    LifxDiscoveryProtocol._transport self = Some tr →
    LifxDiscoveryProtocol._discovery_step self <= 0 →
    0 < LifxDiscoveryProtocol._discovery_interval self →
    LifxDiscoveryProtocol._discovery_countdown self <= 0 →
    LifxDiscoveryProtocol.wakes (S n) self lp = 1%nat :: repeat 0%nat n.
Proof.
  intros n self lp tr Htr Hstep Hint Hcd.
  destruct (wakes_unfold n self lp) as [-> _].
  destruct (discover_one_wake self lp tr Htr) as (Ht & Hs & Hi & Hprobe & _).
  destruct (Hprobe Hcd) as [Hc Hsent].
  rewrite Hsent, (discover_never_again n _ _ tr Ht);
    [|rewrite Hs; exact Hstep | rewrite Hc; exact Hint].
  f_equal. lia.
Qed.

End WakeLoop.

(** ** Discovery: inbound datagrams *)

Section DiscoveryEvents.
Context `{codec : Codec} `{fields : Discovery.ServiceFields}.

(** X17: what is no discovery event is ignored.  A packet whose target is
    the broadcast placeholder, a [StateService] for another service than
    UDP, and a packet of any class other than [StateService] and
    [LightState] change neither the protocol nor the loop. *)
Theorem discovery_ignores_other_packets :
  ∀ (self : LifxDiscoveryProtocol.t) (lp : Loop) (data : bytes) (addr : string * Z)
    (source : Z) (response : Message),
    unpack_lifx_message data = Some response →
    target_addr response = BROADCAST_MAC
    ∨ (msg_type response = StateService ∧ Discovery.service response ≠ 1)
    ∨ (msg_type response ≠ StateService ∧ msg_type response ≠ LightState) →
    Discovery.datagram_received self lp data addr source = (self, lp, None).
Proof.
  intros self lp data addr source response Hu Hcase.
  unfold Discovery.datagram_received. rewrite Hu.
  destruct (String.eqb_spec (target_addr response) BROADCAST_MAC) as [|Hmac];
    [reflexivity|].
  destruct Hcase as [Hb | [[Hty Hsvc] | [Hn1 Hn2]]]; [contradiction | |].
  - unfold Discovery.remote_port_of. rewrite Hty.
    destruct (Z.eqb_spec (Discovery.service response) 1); [contradiction | reflexivity].
  - unfold Discovery.remote_port_of.
    destruct (msg_type response); try reflexivity; contradiction.
Qed.

(** The registry after a discovery event. *)
Lemma discovery_event (self : LifxDiscoveryProtocol.t) (lp : Loop) (data : bytes)
    (addr : string * Z) (source : Z) (response : Message) (remote_port : Z)
    (family : Family) (remote_ip : string) :
  unpack_lifx_message data = Some response →
  target_addr response ≠ BROADCAST_MAC →
  Discovery.remote_port_of response = Some remote_port →
  (Discovery.configured_prefix self = None ∧ family = AF_INET ∧ remote_ip = fst addr)
  ∨ (∃ prefix, Discovery.configured_prefix self = Some prefix
               ∧ Ipv6._mac_to_ipv6_link_local (target_addr response) prefix
                 = Some remote_ip
               ∧ family = AF_INET6) →
  ∃ lp1,
    Discovery.datagram_received self lp data addr source
    = (LifxDiscoveryProtocol.set_seen
         (<[target_addr response :=
              fst (Light.renew
                     (default (Light.__init__ (target_addr response) remote_ip
                                 remote_port source)
                        (LifxDiscoveryProtocol._seen self !! target_addr response))
                     lp1 family remote_ip remote_port)]>
            (LifxDiscoveryProtocol._seen self)) self,
       snd (Light.renew
              (default (Light.__init__ (target_addr response) remote_ip remote_port source)
                 (LifxDiscoveryProtocol._seen self !! target_addr response))
              lp1 family remote_ip remote_port),
       None)
    ∧ closed lp1 = closed lp ∧ cancelled lp1 = cancelled lp
    ∧ created lp1 = created lp ∧ next_id lp1 = next_id lp.
Proof.
  intros Hu Hmac Hport Htarget. unfold Discovery.datagram_received. rewrite Hu.
  destruct (String.eqb_spec (target_addr response) BROADCAST_MAC); [contradiction|].
  rewrite Hport.
  assert (Ht : match Discovery.configured_prefix self with
               | Some prefix =>
                   match Ipv6._mac_to_ipv6_link_local (target_addr response) prefix with
                   | Some ip => Some (AF_INET6, ip)
                   | None => None
                   end
               | None => Some (AF_INET, fst addr)
               end = Some (family, remote_ip)).
  { destruct Htarget as [(-> & -> & ->) | (prefix & -> & -> & ->)]; reflexivity. }
  rewrite Ht.
  destruct (LifxDiscoveryProtocol._seen self !! target_addr response) as [light|];
    cbv [default from_option id];
    match goal with
    | |- context [Light.renew ?l ?lp1 _ _ _] =>
        exists lp1; destruct (Light.renew l lp1 family remote_ip remote_port)
    end; repeat split.
Qed.

(** X18: a discovery event registers the device under its hardware
    address.  After a [StateService] for UDP or a volunteered [LightState]
    the registry holds, under the address the packet names, a light at the
    reported address (the sender's, or the one derived from the hardware
    address when an IPv6 prefix is configured) and port (the one the
    service names, or 56700 for a [LightState]) that has an endpoint task;
    every other light of the registry is as it was, and the protocol's own
    transport and countdown are untouched. *)
Theorem discovery_event_registers_the_light :
  ∀ (self : LifxDiscoveryProtocol.t) (lp : Loop) (data : bytes) (addr : string * Z)
    (source : Z) (response : Message) (remote_port : Z) (family : Family)
    (remote_ip : string),
    unpack_lifx_message data = Some response →
    target_addr response ≠ BROADCAST_MAC →
    (msg_type response = StateService ∧ Discovery.service response = 1
     ∧ remote_port = Discovery.port response)
    ∨ (msg_type response = LightState ∧ remote_port = UDP_BROADCAST_PORT) →
    (Discovery.configured_prefix self = None ∧ family = AF_INET ∧ remote_ip = fst addr)
    ∨ (∃ prefix, Discovery.configured_prefix self = Some prefix
                 ∧ Ipv6._mac_to_ipv6_link_local (target_addr response) prefix
                   = Some remote_ip
                 ∧ family = AF_INET6) →
    let self' := fst (fst (Discovery.datagram_received self lp data addr source)) in
    (∃ light,
       LifxDiscoveryProtocol._seen self' !! target_addr response = Some light
       ∧ Light._ip_addr light = remote_ip
       ∧ Light._port light = remote_port
       ∧ is_Some (Light._task light))
    ∧ (∀ mac, mac ≠ target_addr response →
              LifxDiscoveryProtocol._seen self' !! mac
              = LifxDiscoveryProtocol._seen self !! mac)
    ∧ LifxDiscoveryProtocol._transport self' = LifxDiscoveryProtocol._transport self
    ∧ LifxDiscoveryProtocol._discovery_countdown self'
      = LifxDiscoveryProtocol._discovery_countdown self.
Proof.
  intros self lp data addr source response remote_port family remote_ip
    Hu Hmac Hclass Htarget self'.
  assert (Hport : Discovery.remote_port_of response = Some remote_port).
  { unfold Discovery.remote_port_of.
    destruct Hclass as [(-> & Hsvc & ->) | (-> & ->)]; [|reflexivity].
    now rewrite Hsvc. }
  destruct (discovery_event self lp data addr source response remote_port family
              remote_ip Hu Hmac Hport Htarget) as (lp1 & Hrecv & _).
  subst self'. rewrite Hrecv. cbn [fst LifxDiscoveryProtocol._seen
    LifxDiscoveryProtocol.set_seen LifxDiscoveryProtocol._transport
    LifxDiscoveryProtocol._discovery_countdown].
  split; [|split; [|split; reflexivity]].
  - eexists. split; [apply lookup_insert_eq|].
    match goal with
    | |- context [Light.renew ?l ?l1 _ _ _] =>
        destruct (renew_spec l l1 family remote_ip remote_port)
          as (Hip & Hp & Htask & _)
    end.
    auto.
  - intros mac Hne. now rewrite lookup_insert_ne by congruence.
Qed.

(** X19: rediscovery is a liveness refresh.  A discovery event for a light
    that is registered, alive and already at the reported address (the
    sender's, or with an IPv6 prefix configured the one derived from the
    hardware address) leaves the registry as it is; the loop gains the
    metadata-refresh task and closes or cancels nothing. *)
Theorem rediscovery_at_same_address_changes_nothing :
  ∀ (self : LifxDiscoveryProtocol.t) (lp : Loop) (data : bytes) (addr : string * Z)
    (source : Z) (response : Message) (light : Light.t),
    unpack_lifx_message data = Some response →
    target_addr response ≠ BROADCAST_MAC →
    Discovery.remote_port_of response = Some (Light._port light) →
    (Discovery.configured_prefix self = None ∧ fst addr = Light._ip_addr light)
    ∨ (∃ prefix, Discovery.configured_prefix self = Some prefix
                 ∧ Ipv6._mac_to_ipv6_link_local (target_addr response) prefix
                   = Some (Light._ip_addr light)) →
    LifxDiscoveryProtocol._seen self !! target_addr response = Some light →
    Light.is_alive light = true →
    fst (fst (Discovery.datagram_received self lp data addr source)) = self
    ∧ closed (snd (fst (Discovery.datagram_received self lp data addr source))) = closed lp
    ∧ cancelled (snd (fst (Discovery.datagram_received self lp data addr source)))
      = cancelled lp
    ∧ created (snd (fst (Discovery.datagram_received self lp data addr source)))
      = created lp ++ [(next_id lp, AsyncRegister (Light._mac_addr light))].
Proof.
  intros self lp data addr source response light Hu Hmac Hport Haddr Hseen Halive.
  assert (Hevent : ∃ family lp1,
            Discovery.datagram_received self lp data addr source
            = (LifxDiscoveryProtocol.set_seen
                 (<[target_addr response :=
                      fst (Light.renew light lp1 family (Light._ip_addr light)
                             (Light._port light))]>
                    (LifxDiscoveryProtocol._seen self)) self,
               snd (Light.renew light lp1 family (Light._ip_addr light)
                      (Light._port light)),
               None)
            ∧ closed lp1 = closed lp ∧ cancelled lp1 = cancelled lp
            ∧ created lp1 = created lp ∧ next_id lp1 = next_id lp).
  { destruct Haddr as [[Hprefix Hip] | (prefix & Hprefix & Hip)].
    - destruct (discovery_event self lp data addr source response (Light._port light)
                  AF_INET (Light._ip_addr light) Hu Hmac Hport)
        as (lp1 & Hrecv & Hrest); [left; auto|].
      exists AF_INET, lp1. rewrite Hrecv, Hseen. cbv [default from_option id].
      split; [reflexivity | exact Hrest].
    - destruct (discovery_event self lp data addr source response (Light._port light)
                  AF_INET6 (Light._ip_addr light) Hu Hmac Hport)
        as (lp1 & Hrecv & Hrest); [right; exists prefix; auto|].
      exists AF_INET6, lp1. rewrite Hrecv, Hseen. cbv [default from_option id].
      split; [reflexivity | exact Hrest]. }
  destruct Hevent as (family & lp1 & Hrecv & Hcl & Hca & Hcr & Hid).
  rewrite Hrecv. cbn [fst snd].
  destruct (renew_live_same_address light lp1 family Halive)
    as (Hrenew & Hcl' & Hca' & Hcr').
  rewrite Hrenew. cbn [fst snd]. rewrite Hcl', Hca', Hcr', Hcl, Hca, Hcr, Hid.
  split; [|repeat split].
  rewrite insert_id by exact Hseen. now destruct self.
Qed.

(** X20: a light must be connected before the next wake.  A device
    discovered for the first time, at the sender's address or with an IPv6
    prefix configured at the derived one, is registered with an endpoint
    task but no transport yet; if the next wake comes before
    [connection_made] has delivered the transport, the liveness sweep
    drops the light again; once the transport is there the wake keeps
    it. *)
Theorem new_light_survives_the_sweep_once_connected :
  ∀ (self : LifxDiscoveryProtocol.t) (lp : Loop) (data : bytes) (addr : string * Z)
    (source : Z) (response : Message) (remote_port : Z) (tr tr' : nat),
    unpack_lifx_message data = Some response →
    target_addr response ≠ BROADCAST_MAC →
    Discovery.remote_port_of response = Some remote_port →
    Discovery.configured_prefix self = None
    ∨ (∃ prefix, Discovery.configured_prefix self = Some prefix
                 ∧ is_Some (Ipv6._mac_to_ipv6_link_local (target_addr response) prefix)) →
    LifxDiscoveryProtocol._seen self !! target_addr response = None →
    LifxDiscoveryProtocol._transport self = Some tr →
    let found := Discovery.datagram_received self lp data addr source in
    LifxDiscoveryProtocol._seen
      (fst (LifxDiscoveryProtocol._discover (fst (fst found)) (snd (fst found))))
      !! target_addr response = None
    ∧ is_Some
        (LifxDiscoveryProtocol._seen
           (fst (LifxDiscoveryProtocol._discover
                   (Discovery.light_connected (fst (fst found)) (target_addr response) tr')
                   (snd (fst found))))
           !! target_addr response).
Proof.
  intros self lp data addr source response remote_port tr tr'
    Hu Hmac Hport Haddr Hnew Htr found.
  assert (Hevent : ∃ family remote_ip lp1,
            found
            = (LifxDiscoveryProtocol.set_seen
                 (<[target_addr response :=
                      fst (Light.renew
                             (Light.__init__ (target_addr response) remote_ip
                                remote_port source)
                             lp1 family remote_ip remote_port)]>
                    (LifxDiscoveryProtocol._seen self)) self,
               snd (Light.renew
                      (Light.__init__ (target_addr response) remote_ip remote_port
                         source)
                      lp1 family remote_ip remote_port),
               None)).
  { subst found. destruct Haddr as [Hprefix | (prefix & Hprefix & [remote_ip Hip])].
    - destruct (discovery_event self lp data addr source response remote_port AF_INET
                  (fst addr) Hu Hmac Hport) as (lp1 & Hrecv & _); [left; auto|].
      exists AF_INET, (fst addr), lp1. rewrite Hrecv, Hnew. reflexivity.
    - destruct (discovery_event self lp data addr source response remote_port AF_INET6
                  remote_ip Hu Hmac Hport) as (lp1 & Hrecv & _);
        [right; exists prefix; auto|].
      exists AF_INET6, remote_ip, lp1. rewrite Hrecv, Hnew. reflexivity. }
  destruct Hevent as (family & remote_ip & lp1 & Hrecv).
  rewrite Hrecv. cbn [fst snd].
  pose proof (first_renew_spec (target_addr response) remote_ip
                remote_port source lp1 family tr') as (_ & _ & _ & Hdead & Halive).
  cbv zeta in Hdead, Halive.
  split.
  - destruct (LifxDiscoveryProtocol._seen
                (fst (LifxDiscoveryProtocol._discover _ _)) !! target_addr response)
      as [light|] eqn:Hlook; [|reflexivity].
    apply (discover_sweep _ _ tr) in Hlook; [|exact Htr].
    destruct Hlook as [Hin Hal]. cbn in Hin. rewrite lookup_insert_eq in Hin.
    injection Hin as <-. rewrite Hdead in Hal. discriminate Hal.
  - eexists.
    apply (discover_sweep _ _ tr); [exact Htr|].
    cbn. rewrite lookup_alter_eq, lookup_insert_eq. cbn. split; [reflexivity|].
    exact Halive.
Qed.

End DiscoveryEvents.

(** ** Discovery: shutdown *)

Section Shutdown.
Context `{codec : Codec}.

Lemma cleanup_lights_spec (lights : list (string * Light.t)) :
  ∀ lp,
    closed (Discovery.cleanup_lights lights lp)
    = closed lp ++ flat_map (λ kv, option_list (Light._transport (snd kv))) lights
    ∧ cancelled (Discovery.cleanup_lights lights lp)
      = cancelled lp ++ flat_map (λ kv, option_list (Light._task (snd kv))) lights
    ∧ sent (Discovery.cleanup_lights lights lp) = sent lp
    ∧ scheduled (Discovery.cleanup_lights lights lp) = scheduled lp.
Proof.
  unfold Discovery.cleanup_lights.
  induction lights as [|kv lights IH]; intros lp; cbn [fold_left flat_map].
  - rewrite !app_nil_r. repeat split.
  - destruct (IH (snd (Light.cleanup (snd kv) lp))) as (-> & -> & -> & ->).
    rewrite cleanup_spec. cbn. rewrite <- !app_assoc. repeat split.
Qed.

(** X21: [_cleanup] stops discovery.  Afterwards the registry is empty and
    the protocol has no transport, so that a wake does nothing and asks
    for no further wake; the discovery transport and the transport of
    every registered light have been closed and every endpoint task
    cancelled, and nothing has been sent. *)
Theorem discovery_cleanup_stops_everything :
  ∀ (self : LifxDiscoveryProtocol.t) (lp : Loop),
    let self' := fst (Discovery._cleanup self lp) in
    let lp' := snd (Discovery._cleanup self lp) in
    LifxDiscoveryProtocol._seen self' = ∅
    ∧ LifxDiscoveryProtocol._transport self' = None
    ∧ LifxDiscoveryProtocol._discover self' lp' = (self', lp')
    ∧ (∀ tr, LifxDiscoveryProtocol._transport self = Some tr → tr ∈ closed lp')
    ∧ (∀ mac light tr,
         LifxDiscoveryProtocol._seen self !! mac = Some light →
         Light._transport light = Some tr → tr ∈ closed lp')
    ∧ (∀ mac light k,
         LifxDiscoveryProtocol._seen self !! mac = Some light →
         Light._task light = Some k → k ∈ cancelled lp')
    ∧ sent lp' = sent lp ∧ scheduled lp' = scheduled lp.
Proof.
  intros self lp self' lp'. subst self' lp'. unfold Discovery._cleanup.
  assert (Hin : ∀ (A : Type) (g : Light.t → option A) mac light x,
            LifxDiscoveryProtocol._seen self !! mac = Some light → g light = Some x →
            x ∈ flat_map (λ kv : string * Light.t, option_list (g (snd kv)))
                  (map_to_list (LifxDiscoveryProtocol._seen self))).
  { intros A g mac light x Hseen Hg. apply list_elem_of_In, in_flat_map.
    exists (mac, light). split.
    - apply list_elem_of_In, elem_of_map_to_list, Hseen.
    - cbn. rewrite Hg. now left. }
  destruct (LifxDiscoveryProtocol._transport self) as [tr0|] eqn:Htr;
    cbn [fst snd Discovery.set_transport LifxDiscoveryProtocol._seen
         LifxDiscoveryProtocol.set_seen LifxDiscoveryProtocol._transport];
    match goal with
    | |- context [Discovery.cleanup_lights ?xs ?l] =>
        destruct (cleanup_lights_spec xs l) as (Hcl & Hca & Hse & Hsc)
    end;
    rewrite Hcl, Hca, Hse, Hsc; cbn [closed cancelled sent scheduled transport_close].
  - split; [reflexivity|]. split; [reflexivity|].
    split; [reflexivity|].
    split; [intros tr [= <-]; rewrite !elem_of_app; left; right; constructor|].
    split; [intros mac light tr Hseen Ht; rewrite !elem_of_app; right;
            exact (Hin _ Light._transport mac light tr Hseen Ht)|].
    split; [intros mac light k Hseen Hk; rewrite !elem_of_app; right;
            exact (Hin _ Light._task mac light k Hseen Hk)|].
    split; reflexivity.
  - split; [reflexivity|]. split; [exact Htr|].
    split; [unfold LifxDiscoveryProtocol._discover;
            cbn [LifxDiscoveryProtocol._transport LifxDiscoveryProtocol.set_seen];
            rewrite Htr; reflexivity|].
    split; [intros tr [=]|].
    split; [intros mac light tr Hseen Ht; rewrite !elem_of_app; right;
            exact (Hin _ Light._transport mac light tr Hseen Ht)|].
    split; [intros mac light k Hseen Hk; rewrite !elem_of_app; right;
            exact (Hin _ Light._task mac light k Hseen Hk)|].
    split; reflexivity.
Qed.

End Shutdown.

(** ** Device collection: views by hardware address and group *)

Lemma lower_char_idempotent (c : ascii) :
  Light.lower_char (Light.lower_char c) = Light.lower_char c.
Proof. destruct c as [[] [] [] [] [] [] [] []]; reflexivity. Qed.

Lemma lower_idempotent (s : string) : Light.lower (Light.lower s) = Light.lower s.
Proof.
  induction s as [|c s IH]; cbn; [reflexivity|].
  now rewrite lower_char_idempotent, IH.
Qed.

(** X22: hardware addresses are matched in lower case only.  A [Light]
    keeps its hardware address in lower case, whatever case it was
    constructed with, and [get_by_mac_addr] compares the query as it is:
    over lights that hold a lower-case address, a query with an upper-case
    letter selects no light, and the query in lower case selects exactly
    the lights constructed with that address in any case. *)
Theorem get_by_mac_addr_matches_lower_case_only :
  ∀ (self : Lights.t) (query : string),
    (∀ mac ip_addr port source,
       Light._mac_addr (Light.__init__ mac ip_addr port source)
       = Light.lower (Light._mac_addr (Light.__init__ mac ip_addr port source))
       ∧ (Lights._light_list
            (Lights.get_by_mac_addr
               {| Lights._light_list := [Light.__init__ mac ip_addr port source] |}
               (Light.lower query))
          = [Light.__init__ mac ip_addr port source]
          ↔ Light.lower mac = Light.lower query))
    ∧ (Forall (λ light, Light._mac_addr light = Light.lower (Light._mac_addr light))
         (Lights._light_list self) →
       Light.lower query ≠ query →
       Lights._light_list (Lights.get_by_mac_addr self query) = []).
Proof.
  intros self query. split.
  - intros mac ip_addr port source. split; [cbn; now rewrite lower_idempotent|].
    unfold Lights.get_by_mac_addr, Lights.get_clone. cbn [Lights._light_list].
    rewrite filter_cons, filter_nil.
    change (Light._mac_addr (Light.__init__ mac ip_addr port source))
      with (Light.lower mac).
    destruct (decide (Light.lower mac = Light.lower query)) as [Heq|Hne].
    + split; intros _; [exact Heq|reflexivity].
    + split; intros H; [discriminate H|contradiction].
  - intros Hlow Hq. unfold Lights.get_by_mac_addr, Lights.get_clone.
    cbn [Lights._light_list].
    induction Hlow as [|light lights Hl _ IH]; [reflexivity|].
    rewrite filter_cons. destruct (decide _) as [Heq|_]; [|exact IH].
    exfalso. apply Hq. rewrite <- Heq, Hl. now rewrite lower_idempotent.
Qed.

(** ** Cached attributes *)


Section Getters.
Context `{codec : Codec} `{fields : Attributes.LabelFields}.


(** No reply before the attempts are used up: the getter fails with
    [LightOffline] on a session that is no longer bound. *)
Lemma fetch_offline (self : Light.t) (lp : Loop) (mt rt : MsgType) (tr : nat)
    (ins : list Light.Inbound) :
  let request :=
    {| msg_type := mt; target_addr := Light._mac_addr self;
       source_id := Light._source_id self; seq_num := (Light._seq self + 1) mod 128;
       payload := []; ack_requested := false; response_requested := true |} in
  Light._transport self = Some tr →
  0 < Light._retry_count self →
  Spec.events_allocated self lp →
  Spec.unanswered self request rt ins →
  (Z.to_nat (Light._retry_count self) <= Spec.timer_count ins)%nat →
  ∃ tbl lp',
    Attributes.fetch self lp mt rt ins
    = (Light.set_task None
         (Light.set_transport None
            (Light.set_message tbl
               (Light.set_seq ((Light._seq self + 1) mod 128) self))),
       lp', Attributes.Failed LightOffline)
    ∧ sent lp'
      = sent lp ++ repeat (tr, generate_packed_message request, None)
                     (Z.to_nat (Light._retry_count self)).
Proof.
  intros request Htr Hretry Halloc Hquiet Hcount.
  set (self1 := Light.set_seq ((Light._seq self + 1) mod 128) self).
  unfold Attributes.fetch, Light._req_with_resp. cbn [Light._seq_next].
  fold self1.
  change {| msg_type := mt; target_addr := Light._mac_addr self1;
            source_id := Light._source_id self1;
            seq_num := (Light._seq self + 1) mod 128;
            payload := []; ack_requested := false; response_requested := true |}
    with request.
  destruct (try_sending_first_attempt self1 lp request rt None None tr
              Htr Hretry Halloc)
    as (tbl1 & lp1 & f1 & Hstart & Hw & Hm & Hrt & Htmo & Hmaxa & Hatt & Hsent & _).
  rewrite Hstart. cbn [Light.run].
  assert (Hleft : (Z.to_nat (Light.max_attempts f1 - Light.attempts f1)
                   < Spec.timer_count ins)%nat)
    by (rewrite Hmaxa, Hatt; cbn; lia).
  assert (Hquiet1 : Spec.unanswered (Light.set_message tbl1 self1) (Light.msg f1)
                      (Light.expected f1) ins)
    by (rewrite Hm, Hrt; exact Hquiet).
  destruct (drive_unanswered_offline ins (Light.set_message tbl1 self1) lp1 f1 tr
              Hw Hquiet1 Hleft)
    as (tbl & lp' & Hdrive & _ & Hsent' & _).
  rewrite Hdrive. exists tbl, lp'. split; [reflexivity|].
  rewrite Hsent', Hsent, Hm, Hmaxa, Hatt. cbn [default from_option id].
  rewrite <- app_assoc. f_equal.
  change (Light._retry_count self1) with (Light._retry_count self).
  replace (Z.to_nat (Light._retry_count self))
    with (S (Z.to_nat (Light._retry_count self - 1))) by lia.
  reflexivity.
Qed.



(** X25: the label that [set_label] has set is the one [get_label] gives
    back.  After a [set_label] that returned, [get_label] answers with the
    label as it was sent, that is the caller's string cut to 32 characters,
    from the cache: nothing is sent and the session stays as it is. *)
Theorem get_label_after_set_label_reads_the_cache :
  ∀ (self self' : Light.t) (lp lp' : Loop) (value : string) (ins : list Light.Inbound),
    Light.set_label self lp value ins = (self', lp', Light.Done (Light.Returned None)) →
    ∀ lp'' ins',
      Attributes.get_label self' lp'' ins'
      = (self', lp'',
         Attributes.Got (if (32 <? String.length value)%nat
                         then Spec.first_32 value else value)).
Proof.
  intros self self' lp lp' value ins Hset lp'' ins'.
  unfold Light.set_label in Hset.
  assert (Hl : Light._label self'
               = Some (if (32 <? String.length value)%nat
                       then Spec.first_32 value else value)).
  { destruct (Light.run _ ins) as [[s1 l1] [[r|e]|f]]; try discriminate Hset.
    injection Hset as <- _. reflexivity. }
  unfold Attributes.get_label. now rewrite Hl.
Qed.

(** X26: a failed [get_label] caches nothing and leaves the session
    unbound.  When no reply arrives before the attempts are used up, the
    call raises [LightOffline] after one [GetLabel] per attempt; the label
    stays unset, and the next [get_label] fails at once with
    [AssertionError], sending nothing, until the session is bound again. *)
Theorem get_label_offline_caches_nothing :
  ∀ (self : Light.t) (lp : Loop) (tr : nat) (ins : list Light.Inbound),
    let request :=
      {| msg_type := GetLabel; target_addr := Light._mac_addr self;
         source_id := Light._source_id self; seq_num := (Light._seq self + 1) mod 128;
         payload := []; ack_requested := false; response_requested := true |} in
    Light._label self = None →
    Light._transport self = Some tr →
    0 < Light._retry_count self →
    Spec.events_allocated self lp →
    Spec.unanswered self request StateLabel ins →
    (Z.to_nat (Light._retry_count self) <= Spec.timer_count ins)%nat →
    ∃ self' lp',
      Attributes.get_label self lp ins = (self', lp', Attributes.Failed LightOffline)
      ∧ Light._label self' = None
      ∧ Light.is_alive self' = false
      ∧ sent lp'
        = sent lp ++ repeat (tr, generate_packed_message request, None)
                       (Z.to_nat (Light._retry_count self))
      ∧ ∀ lp'' ins',
          ∃ self'',
            Attributes.get_label self' lp'' ins'
            = (self'', lp'', Attributes.Failed AssertionError)
            ∧ Light._label self'' = None.
Proof.
  intros self lp tr ins request Hnone Htr Hretry Halloc Hquiet Hcount.
  destruct (fetch_offline self lp GetLabel StateLabel tr ins
              Htr Hretry Halloc Hquiet Hcount)
    as (tbl & lp' & Hfetch & Hsent).
  unfold Attributes.get_label at 1. rewrite Hnone, Hfetch.
  do 2 eexists. split; [reflexivity|]. split; [exact Hnone|].
  split; [reflexivity|]. split; [exact Hsent|].
  intros lp'' ins'. eexists.
  unfold Attributes.get_label, Attributes.fetch, Light._req_with_resp,
    Light._try_sending.
  cbn. rewrite Hnone. cbn. split; [reflexivity|exact Hnone].
Qed.

End Getters.

(** ** Address derivation: what of the hardware address counts *)

Lemma hex_digit_value_lower (c : ascii) :
  Ipv6.hex_digit_value (Light.lower_char c) = Ipv6.hex_digit_value c.
Proof. destruct c as [[] [] [] [] [] [] [] []]; reflexivity. Qed.

Lemma is_delimiter_lower (c : ascii) :
  Ipv6.is_delimiter (Light.lower_char c) = Ipv6.is_delimiter c.
Proof. destruct c as [[] [] [] [] [] [] [] []]; reflexivity. Qed.

Lemma translate_lower (s : string) :
  Ipv6.translate (Light.lower s) = Light.lower (Ipv6.translate s).
Proof.
  induction s as [|c s IH]; [reflexivity|].
  cbn [Light.lower Ipv6.translate]. rewrite is_delimiter_lower.
  destruct (Ipv6.is_delimiter c); [exact IH|]. cbn [Light.lower]. now rewrite IH.
Qed.

Lemma int16_acc_lower (s : string) :
  ∀ acc, Ipv6.int16_acc acc (Light.lower s) = Ipv6.int16_acc acc s.
Proof.
  induction s as [|c s IH]; intros acc; [reflexivity|].
  cbn [Light.lower Ipv6.int16_acc]. rewrite hex_digit_value_lower.
  destruct (Ipv6.hex_digit_value c); [apply IH | reflexivity].
Qed.

Lemma int16_lower (s : string) : Ipv6.int16 (Light.lower s) = Ipv6.int16 s.
Proof. destruct s as [|c s]; [reflexivity|]. apply (int16_acc_lower (String c s)). Qed.

(** X27: the derived address depends neither on the case of the
    hexadecimal digits nor on the delimiters.  The address in lower case,
    as a [Light] keeps it, gives what the address as received gives, and a
    blank, dot, colon or dash more or less, wherever it stands, changes
    nothing. *)
Theorem mac_to_ipv6_link_local_ignores_case_and_delimiters :
  ∀ (mac prefix : string),
    Ipv6._mac_to_ipv6_link_local (Light.lower mac) prefix
    = Ipv6._mac_to_ipv6_link_local mac prefix
    ∧ ∀ (before after : string) (d : ascii),
        Ipv6.is_delimiter d = true →
        mac = before +:+ String d after →
        Ipv6._mac_to_ipv6_link_local (before +:+ after) prefix
        = Ipv6._mac_to_ipv6_link_local mac prefix.
Proof.
  intros mac prefix. split.
  - unfold Ipv6._mac_to_ipv6_link_local. now rewrite translate_lower, int16_lower.
  - intros before after d Hd ->. unfold Ipv6._mac_to_ipv6_link_local.
    rewrite !translate_app. cbn [Ipv6.translate]. now rewrite Hd.
Qed.

Lemma int16_acc_digits (s : string) :
  ∀ acc,
    (∀ i c, String.get i s = Some c → is_Some (Ipv6.hex_digit_value c)) →
    is_Some (Ipv6.int16_acc acc s).
Proof.
  induction s as [|c s IH]; intros acc Hdigits; cbn [Ipv6.int16_acc]; [now eexists|].
  destruct (Hdigits 0%nat c eq_refl) as [d ->].
  apply IH. intros i c' Hget. exact (Hdigits (S i) c' Hget).
Qed.

(** X28: where the derivation is defined.  A hardware address of which
    nothing is left once the delimiters are removed raises the
    [ValueError] of [int] and gives no address; an address whose other
    characters are hexadecimal digits, at least one of them, gives an
    address whatever its length. *)
Theorem mac_to_ipv6_link_local_needs_one_digit :
  ∀ (mac prefix : string),
    (Ipv6.translate mac = "" → Ipv6._mac_to_ipv6_link_local mac prefix = None)
    ∧ (Ipv6.translate mac ≠ "" →
       (∀ i c, String.get i (Ipv6.translate mac) = Some c →
               is_Some (Ipv6.hex_digit_value c)) →
       is_Some (Ipv6._mac_to_ipv6_link_local mac prefix)).
Proof.
  intros mac prefix. unfold Ipv6._mac_to_ipv6_link_local. split.
  - intros ->. reflexivity.
  - intros Hsome Hdigits.
    destruct (Ipv6.translate mac) as [|c s] eqn:Ht; [contradiction|].
    unfold Ipv6.int16.
    destruct (int16_acc_digits (String c s) 0 Hdigits) as [v ->]. now eexists.
Qed.

Lemma low_bits_of_sum (v k sh w : Z) :
  0 <= sh → 0 <= w → sh + w <= 48 →
  Z.land (Z.shiftr (v + k * 2 ^ 48) sh) (Z.ones w) = Z.land (Z.shiftr v sh) (Z.ones w).
Proof.
  intros Hsh Hw Hle. rewrite !Z.land_ones, !Z.shiftr_div_pow2 by assumption.
  replace (k * 2 ^ 48) with (k * 2 ^ (48 - sh - w) * 2 ^ w * 2 ^ sh).
  2:{ rewrite <- !Z.mul_assoc, <- !Z.pow_add_r by lia. do 2 f_equal. lia. }
  rewrite Z.div_add by (apply Z.pow_nonzero; lia).
  apply Z.mod_add. apply Z.pow_nonzero; lia.
Qed.

(** X29: only the last six octets of the hardware address count.  An
    address with more than twelve hexadecimal digits is not refused: two
    addresses whose values differ by a multiple of 2^48 give the same
    IPv6 address. *)
Theorem mac_to_ipv6_link_local_reads_the_low_48_bits :
  ∀ (mac mac' prefix : string) (v k : Z),
    Ipv6.int16 (Ipv6.translate mac) = Some v →
    Ipv6.int16 (Ipv6.translate mac') = Some (v + k * 2 ^ 48) →
    Ipv6._mac_to_ipv6_link_local mac' prefix = Ipv6._mac_to_ipv6_link_local mac prefix.
Proof.
  intros mac mac' prefix v k Hv Hv'. unfold Ipv6._mac_to_ipv6_link_local.
  rewrite Hv, Hv'.
  unfold Ipv6.high2_of, Ipv6.high1_of, Ipv6.low1_of, Ipv6.low2_of.
  change 0xffff with (Z.ones 16). change 0xff with (Z.ones 8).
  rewrite (low_bits_of_sum v k 32 16), (low_bits_of_sum v k 24 8),
    (low_bits_of_sum v k 16 8) by lia.
  rewrite <- (Z.shiftr_0_r (v + k * 2 ^ 48)), (low_bits_of_sum v k 0 16) by lia.
  now rewrite Z.shiftr_0_r.
Qed.

(** ** Device collection: views of views *)

(** X30: a view is a part of the collection it was taken from.  The
    lights of a group view are lights of the collection, in their order;
    the view of the same group of a view is that view, the view of another
    group of it is empty, so that no light is in two group views; and the
    views by group and by hardware address can be taken in either
    order. *)
Theorem views_are_parts_of_the_collection :
  ∀ (self : Lights.t) (group mac_addr : string),
    sublist (Lights._light_list (Lights.get_by_group self group))
      (Lights._light_list self)
    ∧ Lights.get_by_group (Lights.get_by_group self group) group
      = Lights.get_by_group self group
    ∧ (∀ other, other ≠ group →
         Lights._light_list (Lights.get_by_group (Lights.get_by_group self group) other)
         = [])
    ∧ Lights.get_by_mac_addr (Lights.get_by_group self group) mac_addr
      = Lights.get_by_group (Lights.get_by_mac_addr self mac_addr) group.
Proof.
  intros self group mac_addr.
  unfold Lights.get_by_group, Lights.get_by_mac_addr, Lights.get_clone.
  cbn [Lights._light_list].
  induction (Lights._light_list self) as [|light lights IH].
  - repeat split. constructor.
  - destruct IH as (Hsub & Hsame & Hother & Hcomm).
    injection Hsame as Hsame. injection Hcomm as Hcomm.
    rewrite !filter_cons.
    destruct (decide (Light._group light = Some group)) as [Hg|Hg];
      destruct (decide (Light._mac_addr light = mac_addr)) as [Hm|Hm];
      rewrite ?filter_cons;
      rewrite ?(decide_True (P := Light._group light = Some group)) by exact Hg;
      rewrite ?(decide_False (P := Light._group light = Some group)) by exact Hg;
      rewrite ?(decide_True (P := Light._mac_addr light = mac_addr)) by exact Hm;
      rewrite ?(decide_False (P := Light._mac_addr light = mac_addr)) by exact Hm;
      rewrite ?Hsame, ?Hcomm;
      (split; [first [now apply sublist_skip | now apply sublist_cons]|]);
      (split; [reflexivity|]);
      (split; [|reflexivity]);
      intros other Hne; rewrite ?filter_cons;
      rewrite ?decide_False by congruence; now apply Hother.
Qed.

(** ** Worked cases *)

(** The matching reply is delivered twice to the example session. *)
Lemma datagram_received_twice_is_once_witness :
  Light.datagram_received (codec := ExampleCodec.codec)
    (Light.light Cases.answered) (Light.loop Cases.answered) Examples.state_label_reply
  = (Light.light Cases.answered, Light.loop Cases.answered, None).
Proof.
  apply (datagram_received_twice_is_once (codec := ExampleCodec.codec)
           (Light.light Examples.asking) (Light.loop Examples.asking)
           Examples.state_label_reply).
  vm_compute. reflexivity.
Defined.

(** The example call is woken by its reply; the same reply comes again. *)
Lemma late_reply_is_dropped_witness :
  Light.datagram_received (codec := ExampleCodec.codec)
    (fst (fst (Light.woken (Light.light Cases.answered) (Light.loop Cases.answered)
                 Cases.asking_frame)))
    (snd (fst (Light.woken (Light.light Cases.answered) (Light.loop Cases.answered)
                 Cases.asking_frame)))
    Examples.state_label_reply
  = (fst (fst (Light.woken (Light.light Cases.answered) (Light.loop Cases.answered)
                 Cases.asking_frame)),
     snd (fst (Light.woken (Light.light Cases.answered) (Light.loop Cases.answered)
                 Cases.asking_frame)), None).
Proof.
  apply (proj1 (late_reply_is_dropped (codec := ExampleCodec.codec)
                  (Light.light Cases.answered) (Light.loop Cases.answered)
                  Cases.asking_frame Examples.state_label_reply
                  {| msg_type := StateLabel; target_addr := "d0:73:d5:00:00:01";
                     source_id := 7; seq_num := 1; payload := [];
                     ack_requested := false; response_requested := false |}
                  eq_refl eq_refl)
           _ _
           (snd (Light.woken (Light.light Cases.answered) (Light.loop Cases.answered)
                   Cases.asking_frame))).
  vm_compute. reflexivity.
Defined.

(** A [GetLabel] on a session that was never bound. *)
Lemma request_without_transport_uses_up_a_sequence_number_witness :
  Light._req_with_resp (codec := ExampleCodec.codec) Cases.unbound_light empty_loop
    GetLabel StateLabel (Some []) None None
  = (Light.set_seq 1 Cases.unbound_light, empty_loop,
     Light.Done (Light.Raised AssertionError)).
Proof.
  apply (proj2 (request_without_transport_uses_up_a_sequence_number
                  (codec := ExampleCodec.codec) Cases.unbound_light empty_loop
                  GetLabel StateLabel [] None None eq_refl)).
Defined.

(** The example request with no attempt allowed. *)
Lemma try_sending_without_attempts_returns_nothing_witness :
  Light._try_sending (codec := ExampleCodec.codec)
    ExampleCodec.bound_light ExampleCodec.bound_loop
    Examples.get_label_request StateLabel None (Some 0)
  = (Light.set_message (delete 1 (Light._message ExampleCodec.bound_light))
       ExampleCodec.bound_light,
     ExampleCodec.bound_loop, Light.Done (Light.Returned None)).
Proof.
  apply (try_sending_without_attempts_returns_nothing (codec := ExampleCodec.codec)
           ExampleCodec.bound_light ExampleCodec.bound_loop
           Examples.get_label_request StateLabel None 0 1%nat eq_refl).
  lia.
Defined.

(** The example call resumed on a session whose table is empty. *)
Lemma call_without_entry_fails_witness :
  Light.woken ExampleCodec.bound_light ExampleCodec.bound_loop Cases.asking_frame
  = (ExampleCodec.bound_light, ExampleCodec.bound_loop,
     Light.Done (Light.Raised KeyError))
  ∧ Light.timed_out (codec := ExampleCodec.codec)
      ExampleCodec.bound_light ExampleCodec.bound_loop Cases.asking_frame
    = (ExampleCodec.bound_light, ExampleCodec.bound_loop,
       Light.Done (Light.Raised RuntimeError)).
Proof.
  destruct (call_without_entry_fails (codec := ExampleCodec.codec)
              ExampleCodec.bound_light ExampleCodec.bound_loop Cases.asking_frame
              eq_refl) as [Hwoken Htimer].
  split; [exact Hwoken|]. apply Htimer. vm_compute. reflexivity.
Defined.

(** Two calls outstanding: the first fails after its last attempt, the
    timer of the second then fires. *)
Lemma failed_call_ends_the_other_calls_witness :
  snd (Light.timed_out (codec := ExampleCodec.codec)
         (fst (fst (Light.timed_out (codec := ExampleCodec.codec)
                      (Light.light Cases.two_calls) (Light.loop Cases.two_calls)
                      Cases.last_attempt_frame)))
         (snd (fst (Light.timed_out (codec := ExampleCodec.codec)
                      (Light.light Cases.two_calls) (Light.loop Cases.two_calls)
                      Cases.last_attempt_frame)))
         Cases.group_frame)
  = Light.Done (Light.Raised AttributeError).
Proof.
  refine (proj1 (proj2 (proj2
            (failed_call_ends_the_other_calls (codec := ExampleCodec.codec)
               (Light.light Cases.two_calls) (Light.loop Cases.two_calls)
               Cases.last_attempt_frame Cases.group_frame
               {| Light.response_type := StateGroup; Light.event := Some 3%nat;
                  Light.response := None |}
               _ _
               (snd (Light.timed_out (codec := ExampleCodec.codec)
                       (Light.light Cases.two_calls) (Light.loop Cases.two_calls)
                       Cases.last_attempt_frame))
               _ _ _ _ _)))).
  - vm_compute. discriminate.
  - vm_compute. reflexivity.
  - vm_compute. discriminate.
  - vm_compute. reflexivity.
  - vm_compute. reflexivity.
Defined.

(** The registry of the example protocol holds the connected example
    light; a wake keeps it. *)
Lemma discover_keeps_exactly_the_live_lights_witness :
  LifxDiscoveryProtocol._seen
    (fst (LifxDiscoveryProtocol._discover (codec := ExampleCodec.codec)
            Cases.connected (snd Cases.discovered)))
    !! "d0:73:d5:00:00:01" = Some Cases.registered.
Proof.
  apply (discover_keeps_exactly_the_live_lights (codec := ExampleCodec.codec)
           Cases.connected (snd Cases.discovered) 5%nat "d0:73:d5:00:00:01"
           Cases.registered eq_refl).
  split; vm_compute; reflexivity.
Defined.

(** The first wake of the example protocol asks for the next one, 5
    seconds later. *)
Lemma discover_reschedules_while_bound_witness :
  scheduled (snd (LifxDiscoveryProtocol._discover (codec := ExampleCodec.codec)
                    (fst Examples.bound_discovery) (snd Examples.bound_discovery)))
  = scheduled (snd Examples.bound_discovery) ++ [(DISCOVERY_STEP, Discover)].
Proof.
  apply (proj2 (discover_reschedules_while_bound (codec := ExampleCodec.codec)
                  (fst Examples.bound_discovery) (snd Examples.bound_discovery))
           5%nat eq_refl).
Defined.

(** The defaults, 180 s and 5 s: 36 quiet wakes after each probe. *)
Lemma discover_probes_every_q_plus_one_wakes_witness :
  LifxDiscoveryProtocol.wakes (codec := ExampleCodec.codec) (2 * 37)
    (fst Examples.bound_discovery) (snd Examples.bound_discovery)
  = concat (repeat (1%nat :: repeat 0%nat 36) 2).
Proof.
  apply (discover_probes_every_q_plus_one_wakes (codec := ExampleCodec.codec)
           36 2 (fst Examples.bound_discovery) (snd Examples.bound_discovery) 5%nat
           eq_refl).
  - vm_compute. reflexivity.
  - vm_compute. split; [reflexivity | discriminate].
  - vm_compute. discriminate.
Defined.

(** A step of zero: one probe, then five wakes without. *)
Lemma discover_with_nonpositive_step_probes_once_witness :
  LifxDiscoveryProtocol.wakes (codec := ExampleCodec.codec) 6
    (fst Cases.stepless) (snd Cases.stepless)
  = 1%nat :: repeat 0%nat 5.
Proof.
  apply (discover_with_nonpositive_step_probes_once (codec := ExampleCodec.codec)
           5 (fst Cases.stepless) (snd Cases.stepless) 5%nat eq_refl).
  - vm_compute. discriminate.
  - vm_compute. reflexivity.
  - vm_compute. discriminate.
Defined.

(** A [GetLabel] that reaches the discovery socket. *)
Lemma discovery_ignores_other_packets_witness :
  Discovery.datagram_received (codec := ExampleCodec.codec)
    (fields := Cases.service_fields)
    (fst Examples.bound_discovery) (snd Examples.bound_discovery)
    Cases.get_label_packet Cases.sender 7
  = (fst Examples.bound_discovery, snd Examples.bound_discovery, None).
Proof.
  apply (discovery_ignores_other_packets (codec := ExampleCodec.codec)
           (fields := Cases.service_fields)
           (fst Examples.bound_discovery) (snd Examples.bound_discovery)
           Cases.get_label_packet Cases.sender 7
           {| msg_type := GetLabel; target_addr := "d0:73:d5:00:00:01";
              source_id := 0; seq_num := 0; payload := [];
              ack_requested := false; response_requested := false |}
           eq_refl).
  right. right. split; discriminate.
Defined.

(** The [StateService] of the example device reaches the example
    protocol. *)
Lemma discovery_event_registers_the_light_witness :
  ∃ light,
    LifxDiscoveryProtocol._seen (fst Cases.discovered) !! "d0:73:d5:00:00:01"
    = Some light
    ∧ Light._ip_addr light = "192.168.1.20"
    ∧ Light._port light = 56700
    ∧ is_Some (Light._task light).
Proof.
  apply (discovery_event_registers_the_light (codec := ExampleCodec.codec)
           (fields := Cases.service_fields)
           (fst Examples.bound_discovery) (snd Examples.bound_discovery)
           Cases.state_service Cases.sender 7
           {| msg_type := StateService; target_addr := "d0:73:d5:00:00:01";
              source_id := 0; seq_num := 0; payload := [];
              ack_requested := false; response_requested := false |}
           56700 AF_INET "192.168.1.20" eq_refl).
  - discriminate.
  - left. repeat split.
  - left. repeat split.
Defined.

(** The same [StateService] again, the light connected meanwhile: without
    a prefix, and with the prefix [fe80:]. *)
Lemma rediscovery_at_same_address_changes_nothing_witness :
  fst (fst (Discovery.datagram_received (codec := ExampleCodec.codec)
              (fields := Cases.service_fields)
              Cases.connected (snd Cases.discovered) Cases.state_service
              Cases.sender 8))
  = Cases.connected
  ∧ fst (fst (Discovery.datagram_received (codec := ExampleCodec.codec)
                (fields := Cases.service_fields)
                Cases.connected6 (snd Cases.discovered6) Cases.state_service
                Cases.sender 8))
    = Cases.connected6.
Proof.
  split.
  - apply (rediscovery_at_same_address_changes_nothing (codec := ExampleCodec.codec)
             (fields := Cases.service_fields)
             Cases.connected (snd Cases.discovered) Cases.state_service Cases.sender 8
             {| msg_type := StateService; target_addr := "d0:73:d5:00:00:01";
                source_id := 0; seq_num := 0; payload := [];
                ack_requested := false; response_requested := false |}
             Cases.registered eq_refl).
    + discriminate.
    + reflexivity.
    + left. split; reflexivity.
    + vm_compute. reflexivity.
    + reflexivity.
  - apply (rediscovery_at_same_address_changes_nothing (codec := ExampleCodec.codec)
             (fields := Cases.service_fields)
             Cases.connected6 (snd Cases.discovered6) Cases.state_service Cases.sender 8
             {| msg_type := StateService; target_addr := "d0:73:d5:00:00:01";
                source_id := 0; seq_num := 0; payload := [];
                ack_requested := false; response_requested := false |}
             Cases.registered6 eq_refl).
    + discriminate.
    + reflexivity.
    + right. exists "fe80:". split; vm_compute; reflexivity.
    + vm_compute. reflexivity.
    + reflexivity.
Defined.

(** The example device is discovered; the next wake comes before its
    endpoint has connected: without a prefix, and with the prefix
    [fe80:]. *)
Lemma new_light_survives_the_sweep_once_connected_witness :
  LifxDiscoveryProtocol._seen
    (fst (LifxDiscoveryProtocol._discover (codec := ExampleCodec.codec)
            (fst Cases.discovered) (snd Cases.discovered)))
    !! "d0:73:d5:00:00:01" = None
  ∧ LifxDiscoveryProtocol._seen
      (fst (LifxDiscoveryProtocol._discover (codec := ExampleCodec.codec)
              (fst Cases.discovered6) (snd Cases.discovered6)))
      !! "d0:73:d5:00:00:01" = None.
Proof.
  split.
  - apply (new_light_survives_the_sweep_once_connected (codec := ExampleCodec.codec)
             (fields := Cases.service_fields)
             (fst Examples.bound_discovery) (snd Examples.bound_discovery)
             Cases.state_service Cases.sender 7
             {| msg_type := StateService; target_addr := "d0:73:d5:00:00:01";
                source_id := 0; seq_num := 0; payload := [];
                ack_requested := false; response_requested := false |}
             56700 5%nat 6%nat eq_refl).
    + discriminate.
    + reflexivity.
    + left. reflexivity.
    + reflexivity.
    + reflexivity.
  - apply (new_light_survives_the_sweep_once_connected (codec := ExampleCodec.codec)
             (fields := Cases.service_fields)
             (fst Cases.bound_discovery6) (snd Cases.bound_discovery6)
             Cases.state_service Cases.sender 7
             {| msg_type := StateService; target_addr := "d0:73:d5:00:00:01";
                source_id := 0; seq_num := 0; payload := [];
                ack_requested := false; response_requested := false |}
             56700 5%nat 6%nat eq_refl).
    + discriminate.
    + reflexivity.
    + right. exists "fe80:". split; [reflexivity|]. vm_compute. eexists. reflexivity.
    + reflexivity.
    + reflexivity.
Defined.

(** The example protocol is shut down with the connected light in its
    registry: both transports are closed. *)
Lemma discovery_cleanup_stops_everything_witness :
  5%nat ∈ closed (snd (Discovery._cleanup Cases.connected (snd Cases.discovered)))
  ∧ 6%nat ∈ closed (snd (Discovery._cleanup Cases.connected (snd Cases.discovered))).
Proof.
  destruct (discovery_cleanup_stops_everything (codec := ExampleCodec.codec)
              Cases.connected (snd Cases.discovered))
    as (_ & _ & _ & Hown & Hlights & _).
  split.
  - apply Hown. reflexivity.
  - apply (Hlights "d0:73:d5:00:00:01" Cases.registered); vm_compute; reflexivity.
Defined.

(** The house is asked for the Kitchen light's address in upper case. *)
Lemma get_by_mac_addr_matches_lower_case_only_witness :
  Lights._light_list (Lights.get_by_mac_addr Examples.house "D0:73:D5:00:00:01") = [].
Proof.
  apply (proj2 (get_by_mac_addr_matches_lower_case_only Examples.house
                  "D0:73:D5:00:00:01")).
  - repeat constructor.
  - vm_compute. discriminate.
Defined.



(** The example session sets a label of 40 characters and reads it back. *)
Lemma get_label_after_set_label_reads_the_cache_witness :
  snd (Attributes.get_label (codec := ExampleCodec.codec) (fields := Cases.label_fields)
         (fst (fst (Light.set_label (codec := ExampleCodec.codec)
                      ExampleCodec.bound_light ExampleCodec.bound_loop
                      Examples.long_label
                      [Light.TimerFires; Light.Datagram Examples.ack_reply])))
         empty_loop [])
  = Attributes.Got "01234567890123456789012345678901".
Proof.
  rewrite (get_label_after_set_label_reads_the_cache (codec := ExampleCodec.codec)
             (fields := Cases.label_fields)
             ExampleCodec.bound_light
             (fst (fst (Light.set_label (codec := ExampleCodec.codec)
                          ExampleCodec.bound_light ExampleCodec.bound_loop
                          Examples.long_label
                          [Light.TimerFires; Light.Datagram Examples.ack_reply])))
             ExampleCodec.bound_loop
             (snd (fst (Light.set_label (codec := ExampleCodec.codec)
                          ExampleCodec.bound_light ExampleCodec.bound_loop
                          Examples.long_label
                          [Light.TimerFires; Light.Datagram Examples.ack_reply])))
             Examples.long_label
             [Light.TimerFires; Light.Datagram Examples.ack_reply]).
  - reflexivity.
  - vm_compute. reflexivity.
Defined.

(** The example device does not answer: three timeouts and a reply for
    another client. *)
Lemma get_label_offline_caches_nothing_witness :
  ∃ self' lp',
    Attributes.get_label (codec := ExampleCodec.codec) (fields := Cases.label_fields)
      ExampleCodec.bound_light ExampleCodec.bound_loop
      [Light.TimerFires; Light.Datagram Examples.foreign_reply; Light.TimerFires;
       Light.TimerFires]
    = (self', lp', Attributes.Failed LightOffline)
    ∧ Light._label self' = None.
Proof.
  destruct (get_label_offline_caches_nothing (codec := ExampleCodec.codec)
              (fields := Cases.label_fields)
              ExampleCodec.bound_light ExampleCodec.bound_loop 1%nat
              [Light.TimerFires; Light.Datagram Examples.foreign_reply;
               Light.TimerFires; Light.TimerFires])
    as (self' & lp' & Hget & Hlabel & _).
  - reflexivity.
  - reflexivity.
  - reflexivity.
  - exact events_allocated_bound.
  - exact unanswered_example.
  - vm_compute. lia.
  - exists self', lp'. split; [exact Hget | exact Hlabel].
Defined.

(** The example address in upper case and with dashes. *)
Lemma mac_to_ipv6_link_local_ignores_case_and_delimiters_witness :
  Ipv6._mac_to_ipv6_link_local "d0:73:d5:00:00:01" "fe80:"
  = Ipv6._mac_to_ipv6_link_local "D0:73:D5:00:00:01" "fe80:"
  ∧ Ipv6._mac_to_ipv6_link_local "D0:73D5:00:00:01" "fe80:"
    = Ipv6._mac_to_ipv6_link_local "D0:73-D5:00:00:01" "fe80:".
Proof.
  destruct (mac_to_ipv6_link_local_ignores_case_and_delimiters
              "D0:73:D5:00:00:01" "fe80:") as [Hcase _].
  destruct (mac_to_ipv6_link_local_ignores_case_and_delimiters
              "D0:73-D5:00:00:01" "fe80:") as [_ Hdelimiter].
  split; [exact Hcase|].
  apply (Hdelimiter "D0:73" "D5:00:00:01" "-"%char); reflexivity.
Defined.

(** An address of delimiters only, and the example address. *)
Lemma mac_to_ipv6_link_local_needs_one_digit_witness :
  Ipv6._mac_to_ipv6_link_local "::" "fe80:" = None
  ∧ is_Some (Ipv6._mac_to_ipv6_link_local "d0:73:d5:00:00:01" "fe80:").
Proof.
  split.
  - apply (proj1 (mac_to_ipv6_link_local_needs_one_digit "::" "fe80:")). reflexivity.
  - apply (proj2 (mac_to_ipv6_link_local_needs_one_digit "d0:73:d5:00:00:01" "fe80:")).
    + discriminate.
    + intros i c Hget.
      do 12 (destruct i as [|i]; [injection Hget as <-; now eexists|]).
      destruct i; discriminate Hget.
Defined.

(** The example address with an octet before it. *)
Lemma mac_to_ipv6_link_local_reads_the_low_48_bits_witness :
  Ipv6._mac_to_ipv6_link_local "ff:d0:73:d5:00:00:01" "fe80:"
  = Ipv6._mac_to_ipv6_link_local "d0:73:d5:00:00:01" "fe80:".
Proof.
  apply (mac_to_ipv6_link_local_reads_the_low_48_bits
           "d0:73:d5:00:00:01" "ff:d0:73:d5:00:00:01" "fe80:" 0xd073d5000001 255);
    vm_compute; reflexivity.
Defined.

(** The Kitchen group of the house has no light of the group Downstairs. *)
Lemma views_are_parts_of_the_collection_witness :
  Lights._light_list
    (Lights.get_by_group (Lights.get_by_group Examples.house "Kitchen") "Downstairs")
  = [].
Proof.
  destruct (views_are_parts_of_the_collection Examples.house "Kitchen"
              "d0:73:d5:00:00:01") as (_ & _ & Hother & _).
  apply Hother. discriminate.
Defined.
